(** * py-time-machine: snapshot lifecycle and retention engine

    A shallow embedding of [py-time-machine.py] (class [PyTimeMachine]) and
    the properties of its snapshot creation, "latest" pointer handling,
    capacity check and smart-remove retention.

    Layout:
    - [Datetime]: the part of Python's [datetime] module that the program
      relies on (proleptic Gregorian ordinals, field-wise comparison,
      whole-day [timedelta] arithmetic, [weekday]).
    - retention: [_keep_all], [_keep_last], [inc_month], [dec_month] and the
      keep-set computation of [_smart_remove].
    - filesystem and process model: a store of paths, the [os] / coreutils
      operations the program calls, and a state-and-exception monad.
    - the run: [_get_file_stat], [_check_freespace], [_take_snapshot],
      [_smart_remove], [run].
    - the configuration: [__init__], [_read_config], [REMOTE_PAT] and the
      property [is_dst_remote].
    - theorems. *)

From Stdlib Require Import ZArith Lia List String Ascii QArith.
From stdpp Require Import gmap strings list fin_maps sorting.

Local Open Scope Z_scope.

(** ** Exceptions and results of pure computations *)

Inductive exn :=
  | ValueError | OverflowError | IndexError | KeyError | TypeError
  | AttributeError | ZeroDivisionError
  | FileExistsError | FileNotFoundError | IsADirectoryError
  | NotADirectoryError | OSError.

Inductive result (A : Type) :=
  | Ok (a : A)
  | Err (e : exn).
Arguments Ok {A} a.
Arguments Err {A} e.

Definition rbind {A B} (r : result A) (k : A -> result B) : result B :=
  match r with
  | Ok a => k a
  | Err e => Err e
  end.

Declare Scope result_scope.
Delimit Scope result_scope with result.
Notation "'let?' x := r 'in' k" := (rbind r (fun x => k))
  (at level 10, x pattern, r at level 100, k at level 200) : result_scope.

(** ** Python's datetime, as far as the program uses it *)

Module Datetime.

Definition MINYEAR : Z := 1.
Definition MAXYEAR : Z := 9999.
Definition _MAXORDINAL : Z := 3652059.

Definition _is_leap (year : Z) : bool :=
  (year mod 4 =? 0) && (negb (year mod 100 =? 0) || (year mod 400 =? 0)).

(** number of days before January 1st of [year] *)
Definition _days_before_year (year : Z) : Z :=
  let y := year - 1 in
  y * 365 + y / 4 - y / 100 + y / 400.

(** [_DAYS_IN_MONTH], index 0 is a placeholder in the library as well *)
Definition _DAYS_IN_MONTH (month : Z) : Z :=
  match month with
  | 1 => 31 | 2 => 28 | 3 => 31 | 4 => 30 | 5 => 31 | 6 => 30
  | 7 => 31 | 8 => 31 | 9 => 30 | 10 => 31 | 11 => 30 | 12 => 31
  | _ => -1
  end.

Definition _DAYS_BEFORE_MONTH (month : Z) : Z :=
  match month with
  | 1 => 0 | 2 => 31 | 3 => 59 | 4 => 90 | 5 => 120 | 6 => 151
  | 7 => 181 | 8 => 212 | 9 => 243 | 10 => 273 | 11 => 304 | 12 => 334
  | _ => -1
  end.

Definition _days_in_month (year month : Z) : Z :=
  if (month =? 2) && _is_leap year then 29 else _DAYS_IN_MONTH month.

Definition _days_before_month (year month : Z) : Z :=
  _DAYS_BEFORE_MONTH month
  + (if (2 <? month) && _is_leap year then 1 else 0).

Definition _ymd2ord (year month day : Z) : Z :=
  _days_before_year year + _days_before_month year month + day.

Definition _DI400Y : Z := 146097.
Definition _DI100Y : Z := 36524.
Definition _DI4Y : Z := 1461.

(** month and day from the zero-based day of the year *)
Definition _ord2md (leapyear : bool) (n : Z) : Z * Z :=
  let month := Z.shiftr (n + 50) 5 in
  let preceding :=
    _DAYS_BEFORE_MONTH month + (if (2 <? month) && leapyear then 1 else 0) in
  if n <? preceding then
    let month' := month - 1 in
    let preceding' :=
      preceding
      - (_DAYS_IN_MONTH month' + (if (month' =? 2) && leapyear then 1 else 0)) in
    (month', n - preceding' + 1)
  else (month, n - preceding + 1).

Definition _ord2ymd (n : Z) : Z * Z * Z :=
  let n := n - 1 in
  let n400 := n / _DI400Y in
  let n := n mod _DI400Y in
  let year := n400 * 400 + 1 in
  let n100 := n / _DI100Y in
  let n := n mod _DI100Y in
  let n4 := n / _DI4Y in
  let n := n mod _DI4Y in
  let n1 := n / 365 in
  let n := n mod 365 in
  let year := year + n100 * 100 + n4 * 4 + n1 in
  if (n1 =? 4) || (n100 =? 4) then (year - 1, 12, 31)
  else
    let leapyear := (n1 =? 3) && (negb (n4 =? 24) || (n100 =? 3)) in
    let '(month, day) := _ord2md leapyear n in
    (year, month, day).

Record datetime := mk_datetime {
  year : Z; month : Z; day : Z;
  hour : Z; minute : Z; second : Z; microsecond : Z
}.

(** the checks of the constructor, [_check_date_fields] and
    [_check_time_fields] *)
Definition valid_fields (y m d hh mm ss us : Z) : bool :=
  (MINYEAR <=? y) && (y <=? MAXYEAR)
  && (1 <=? m) && (m <=? 12)
  && (1 <=? d) && (d <=? _days_in_month y m)
  && (0 <=? hh) && (hh <=? 23) && (0 <=? mm) && (mm <=? 59)
  && (0 <=? ss) && (ss <=? 59) && (0 <=? us) && (us <=? 999999).

Definition valid (dt : datetime) : bool :=
  valid_fields (year dt) (month dt) (day dt)
               (hour dt) (minute dt) (second dt) (microsecond dt).

(** [datetime.datetime(y, m, d, hh, mm, ss, us)] *)
Definition new (y m d hh mm ss us : Z) : result datetime :=
  if valid_fields y m d hh mm ss us
  then Ok (mk_datetime y m d hh mm ss us)
  else Err ValueError.

(** [datetime.datetime(y, m, d)] *)
Definition new_date (y m d : Z) : result datetime := new y m d 0 0 0 0.

Definition toordinal (dt : datetime) : Z :=
  _ymd2ord (year dt) (month dt) (day dt).

(** [(self.toordinal() + 6) % 7], Monday is 0 *)
Definition weekday (dt : datetime) : Z := (toordinal dt + 6) mod 7.

(** comparison of the field tuples, [_cmp] *)
Definition fields (dt : datetime) : list Z :=
  [year dt; month dt; day dt; hour dt; minute dt; second dt; microsecond dt].

Fixpoint cmp_fields (a b : list Z) : comparison :=
  match a, b with
  | x :: a', y :: b' =>
      match x ?= y with
      | Eq => cmp_fields a' b'
      | c => c
      end
  | [], [] => Eq
  | [], _ :: _ => Lt
  | _ :: _, [] => Gt
  end.

Definition cmp (a b : datetime) : comparison :=
  cmp_fields (fields a) (fields b).

Definition leb (a b : datetime) : bool :=
  match cmp a b with Gt => false | _ => true end.
Definition ltb (a b : datetime) : bool :=
  match cmp a b with Lt => true | _ => false end.

(** [timedelta(days=n)]: the day count is limited to nine digits *)
Definition timedelta_days (n : Z) : result Z :=
  if (-999999999 <=? n) && (n <=? 999999999) then Ok n else Err OverflowError.

(** [dt + timedelta(days=n)] for a delta of whole days: the time of day is
    kept and the date moves by [n] ordinals; a date outside
    [1 .. _MAXORDINAL] is an [OverflowError]. *)
Definition add_days (dt : datetime) (n : Z) : result datetime :=
  let o := toordinal dt + n in
  if (0 <? o) && (o <=? _MAXORDINAL) then
    let '(y, m, d) := _ord2ymd o in
    Ok (mk_datetime y m d (hour dt) (minute dt) (second dt) (microsecond dt))
  else Err OverflowError.

(** [dt + timedelta(days=n)] and [dt - timedelta(days=n)] *)
Definition plus_days (dt : datetime) (n : Z) : result datetime :=
  (let? d := timedelta_days n in add_days dt d)%result.
Definition minus_days (dt : datetime) (n : Z) : result datetime :=
  (let? d := timedelta_days n in add_days dt (- d))%result.

(** the check that [_ord2md] is right on one day of the year *)
Definition ord2md_ok (leap : bool) (n : Z) : bool :=
  let '(m, d) := _ord2md leap n in
  (1 <=? m) && (m <=? 12) && (1 <=? d)
  && (d <=? _DAYS_IN_MONTH m + (if (m =? 2) && leap then 1 else 0))
  && (_DAYS_BEFORE_MONTH m + (if (2 <? m) && leap then 1 else 0) + d =? n + 1).

(** a date of the calendar *)
Definition date_valid (y m d : Z) : Prop :=
  1 <= y /\ 1 <= m <= 12 /\ 1 <= d <= _days_in_month y m.

End Datetime.

Import Datetime (datetime, mk_datetime).

(** ** Snapshots and their order *)

(** An element of the list built by [_find_snapshots]: the parsed timestamp
    and the path of the entry. *)
Definition snapshot : Type := datetime * string.

(** Python's order on the tuples [(dt, path)]: by timestamp first, by path
    (code point order) among equal timestamps. *)
Definition snap_cmp (a b : snapshot) : comparison :=
  match Datetime.cmp a.1 b.1 with
  | Eq => String.compare a.2 b.2
  | c => c
  end.

Definition snap_leb (a b : snapshot) : bool :=
  match snap_cmp a b with Gt => false | _ => true end.

Definition snap_le : relation snapshot := fun a b => snap_leb a b = true.

#[global] Instance snap_le_dec : RelDecision snap_le :=
  fun a b => decide (snap_leb a b = true).

(** [list.sort()] on a list of snapshots *)
Definition sort_snapshots (l : list snapshot) : list snapshot :=
  merge_sort snap_le l.

(** ** Retention: the helpers of [_smart_remove] *)

(** [_keep_all]: the paths of all snapshots with
    [min_date <= dt <= max_date] *)
Definition _keep_all (snapshots : list snapshot) (min_date max_date : datetime)
  : list string :=
  (fun s : snapshot => s.2) <$>
    filter (fun s : snapshot =>
              Datetime.leb min_date s.1 && Datetime.leb s.1 max_date = true)
           snapshots.

(** [_keep_last]: the path of the greatest snapshot with
    [min_date <= dt < max_date], as a list of at most one path *)
Definition _keep_last (snapshots : list snapshot) (min_date max_date : datetime)
  : list string :=
  let res :=
    filter (fun s : snapshot =>
              Datetime.leb min_date s.1 && Datetime.ltb s.1 max_date = true)
           snapshots in
  match last (sort_snapshots res) with
  | Some s => [s.2]
  | None => []
  end.

(** [inc_month]: first day of the next month *)
Definition inc_month (dt : datetime) : result datetime :=
  let y := Datetime.year dt in
  let m := Datetime.month dt + 1 in
  if 12 <? m then Datetime.new_date (y + 1) 1 1
  else Datetime.new_date y m 1.

(** [dec_month]: first day of the previous month *)
Definition dec_month (dt : datetime) : result datetime :=
  let y := Datetime.year dt in
  let m := Datetime.month dt - 1 in
  if m <? 1 then Datetime.new_date (y - 1) 12 1
  else Datetime.new_date y m 1.

(** The [smart_remove] dictionary of the configuration. *)
Record smart_remove_cfg := mk_smart_remove {
  keep_all : Z;
  keep_one_per_day : Z;
  keep_one_per_week : Z;
  keep_one_per_month : Z
}.

(** the defaults set in [__init__] *)
Definition default_smart_remove : smart_remove_cfg :=
  mk_smart_remove 1 7 4 12.

Local Open Scope result_scope.

(** The loop of the daily rule, [n] iterations left: it returns the variable
    [today] as the loop leaves it, and the extended keep list. *)
Fixpoint daily_loop (n : nat) (snapshots : list snapshot)
    (today : datetime) (keep : list string) : result (datetime * list string) :=
  match n with
  | O => Ok (today, keep)
  | S n' =>
      let? hi := Datetime.add_days today 1 in
      let keep := keep ++ _keep_last snapshots today hi in
      let? today := Datetime.add_days today (-1) in
      daily_loop n' snapshots today keep
  end.

(** The loop of the weekly rule. *)
Fixpoint weekly_loop (n : nat) (snapshots : list snapshot)
    (d : datetime) (keep : list string) : result (list string) :=
  match n with
  | O => Ok keep
  | S n' =>
      let? hi := Datetime.plus_days d 8 in
      let keep := keep ++ _keep_last snapshots d hi in
      let? d := Datetime.minus_days d 7 in
      weekly_loop n' snapshots d keep
  end.

(** The loop of the monthly rule. *)
Fixpoint monthly_loop (n : nat) (snapshots : list snapshot)
    (d1 d2 : datetime) (keep : list string) : result (list string) :=
  match n with
  | O => Ok keep
  | S n' =>
      let keep := keep ++ _keep_last snapshots d1 d2 in
      let d2 := d1 in
      let? d1 := dec_month d1 in
      monthly_loop n' snapshots d1 d2 keep
  end.

(** The loop of the yearly rule, over [range(i, i + n)]. *)
Fixpoint yearly_loop (n : nat) (snapshots : list snapshot)
    (i : Z) (keep : list string) : result (list string) :=
  match n with
  | O => Ok keep
  | S n' =>
      let? lo := Datetime.new_date i 1 1 in
      let? hi := Datetime.new_date (i + 1) 1 1 in
      yearly_loop n' snapshots (i + 1) (keep ++ _keep_last snapshots lo hi)
  end.

(** The rules of [_smart_remove], one per [if] block, each extending the
    list [keep_snapshots]. *)

(** lines 414 to 417 *)
Definition keep_all_rule (cfg : smart_remove_cfg) (now : datetime)
    (snapshots : list snapshot) (keep : list string) : result (list string) :=
  if 0 <? keep_all cfg then
    let? lo := Datetime.minus_days now (keep_all cfg) in
    Ok (keep ++ _keep_all snapshots lo now)
  else Ok keep.

(** lines 420 to 424; the variable [today] is returned as the rule leaves
    it, because the weekly rule reads it *)
Definition daily_rule (cfg : smart_remove_cfg) (snapshots : list snapshot)
    (today : datetime) (keep : list string) : result (datetime * list string) :=
  if 0 <? keep_one_per_day cfg then
    daily_loop (Z.to_nat (keep_one_per_day cfg)) snapshots today keep
  else Ok (today, keep).

(** lines 427 to 433 *)
Definition weekly_rule (cfg : smart_remove_cfg) (snapshots : list snapshot)
    (today : datetime) (keep : list string) : result (list string) :=
  if 0 <? keep_one_per_week cfg then
    let? d := Datetime.minus_days today (Datetime.weekday today + 1) in
    weekly_loop (Z.to_nat (keep_one_per_week cfg)) snapshots d keep
  else Ok keep.

(** lines 436 to 443 *)
Definition monthly_rule (cfg : smart_remove_cfg) (now : datetime)
    (snapshots : list snapshot) (keep : list string) : result (list string) :=
  if 0 <? keep_one_per_month cfg then
    let? d1 := Datetime.new_date (Datetime.year now) (Datetime.month now) 1 in
    let? d2 := inc_month d1 in
    monthly_loop (Z.to_nat (keep_one_per_month cfg)) snapshots d1 d2 keep
  else Ok keep.

(** lines 446 to 451 *)
Definition yearly_rule (now : datetime) (snapshots : list snapshot)
    (keep : list string) : result (list string) :=
  let? oldest :=
    match head snapshots with Some s => Ok s | None => Err IndexError end in
  let first_year := Datetime.year oldest.1 in
  yearly_loop (Z.to_nat (Datetime.year now + 1 - first_year)) snapshots
              first_year keep.

(** [datetime.datetime(now.year, now.month, now.day, 0, 0, 0)] *)
Definition midnight (now : datetime) : result datetime :=
  Datetime.new (Datetime.year now) (Datetime.month now) (Datetime.day now)
               0 0 0 0.

(** Lines 407 to 451 of [_smart_remove]: the list [keep_snapshots] before it
    is turned into a set. [now] is the value of [utcnow()]. *)
Definition keep_snapshots (cfg : smart_remove_cfg) (now : datetime)
    (snapshots : list snapshot) : result (list string) :=
  let? today := midnight now in
  let snapshots := sort_snapshots snapshots in
  let? newest :=
    match last snapshots with Some s => Ok s | None => Err IndexError end in
  let keep := [newest.2] in
  let? keep := keep_all_rule cfg now snapshots keep in
  let? daily := daily_rule cfg snapshots today keep in
  let today := daily.1 in
  let keep := daily.2 in
  let? keep := weekly_rule cfg snapshots today keep in
  let? keep := monthly_rule cfg now snapshots keep in
  yearly_rule now snapshots keep.

(** Lines 453 to 460: the deletion list, in the order of the sorted
    snapshots. *)
Definition del_snapshots (cfg : smart_remove_cfg) (now : datetime)
    (snapshots : list snapshot) : result (list string) :=
  let? keep := keep_snapshots cfg now snapshots in
  let keep_set : gset string := list_to_set keep in
  Ok ((fun s : snapshot => s.2) <$>
        filter (fun s : snapshot => s.2 ∉ keep_set) (sort_snapshots snapshots)).

Definition dt (y m d hh mm ss : Z) : datetime := mk_datetime y m d hh mm ss 0.

(** ** Paths *)

Local Open Scope string_scope.
Local Open Scope Z_scope.

Definition starts_with_slash (s : string) : bool :=
  match s with
  | String "/" _ => true
  | _ => false
  end.

Fixpoint ends_with_slash (s : string) : bool :=
  match s with
  | "" => false
  | String c "" => Ascii.eqb c "/"
  | String _ s' => ends_with_slash s'
  end.

(** [os.path.join(a, b)] of [posixpath] *)
Definition path_join (a b : string) : string :=
  if starts_with_slash b then b
  else if String.eqb a "" || ends_with_slash a then a ++ b
  else a ++ "/" ++ b.

(** [strip_prefix p s] is [Some r] when [s = p ++ r] *)
Fixpoint strip_prefix (p s : string) : option string :=
  match p, s with
  | "", _ => Some s
  | String a p', String b s' =>
      if Ascii.eqb a b then strip_prefix p' s' else None
  | String _ _, "" => None
  end.

Fixpoint has_slash (s : string) : bool :=
  match s with
  | "" => false
  | String c s' => Ascii.eqb c "/" || has_slash s'
  end.

(** the text after the last slash, and the text up to and including it *)
Fixpoint split_last_slash (s : string) : string * string :=
  match s with
  | "" => ("", "")
  | String c s' =>
      let '(head, tail) := split_last_slash s' in
      if has_slash s' then (String c head, tail)
      else if Ascii.eqb c "/" then ("/", s')
      else ("", String c s')
  end.

Fixpoint all_slashes (s : string) : bool :=
  match s with
  | "" => true
  | String c s' => Ascii.eqb c "/" && all_slashes s'
  end.

Fixpoint rstrip_slashes (s : string) : string :=
  match s with
  | "" => ""
  | String c s' =>
      if all_slashes s then "" else String c (rstrip_slashes s')
  end.

(** [os.path.dirname] and [os.path.basename] of [posixpath] *)
Definition dirname (p : string) : string :=
  let head := (split_last_slash p).1 in
  if all_slashes head then head else rstrip_slashes head.

Definition basename (p : string) : string := (split_last_slash p).2.

(** the prefix that the paths below directory [d] share, as [path_join]
    builds them *)
Definition dir_prefix (d : string) : string :=
  if String.eqb d "" || ends_with_slash d then d else d ++ "/".

(** [name] is the name of an entry directly inside directory [d] when [p] is
    its path *)
Definition entry_of (d p : string) : option string :=
  match strip_prefix (dir_prefix d) p with
  | Some name =>
      if String.eqb name "" || has_slash name then None else Some name
  | None => None
  end.

Definition is_below (d p : string) : bool :=
  match strip_prefix (dir_prefix d) p with
  | Some r => negb (String.eqb r "")
  | None => false
  end.

(** ** The destination file system *)

(** What a path holds. The content of regular files and the files inside
    snapshot trees are not tracked. *)
Inductive node :=
  | Dir
  | File
  | Symlink (target : string).

#[global] Instance node_eq_dec : EqDecision node.
Proof. solve_decision. Defined.

(** The store maps a path, as the program spells it, to its node. Paths are
    compared as strings: the model assumes the program's paths are in
    canonical form and that no directory on the way to an entry is itself a
    symbolic link. *)
Abbreviation fs_t := (gmap string node).

(** the limit on nested symbolic links of the kernel *)
Definition MAXSYMLINKS : nat := 40.

(** the node a path leads to, following symbolic links at the last
    component; relative targets are taken from the directory of the link *)
Fixpoint resolve_fuel (fuel : nat) (fs : fs_t) (p : string) : option node :=
  match fs !! p with
  | Some (Symlink t) =>
      match fuel with
      | O => None
      | S fuel' => resolve_fuel fuel' fs (path_join (dirname p) t)
      end
  | other => other
  end.

Definition resolve (fs : fs_t) (p : string) : option node :=
  resolve_fuel MAXSYMLINKS fs p.

(** [os.path.lexists], [os.path.exists], [os.path.islink], [os.path.isdir] *)
Definition lexists (fs : fs_t) (p : string) : bool := bool_decide (is_Some (fs !! p)).
Definition exists_ (fs : fs_t) (p : string) : bool := bool_decide (is_Some (resolve fs p)).
Definition islink (fs : fs_t) (p : string) : bool :=
  match fs !! p with Some (Symlink _) => true | _ => false end.
Definition isdir (fs : fs_t) (p : string) : bool :=
  match resolve fs p with Some Dir => true | _ => false end.

(** the directory in which [p] is to be created is there; the root and the
    working directory always are *)
Definition parent_ok (fs : fs_t) (p : string) : bool :=
  let d := dirname p in
  String.eqb d "" || all_slashes d || isdir fs d.

(** names of the entries of directory [d], in the order of the store *)
Definition entries (fs : fs_t) (d : string) : list string :=
  omap (fun kv : string * node => entry_of d kv.1) (map_to_list fs).

(** the store without [p] and everything below it *)
Definition remove_tree (fs : fs_t) (p : string) : fs_t :=
  filter (fun kv : string * node => negb (String.eqb kv.1 p || is_below p kv.1) = true) fs.

(** the entries below [src], moved below [dst] *)
Definition rebase (fs : fs_t) (src dst : string) : list (string * node) :=
  omap (fun kv : string * node =>
          match strip_prefix (dir_prefix src) kv.1 with
          | Some r => if String.eqb r "" then None else Some (dir_prefix dst ++ r, kv.2)
          | None => None
          end) (map_to_list fs).

(** a copy of the tree at [src] put at [dst] *)
Definition copy_tree (fs : fs_t) (src dst : string) (n : node) : fs_t :=
  <[dst := n]> (list_to_map (rebase fs src dst) ∪ fs).

(** ** Log records *)

Inductive level := INFO | ERROR.

(** One constructor per message of the program; the arguments are the
    values formatted into it. *)
Inductive message :=
  | MsgStart (destination : string)
  | MsgLockBusy
  | MsgAborted
  | MsgNotEnoughInodes (inodes_free min_inodes : Z)
  | MsgNotEnoughSpace (space_free : Q) (min_space : Z)
  | MsgCopyingLast
  | MsgCloneFailed
  | MsgLatestBroken
  | MsgLatestMissing
  | MsgRunningCmd (cmd : list string)
  | MsgRsyncOk
  | MsgRsyncError (returncode : Z) (reason : string)
  | MsgRsyncException
  | MsgOnlyOneSnapshot
  | MsgNoSnapshotToRemove
  | MsgDeleteSnapshot (path : string)
  | MsgFsBefore
  | MsgFsAfter
  | MsgFreeSpace (space_free space_total : Z)
  | MsgFreeInodes (inodes_free inodes_total : Z)
  | MsgAllDone.

(** ** The state of a run and its monad *)

(** What a run leaves for an observer, in the order it happens: the records
    handed to [logging] and the commands handed to [_run]. *)
Inductive event :=
  | ELog (l : level) (m : message)
  | ECmd (command : list string).

(** The destination store, the attribute [_check_inodes] and whether the
    lock is held. *)
Record world := mk_world {
  w_fs : fs_t;
  w_check_inodes : bool;
  w_locked : bool
}.

(** How a piece of the program ends: with a value, with an exception, or
    with [SystemExit] carrying a status. *)
Inductive outcome (A : Type) :=
  | Ret (a : A)
  | Raised (e : exn)
  | Exited (code : Z).
Arguments Ret {A} a.
Arguments Raised {A} e.
Arguments Exited {A} code.

(** What running a piece of the program from a world gives. *)
Record reply (A : Type) := mk_reply {
  outcome_of : outcome A;
  world_of : world;
  events_of : list event
}.
Arguments mk_reply {A} _ _ _.
Arguments outcome_of {A} _.
Arguments world_of {A} _.
Arguments events_of {A} _.

Definition M (A : Type) : Type := world -> reply A.

#[global] Instance M_ret : MRet M := fun A a w => mk_reply (Ret a) w [].
#[global] Instance M_bind : MBind M := fun A B k m w =>
  let r := m w in
  match outcome_of r with
  | Ret a =>
      let r' := k a (world_of r) in
      mk_reply (outcome_of r') (world_of r') (events_of r ++ events_of r')
  | Raised e => mk_reply (Raised e) (world_of r) (events_of r)
  | Exited c => mk_reply (Exited c) (world_of r) (events_of r)
  end.

Definition raise {A} (e : exn) : M A := fun w => mk_reply (Raised e) w [].
Definition sys_exit {A} (code : Z) : M A := fun w => mk_reply (Exited code) w [].

Definition lift {A} (r : result A) : M A :=
  match r with
  | Ok a => mret a
  | Err e => raise e
  end.

(** [try: body finally: cleanup] *)
Definition try_finally {A} (body : M A) (cleanup : M unit) : M A := fun w =>
  let r := body w in
  let c := cleanup (world_of r) in
  mk_reply
    (match outcome_of c with
     | Ret _ => outcome_of r
     | Raised e => Raised e
     | Exited code => Exited code
     end)
    (world_of c) (events_of r ++ events_of c).

(** [try: body except Exception: handler]; [SystemExit] is not an
    [Exception] and passes through *)
Definition try_except {A} (body : M A) (handler : M A) : M A := fun w =>
  let r := body w in
  match outcome_of r with
  | Raised _ =>
      let h := handler (world_of r) in
      mk_reply (outcome_of h) (world_of h) (events_of r ++ events_of h)
  | _ => r
  end.

Definition get_fs : M fs_t := fun w => mk_reply (Ret (w_fs w)) w [].
Definition put_fs (fs : fs_t) : M unit := fun w =>
  mk_reply (Ret tt) (mk_world fs (w_check_inodes w) (w_locked w)) [].
Definition logging (l : level) (m : message) : M unit := fun w =>
  mk_reply (Ret tt) w [ELog l m].
Definition record_cmd (cmd : list string) : M unit := fun w =>
  mk_reply (Ret tt) w [ECmd cmd].
Definition set_check_inodes (b : bool) : M unit := fun w =>
  mk_reply (Ret tt) (mk_world (w_fs w) b (w_locked w)) [].
Definition get_check_inodes : M bool := fun w =>
  mk_reply (Ret (w_check_inodes w)) w [].
Definition set_locked (b : bool) : M unit := fun w =>
  mk_reply (Ret tt) (mk_world (w_fs w) (w_check_inodes w) b) [].

(** ** The calls of [os], [os.path] and [shutil] on the store *)

(** the exception of a call that creates [p] when the directory of [p] is
    not there *)
Definition no_parent (fs : fs_t) (p : string) : exn :=
  if exists_ fs (dirname p) then NotADirectoryError else FileNotFoundError.

Definition os_mkdir (p : string) : M unit :=
  fs ← get_fs;
  if lexists fs p then raise FileExistsError
  else if parent_ok fs p then put_fs (<[p := Dir]> fs)
  else raise (no_parent fs p).

(** [os.path.split(p)] of [posixpath] *)
Definition path_split (p : string) : string * string :=
  (dirname p, basename p).

(** [try: body except FileExistsError: pass] *)
Definition pass_FileExistsError (body : M unit) : M unit := fun w =>
  let r := body w in
  match outcome_of r with
  | Raised FileExistsError => mk_reply (Ret tt) (world_of r) (events_of r)
  | _ => r
  end.

(** the head and the tail that [os.makedirs] works with: those of the
    path, or of its head when the path ends with a slash *)
Definition makedirs_parts (name : string) : string * string :=
  let '(head, tail) := path_split name in
  if String.eqb tail "" then path_split head else (head, tail).

(** [os.makedirs(name)] with [exist_ok] false: when the head of the path is
    not there it is made first, by the same function, and an ancestor that
    is there is left to [mkdir], which refuses one that is no directory.
    The root is there. Every call is on a shorter path, so the length of the
    path bounds the depth. *)
Fixpoint makedirs_fuel (fuel : nat) (name : string) : M unit :=
  let '(head, tail) := makedirs_parts name in
  fs ← get_fs;
  if negb (String.eqb head "") && negb (String.eqb tail "")
     && negb (all_slashes head || exists_ fs head)
  then
    match fuel with
    | O => os_mkdir name
    | S fuel' =>
        pass_FileExistsError (makedirs_fuel fuel' head);;
        if String.eqb tail "." then mret tt else os_mkdir name
    end
  else os_mkdir name.

Definition os_makedirs (name : string) : M unit :=
  makedirs_fuel (String.length name) name.

Definition os_remove (p : string) : M unit :=
  fs ← get_fs;
  match fs !! p with
  | None => raise FileNotFoundError
  | Some Dir => raise IsADirectoryError
  | Some _ => put_fs (delete p fs)
  end.

Definition os_symlink (target p : string) : M unit :=
  fs ← get_fs;
  if lexists fs p then raise FileExistsError
  else if parent_ok fs p then put_fs (<[p := Symlink target]> fs)
  else raise (no_parent fs p).

Definition os_readlink (p : string) : M string :=
  fs ← get_fs;
  match fs !! p with
  | Some (Symlink t) => mret t
  | Some _ => raise OSError
  | None => raise FileNotFoundError
  end.

Definition os_listdir (d : string) : M (list string) :=
  fs ← get_fs;
  match resolve fs d with
  | Some Dir => mret (entries fs d)
  | Some _ => raise NotADirectoryError
  | None => raise FileNotFoundError
  end.

(** [shutil.rmtree(p)]: refuses symbolic links and what is not a directory *)
Definition shutil_rmtree (p : string) : M unit :=
  fs ← get_fs;
  match fs !! p with
  | Some Dir => put_fs (remove_tree fs p)
  | Some (Symlink _) => raise OSError
  | Some File => raise NotADirectoryError
  | None => raise FileNotFoundError
  end.

(** ** Commands run on a remote destination

    [_run] returns the completed process; the program reads its
    [returncode] and [stdout]. *)
Record completed := mk_completed {
  returncode : Z;
  stdout : string
}.

Definition newline : string := String (ascii_of_nat 10) "".

(** The commands act on the remote store as GNU coreutils do. The model
    assumes that the transport itself does not fail and that the paths need
    no shell quoting. *)

(** [ls p] *)
Definition sh_ls (p : string) (fs : fs_t) : completed * fs_t :=
  (mk_completed (if lexists fs p then 0 else 2) "", fs).

(** [mkdir -p p]: a path that leads to a directory is accepted; a missing
    one is made after its parent has been dealt with in the same way; an
    entry that is there and is no directory makes the command fail. The
    root and the working directory are there. *)
Fixpoint mkdir_p_fuel (fuel : nat) (p : string) (fs : fs_t) : bool * fs_t :=
  if isdir fs p then (true, fs)
  else if lexists fs p then (false, fs)
  else
    let d := dirname p in
    let up :=
      if String.eqb d "" || all_slashes d then (true, fs)
      else
        match fuel with
        | O => (false, fs)
        | S fuel' => mkdir_p_fuel fuel' d fs
        end in
    if up.1 then (true, <[p := Dir]> up.2) else (false, up.2).

Definition sh_mkdir_p (p : string) (fs : fs_t) : completed * fs_t :=
  let r := mkdir_p_fuel (String.length p) p fs in
  (mk_completed (if r.1 then 0 else 1) "", r.2).

(** [rm p] *)
Definition sh_rm (p : string) (fs : fs_t) : completed * fs_t :=
  match fs !! p with
  | Some Dir | None => (mk_completed 1 "", fs)
  | Some _ => (mk_completed 0 "", delete p fs)
  end.

(** [ln -s target p]: when [p] leads to a directory the link is made inside
    it, under the last component of [target] *)
Definition sh_ln_s (target p : string) (fs : fs_t) : completed * fs_t :=
  if isdir fs p then
    let q := path_join p (basename target) in
    if lexists fs q then (mk_completed 1 "", fs)
    else (mk_completed 0 "", <[q := Symlink target]> fs)
  else if lexists fs p then (mk_completed 1 "", fs)
  else if parent_ok fs p then (mk_completed 0 "", <[p := Symlink target]> fs)
  else (mk_completed 1 "", fs).

(** [readlink p] *)
Definition sh_readlink (p : string) (fs : fs_t) : completed * fs_t :=
  match fs !! p with
  | Some (Symlink t) => (mk_completed 0 (t ++ newline), fs)
  | _ => (mk_completed 1 "", fs)
  end.

(** [[ -e p ]] and [[ -L p ]] *)
Definition sh_test_e (p : string) (fs : fs_t) : completed * fs_t :=
  (mk_completed (if exists_ fs p then 0 else 1) "", fs).
Definition sh_test_L (p : string) (fs : fs_t) : completed * fs_t :=
  (mk_completed (if islink fs p then 0 else 1) "", fs).

(** [cp -arl src dst], [status] being the status the copy ends with when the
    store itself does not stand in its way. A copy that fails is taken to
    leave nothing behind. *)
Definition sh_cp_arl (status : Z) (src dst : string) (fs : fs_t)
  : completed * fs_t :=
  match fs !! src with
  | None => (mk_completed 1 "", fs)
  | Some n =>
      if negb (status =? 0) then (mk_completed status "", fs)
      else if isdir fs dst then
        (mk_completed 0 "", copy_tree fs src (path_join dst (basename src)) n)
      else if lexists fs dst then (mk_completed 1 "", fs)
      else if parent_ok fs dst then (mk_completed 0 "", copy_tree fs src dst n)
      else (mk_completed 1 "", fs)
  end.

(** [rm -fr p], [status] being the status the removal ends with. A
    removal that fails is taken to leave the tree as it was. *)
Definition sh_rm_fr (status : Z) (p : string) (fs : fs_t)
  : completed * fs_t :=
  if status =? 0 then (mk_completed 0 "", remove_tree fs p)
  else (mk_completed status "", fs).

(** the lines of [ls -1 --color=none d], as [stdout.split('\n')] yields them:
    the names and the empty text after the last newline. Names are taken
    to hold no newline. *)
Definition sh_ls_1_lines (d : string) (fs : fs_t) : list string :=
  match resolve fs d with
  | Some Dir => entries fs d ++ [""]
  | Some _ => [d; ""]
  | None => [""]
  end.

(** [_run(command)]: the command is recorded and acts on the store *)
Definition _run (command : list string)
    (effect : fs_t -> completed * fs_t) : M completed :=
  record_cmd command;;
  fs ← get_fs;
  let r := effect fs in
  put_fs r.2;;
  mret r.1.

(** ASCII white space, as [str.strip()] removes it *)
Definition is_space (c : ascii) : bool :=
  let n := nat_of_ascii c in
  ((9 <=? n) && (n <=? 13) || (28 <=? n) && (n <=? 32))%nat.

Fixpoint lstrip (s : string) : string :=
  match s with
  | String c s' => if is_space c then lstrip s' else s
  | "" => ""
  end.

Fixpoint all_space (s : string) : bool :=
  match s with
  | "" => true
  | String c s' => is_space c && all_space s'
  end.

Fixpoint rstrip (s : string) : string :=
  match s with
  | "" => ""
  | String c s' => if all_space s then "" else String c (rstrip s')
  end.

Definition strip (s : string) : string := rstrip (lstrip s).

(** ** Configuration and surroundings of a run *)

(** The attributes of a [PyTimeMachine] object after [_read_config].
    [dst_remote] is [Some "user@host"] when [REMOTE_PAT] matches the
    destination, and [_dst_path] is the path part of the match, or the
    destination itself when there is no match. *)
Record config := mk_config {
  sources : list string;
  destination : string;
  exclude : list string;
  min_space : Z;
  min_inodes : Z;
  smart_remove : smart_remove_cfg;
  rsh_command : option string;
  dst_remote : option string;
  _dst_path : string
}.

Definition is_dst_remote (self : config) : bool :=
  match dst_remote self with Some _ => true | None => false end.

Definition _dst_cmd (self : config) : list string :=
  match dst_remote self with
  | Some userhost => ["ssh"; userhost]
  | None => []
  end.

Definition _dst_rsync_partial (self : config) : string :=
  match dst_remote self with Some userhost => userhost | None => "" end.

(** The dictionary that [_get_stat] returns. *)
Record fs_stat := mk_fs_stat {
  ffree : Z;
  files : Z;
  bavail : Z;
  bsize : Z;
  blocks : Z
}.

Inductive rsync_outcome :=
  | RsyncStatus (returncode : Z)
  | RsyncRaises (e : exn).

(** What the surroundings answer during one run. *)
Record env := mk_env {
  (** the lock is free when [_flock_exclusive] asks for it *)
  env_lock_free : bool;
  (** [os.statvfs] or the parsed output of [stat -f], before and after the
      backup; [None] when the call raises or the output does not match
      [PAT_STAT] *)
  env_stat_before : option fs_stat;
  env_stat_after : option fs_stat;
  (** [utcnow()] in [_take_snapshot] and in [_smart_remove] *)
  env_now_snapshot : datetime;
  env_now_retention : datetime;
  (** the status of the hard-link copy when its source is there *)
  env_cp_status : Z;
  (** how the rsync process ends *)
  env_rsync : rsync_outcome;
  (** the status that [rm -fr] of a path ends with on a remote destination *)
  env_rm_status : string -> Z
}.

(** ** Constants of the program *)

Definition ONEM : Q := 1048576 # 1.

Definition RSYNC_ARGS : list string :=
  ["--delete"; "--delete-excluded"; "--group"; "--hard-links";
   "--itemize-changes"; "--links"; "--numeric-ids"; "--one-file-system";
   "--owner"; "--perms"; "--progress"; "--recursive"; "--relative";
   "--times"; "-D"; "-q"].

Definition RSYNC_EXIT_CODE (status : Z) : option string :=
  match status with
  | 0 => Some "Success"
  | 1 => Some "Syntax or usage error"
  | 2 => Some "Protocol incompatibility"
  | 3 => Some "Errors selecting input/output files, dirs"
  | 4 => Some "Requested action not supported: an attempt was made to manipulate 64-bit files on a platform that cannot support them; or an option was specified that is supported by the client and not by the server."
  | 5 => Some "Error starting client-server protocol"
  | 6 => Some "Daemon unable to append to log-file"
  | 10 => Some "Error in socket I/O"
  | 11 => Some "Error in file I/O"
  | 12 => Some "Error in rsync protocol data stream"
  | 13 => Some "Errors with program diagnostics"
  | 14 => Some "Error in IPC code"
  | 20 => Some "Received SIGUSR1 or SIGINT"
  | 21 => Some "Some error returned by waitpid()"
  | 22 => Some "Error allocating core memory buffers"
  | 23 => Some "Partial transfer due to error"
  | 24 => Some "Partial transfer due to vanished source files"
  | 25 => Some "The --max-delete limit stopped deletions"
  | 30 => Some "Timeout in data send/receive"
  | 35 => Some "Timeout waiting for daemon connection"
  | _ => None
  end.

(** ** Numbers and text *)

(** The double nearest to an integer, ties to even, as [int / float] first
    converts its left operand. Every integer of at most 53 bits is its own
    double. Counters of a file system are far below the range of doubles, so
    the conversion is taken not to overflow. *)
Definition float_of_int (n : Z) : Z :=
  let a := Z.abs n in
  let bits := Z.log2 a + 1 in
  if bits <=? 53 then n
  else
    let e := bits - 53 in
    let q := Z.shiftr a e in
    let r := a mod 2 ^ e in
    let half := 2 ^ (e - 1) in
    let q' := if (half <? r) || ((r =? half) && Z.odd q) then q + 1 else q in
    Z.sgn n * (q' * 2 ^ e).

Definition Qltb (a b : Q) : bool := negb (Qle_bool b a).

Definition digit (n : Z) : ascii := ascii_of_nat (48 + Z.to_nat (n mod 10)).

Definition pad2 (n : Z) : string :=
  String (digit (n / 10)) (String (digit n) "").

Definition pad4 (n : Z) : string :=
  String (digit (n / 1000)) (String (digit (n / 100)) (pad2 n)).

(** [now.strftime("%Y-%m-%d_%H:%M:%S_GMT")], for years of four digits *)
Definition strftime (now : datetime) : string :=
  pad4 (Datetime.year now) ++ "-" ++ pad2 (Datetime.month now) ++ "-"
  ++ pad2 (Datetime.day now) ++ "_" ++ pad2 (Datetime.hour now) ++ ":"
  ++ pad2 (Datetime.minute now) ++ ":" ++ pad2 (Datetime.second now) ++ "_GMT".

(** [stat['bavail'] * stat['bsize'] / ONEM]: the free space in megabytes, a
    float. Dividing a double by a power of two is exact. *)
Definition space_free (stat : fs_stat) : Q :=
  (inject_Z (float_of_int (bavail stat * bsize stat)) / ONEM)%Q.

(** The dictionary that [_get_file_stat] returns. *)
Record file_stat := mk_file_stat {
  fstat_exists : bool;
  fstat_broken : bool;
  fstat_islink : bool;
  fstat_target : option string
}.

(** The three branches of [_take_snapshot] on the pointer. *)
Inductive pointer_case :=
  | CloneLast
  | PointerAnomaly
  | NoSnapshots.

(** The conditions of the [if] / [elif] / [else] at lines 237, 250, 270. *)
Definition pointer_branch (snapshots : list snapshot) (latest_stat : file_stat)
  : pointer_case :=
  if (0 <? Z.of_nat (length snapshots)) && fstat_exists latest_stat
  then CloneLast
  else if (0 <? Z.of_nat (length snapshots)) && negb (fstat_exists latest_stat)
  then PointerAnomaly
  else NoSnapshots.

(** The retention plan of [_smart_remove]: nothing for at most one
    snapshot, else the deletion list. *)
Definition deletion_list (cfg : smart_remove_cfg) (now : datetime)
    (snapshots : list snapshot) : result (list string) :=
  if (length snapshots <=? 1)%nat then Ok []
  else del_snapshots cfg now snapshots.

(** ** The methods of [PyTimeMachine] *)

Definition dquote : string := String (ascii_of_nat 34) "".

Section Program.

(** [datetime.datetime.strptime(entry, "%Y-%m-%d_%H:%M:%S_GMT")], [None]
    when it raises [ValueError] *)
Variable strptime : string -> option datetime.

Variable self : config.
Variable E : env.

Definition _flock_exclusive : M unit :=
  if env_lock_free E then set_locked true
  else
    logging ERROR MsgLockBusy;;
    logging INFO MsgAborted;;
    sys_exit 2.

Definition _flock_release : M unit := set_locked false.

Definition _create_dest_directory : M unit :=
  if is_dst_remote self then
    res ← _run (_dst_cmd self ++ ["ls"; _dst_path self]) (sh_ls (_dst_path self));
    if negb (returncode res =? 0) then
      _run (_dst_cmd self ++ ["mkdir"; "-p"; _dst_path self])
           (sh_mkdir_p (_dst_path self));;
      mret tt
    else mret tt
  else
    fs ← get_fs;
    if negb (exists_ fs (destination self)) then os_makedirs (destination self)
    else mret tt.

(** [_get_stat], [answer] being what the file system reports at this call *)
Definition _get_stat (answer : option fs_stat) : M fs_stat :=
  if is_dst_remote self then
    record_cmd (_dst_cmd self ++ ["stat"; "-f"; _dst_path self]);;
    match answer with
    | Some st => mret st
    | None => raise AttributeError
    end
  else
    match answer with
    | Some st => mret st
    | None => raise OSError
    end.

Definition _find_snapshots : M (list snapshot) :=
  res ← (if is_dst_remote self then
           record_cmd (_dst_cmd self ++ ["ls"; "-1"; "--color=none"; _dst_path self]);;
           fs ← get_fs;
           mret (sh_ls_1_lines (_dst_path self) fs)
         else os_listdir (destination self));
  let snapshots :=
    omap (fun entry : string =>
            (fun t : datetime => (t, path_join (_dst_path self) entry))
              <$> strptime entry) res in
  mret (sort_snapshots snapshots).

Definition _get_file_stat (latest : string) : M file_stat :=
  if is_dst_remote self then
    res ← _run (_dst_cmd self ++ ["readlink"; latest]) (sh_readlink latest);
    let target :=
      if returncode res =? 0 then Some (strip (stdout res)) else None in
    res ← _run (_dst_cmd self ++ ["[ -e " ++ dquote ++ latest ++ dquote ++ " ]"])
               (sh_test_e latest);
    let broken := negb (returncode res =? 0) in
    let exists0 := returncode res =? 0 in
    res ← _run (_dst_cmd self ++ ["[ -L " ++ dquote ++ latest ++ dquote ++ " ]"])
               (sh_test_L latest);
    if returncode res =? 0
    then mret (mk_file_stat true broken true target)
    else mret (mk_file_stat exists0 broken false target)
  else
    fs ← get_fs;
    if islink fs latest then
      t ← os_readlink latest;
      mret (mk_file_stat (islink fs latest) (negb (exists_ fs latest))
                         (islink fs latest)
                         (Some (path_join (_dst_path self) t)))
    else mret (mk_file_stat (islink fs latest) false false None).

Definition _check_freespace : M fs_stat :=
  stat ← _get_stat (env_stat_before E);
  (if files stat =? 0 then set_check_inodes false
   else
     let inodes_free := ffree stat in
     if inodes_free <? min_inodes self then
       logging ERROR (MsgNotEnoughInodes inodes_free (min_inodes self));;
       logging INFO MsgAborted;;
       sys_exit 2
     else mret tt);;
  if Qltb (space_free stat) (inject_Z (min_space self)) then
    logging ERROR (MsgNotEnoughSpace (space_free stat) (min_space self));;
    logging INFO MsgAborted;;
    sys_exit 2
  else mret stat.

Definition _print_fs_stat (stat : fs_stat) : M unit :=
  let space_free := bavail stat * bsize stat in
  let space_total := blocks stat * bsize stat in
  (if space_total =? 0 then raise ZeroDivisionError else mret tt);;
  logging INFO (MsgFreeSpace space_free space_total);;
  check ← get_check_inodes;
  if check : bool then
    (if files stat =? 0 then raise ZeroDivisionError else mret tt);;
    logging INFO (MsgFreeInodes (ffree stat) (files stat))
  else mret tt.

Definition _run_rsync (args : list string) : M unit :=
  let cmd := ("rsync" :: args)%list in
  logging INFO (MsgRunningCmd cmd);;
  try_except
    (record_cmd cmd;;
     match env_rsync E with
     | RsyncRaises e => raise e
     | RsyncStatus status =>
         if status =? 0 then logging INFO MsgRsyncOk
         else
           match RSYNC_EXIT_CODE status with
           | Some reason => logging ERROR (MsgRsyncError status reason)
           | None => raise KeyError
           end
     end)
    (logging ERROR MsgRsyncException).

(** the loop at lines 466 to 472 *)
Fixpoint delete_snapshots (dels : list string) : M unit :=
  match dels with
  | [] => mret tt
  | snapshot :: rest =>
      logging INFO (MsgDeleteSnapshot snapshot);;
      (if is_dst_remote self then
         _run (_dst_cmd self ++ ["rm"; "-fr"; snapshot])
              (sh_rm_fr (env_rm_status E snapshot) snapshot);;
         mret tt
       else shutil_rmtree snapshot);;
      delete_snapshots rest
  end.

Definition _smart_remove (snapshots : list snapshot) : M unit :=
  if (length snapshots <=? 1)%nat then logging INFO MsgOnlyOneSnapshot
  else
    dels ← lift (del_snapshots (smart_remove self) (env_now_retention E) snapshots);
    match dels with
    | [] => logging INFO MsgNoSnapshotToRemove
    | _ => delete_snapshots dels
    end.

Definition _take_snapshot : M unit :=
  snapshots ← _find_snapshots;
  let now := env_now_snapshot E in
  let backup_dst := path_join (_dst_path self) (strftime now) in
  let args :=
    (RSYNC_ARGS
     ++ (match rsh_command self with Some c => ["-e"; c] | None => [] end)
     ++ ((fun x : string => ("--exclude=" ++ x)%string) <$> exclude self))%list in
  let latest := path_join (_dst_path self) "latest" in
  latest_stat ← _get_file_stat latest;
  match pointer_branch snapshots latest_stat with
  | CloneLast =>
      logging INFO MsgCopyingLast;;
      match fstat_target latest_stat with
      | None => raise TypeError
      | Some last_snapshot =>
          res ← _run (_dst_cmd self ++ ["cp"; "-arl"; last_snapshot; backup_dst])
                     (sh_cp_arl (env_cp_status E) last_snapshot backup_dst);
          if negb (returncode res =? 0) then
            logging ERROR MsgCloneFailed;;
            sys_exit 2
          else mret tt
      end
  | PointerAnomaly =>
      (if fstat_islink latest_stat then
         (if is_dst_remote self then
            _run (_dst_cmd self ++ ["rm"; latest]) (sh_rm latest);; mret tt
          else os_remove latest);;
         logging ERROR MsgLatestBroken
       else logging ERROR MsgLatestMissing);;
      (if is_dst_remote self then
         _run (_dst_cmd self ++ ["mkdir"; "-p"; backup_dst]) (sh_mkdir_p backup_dst);;
         _run (_dst_cmd self ++ ["ln"; "-s"; backup_dst; latest])
              (sh_ln_s backup_dst latest);;
         mret tt
       else
         os_mkdir backup_dst;;
         os_symlink backup_dst latest);;
      sys_exit 2
  | NoSnapshots =>
      if is_dst_remote self then
        _run (_dst_cmd self ++ ["rm"; latest]) (sh_rm latest);; mret tt
      else
        fs ← get_fs;
        if lexists fs latest then os_remove latest else mret tt
  end;;
  (if is_dst_remote self then
     _run (_dst_cmd self ++ ["mkdir"; "-p"; backup_dst]) (sh_mkdir_p backup_dst);;
     mret tt
   else
     fs ← get_fs;
     if negb (exists_ fs backup_dst) then os_mkdir backup_dst else mret tt);;
  let args :=
    (args ++ sources self
     ++ [if is_dst_remote self
         then (_dst_rsync_partial self ++ ":" ++ backup_dst)%string
         else backup_dst])%list in
  _run_rsync args;;
  (if is_dst_remote self then
     _run (_dst_cmd self ++ ["rm"; latest]) (sh_rm latest);;
     _run (_dst_cmd self ++ ["ln"; "-s"; backup_dst; latest])
          (sh_ln_s backup_dst latest);;
     mret tt
   else
     fs ← get_fs;
     if exists_ fs latest then
       os_remove latest;;
       os_symlink backup_dst latest
     else mret tt);;
  _smart_remove snapshots.

(** [run], after [_read_config] has filled in [self] *)
Definition run : M unit :=
  _flock_exclusive;;
  try_finally
    (logging INFO (MsgStart (destination self));;
     _create_dest_directory;;
     stat_before ← _check_freespace;
     _take_snapshot;;
     logging INFO MsgFsBefore;;
     _print_fs_stat stat_before;;
     logging INFO MsgFsAfter;;
     stat_after ← _get_stat (env_stat_after E);
     _print_fs_stat stat_after;;
     logging INFO MsgAllDone)
    _flock_release.

(** [main] from the call of [run] on: the process leaves with status 0
    when [run] returns *)
Definition main : M unit := run;; sys_exit 0.

End Program.

(** The status the process leaves with: an exception that nobody catches
    ends the interpreter with status 1. *)
Definition exit_status {A} (o : outcome A) : Z :=
  match o with
  | Ret _ => 0
  | Raised _ => 1
  | Exited code => code
  end.

(** A world before a run: the lock is not held. *)
Definition initial_world (fs : fs_t) : world := mk_world fs true false.

(** the records written to the log, and the commands run *)
Definition log_of (t : list event) : list (level * message) :=
  omap (fun e => match e with ELog l m => Some (l, m) | ECmd _ => None end) t.

Definition cmds_of (t : list event) : list (list string) :=
  omap (fun e => match e with ECmd c => Some c | ELog _ _ => None end) t.

(** the paths that the retention step announced to delete *)
Definition deleted_paths (t : list event) : list string :=
  omap (fun e => match e with
                 | ELog _ (MsgDeleteSnapshot p) => Some p
                 | _ => None
                 end) t.

(** the command is an invocation of rsync *)
Definition is_rsync_cmd (e : event) : bool :=
  match e with
  | ECmd (c :: _) => String.eqb c "rsync"
  | _ => false
  end.

Definition rsync_invoked (t : list event) : bool := existsb is_rsync_cmd t.

(** A parser for the names in canonical form, two digits per field and four
    for the year: the reading that [strptime] gives to the names the program
    itself writes. It serves the worked examples. *)
Definition digit_val (c : ascii) : option Z :=
  let n := nat_of_ascii c in
  if ((48 <=? n) && (n <=? 57))%nat then Some (Z.of_nat n - 48) else None.

Definition num2 (a b : ascii) : option Z :=
  x ← digit_val a; y ← digit_val b; Some (10 * x + y).

Definition strptime_canonical (entry : string) : option datetime :=
  match entry with
  | String y1 (String y2 (String y3 (String y4 (String "-"
    (String m1 (String m2 (String "-"
    (String d1 (String d2 (String "_"
    (String h1 (String h2 (String ":"
    (String i1 (String i2 (String ":"
    (String s1 (String s2 "_GMT")))))))))))))))))) =>
      yh ← num2 y1 y2; yl ← num2 y3 y4;
      m ← num2 m1 m2; d ← num2 d1 d2;
      hh ← num2 h1 h2; mm ← num2 i1 i2; ss ← num2 s1 s2;
      match Datetime.new (100 * yh + yl) m d hh mm ss 0 with
      | Ok t => Some t
      | Err _ => None
      end
  | _ => None
  end.

(** ** Three-way comparisons *)

(** What the proofs need of a three-way comparison. *)
Class CmpSpec {A} (cmp : A -> A -> comparison) := {
  cmp_eq : forall a b, cmp a b = Eq <-> a = b;
  cmp_opp : forall a b, cmp b a = CompOpp (cmp a b);
  cmp_lt_trans : forall a b c, cmp a b = Lt -> cmp b c = Lt -> cmp a c = Lt
}.
Arguments cmp_eq {A} cmp {_} a b.
Arguments cmp_opp {A} cmp {_} a b.
Arguments cmp_lt_trans {A} cmp {_} a b c.

Definition cmp_le {A} (cmp : A -> A -> comparison) (a b : A) : Prop :=
  cmp a b <> Gt.

(** the lexicographic product of two comparisons *)
Definition lex_cmp {A B} (ca : A -> A -> comparison) (cb : B -> B -> comparison)
    (x y : A * B) : comparison :=
  match ca x.1 y.1 with
  | Eq => cb x.2 y.2
  | c => c
  end.

(** ** The retention windows in the words of the specification *)

(** the path of the snapshot with the greatest timestamp among [l], nothing
    for an empty [l] *)
Definition latest_of (l : list snapshot) : list string :=
  match last (sort_snapshots l) with
  | Some s => [s.2]
  | None => []
  end.

(** the number of the calendar month of a timestamp, January of year 1
    being month 0 *)
Definition month_index (t : datetime) : Z :=
  12 * (Datetime.year t - 1) + (Datetime.month t - 1).

(** One pick per calendar month, for the [n] months that end with the month
    numbered [current]: the latest snapshot inside the month. *)
Definition monthly_spec (current : Z) (n : nat) (snaps : list snapshot)
  : list string :=
  flat_map
    (fun j : nat =>
       latest_of (filter (fun s : snapshot =>
                            month_index s.1 = current - Z.of_nat j) snaps))
    (seq 0 n).

(** One pick per bucket, for [n] buckets: bucket [j] starts at the first
    instant of the day with ordinal [first_start - 7 * j] and ends before the
    first instant of the day 8 days later; the pick is the latest snapshot
    inside the bucket. *)
Definition weekly_spec (first_start : Z) (n : nat) (snaps : list snapshot)
  : list string :=
  flat_map
    (fun j : nat =>
       latest_of
         (filter (fun s : snapshot =>
                    first_start - 7 * Z.of_nat j <= Datetime.toordinal s.1
                    < first_start - 7 * Z.of_nat j + 8) snaps))
    (seq 0 n).

(** the time of day is 00:00:00 *)
Definition at_midnight (t : datetime) : Prop :=
  Datetime.hour t = 0 /\ Datetime.minute t = 0 /\ Datetime.second t = 0
  /\ Datetime.microsecond t = 0.

(** the first instant of the calendar month numbered [i] *)
Definition month_start (i : Z) : datetime :=
  mk_datetime (i / 12 + 1) (i mod 12 + 1) 1 0 0 0 0.

(** the number of the month after December 9999 *)
Definition MONTHS : Z := 12 * 9999.

(** ** Inputs of the worked examples *)

Definition sample_config : config :=
  mk_config ["/home"] "/b" [] 1024 100000 default_smart_remove None None "/b".

Definition sample_stat : fs_stat :=
  mk_fs_stat 500000 1000000 10485760 4096 20971520.

Definition sample_env : env :=
  mk_env true (Some sample_stat) (Some sample_stat)
         (mk_datetime 2024 1 7 12 30 5 123) (mk_datetime 2024 1 7 12 31 0 17)
         0 (RsyncStatus 0) (fun _ => 0).

Definition sample_snapshots : list snapshot :=
  [ (dt 2023 11 5 3 0 0, "/b/2023-11-05_03:00:00_GMT");
    (dt 2022 3 1 3 0 0, "/b/2022-03-01_03:00:00_GMT");
    (dt 2024 1 6 3 0 0, "/b/2024-01-06_03:00:00_GMT");
    (dt 2023 11 2 3 0 0, "/b/2023-11-02_03:00:00_GMT") ]%string.

(** a Sunday noon, its midnight, and two snapshots: one of the day before
    and one of the Sunday two weeks earlier *)
Definition wk_cfg : smart_remove_cfg := mk_smart_remove (-1) (-1) 2 (-1).
Definition wk_now : datetime := mk_datetime 2024 3 10 12 0 0 0.
Definition wk_today : datetime := dt 2024 3 10 0 0 0.
Definition wk_snaps : list snapshot :=
  [ (dt 2024 2 25 3 0 0, "/b/2024-02-25_03:00:00_GMT");
    (dt 2024 3 9 3 0 0, "/b/2024-03-09_03:00:00_GMT") ]%string.

(** a destination whose entry [latest] is a directory *)
Definition c10_fs : gmap string node :=
  {[ "/b" := Dir; "/b/latest" := Dir ]}.

(** ** Comparing runs that differ in how rsync ends *)

(** the surroundings [E] with another end of the rsync process *)
Definition with_rsync (E : env) (r : rsync_outcome) : env :=
  mk_env (env_lock_free E) (env_stat_before E) (env_stat_after E)
         (env_now_snapshot E) (env_now_retention E) (env_cp_status E) r
         (env_rm_status E).

(** the record that [_run_rsync] writes for a status of the process *)
Definition rsync_report (status : Z) : event :=
  if status =? 0 then ELog INFO MsgRsyncOk
  else
    match RSYNC_EXIT_CODE status with
    | Some reason => ELog ERROR (MsgRsyncError status reason)
    | None => ELog ERROR MsgRsyncException
    end.

Definition is_rsync_report (e : event) : bool :=
  match e with
  | ELog _ MsgRsyncOk | ELog _ (MsgRsyncError _ _) | ELog _ MsgRsyncException =>
      true
  | _ => false
  end.

(** the events of a run without the records of how rsync ended *)
Definition without_rsync_report (t : list event) : list event :=
  filter (fun e => is_rsync_report e = false) t.

(** what an observer who does not read those records sees of a reply *)
Definition view {A} (r : reply A) : outcome A * world * list event :=
  (outcome_of r, world_of r, without_rsync_report (events_of r)).

(** a piece of the program that announces no deletion *)
Definition quiet {A} (m : M A) : Prop :=
  forall w, deleted_paths (events_of (m w)) = [].

(** a destination with one snapshot and the pointer on it *)
Definition sample_fs : gmap string node :=
  {[ "/b" := Dir;
     "/b/2024-01-06_03:00:00_GMT" := Dir;
     "/b/latest" := Symlink "/b/2024-01-06_03:00:00_GMT" ]}.

(** surroundings in which the file system has 10 free inodes *)
Definition few_inodes_stat : fs_stat := mk_fs_stat 10 1000000 10485760 4096 20971520.

Definition few_inodes_env : env :=
  mk_env true (Some few_inodes_stat) (Some few_inodes_stat)
         (mk_datetime 2024 1 7 12 30 5 123) (mk_datetime 2024 1 7 12 31 0 17)
         0 (RsyncStatus 0) (fun _ => 0).

(** a store with the destination directory and nothing in it *)
Definition empty_dest_fs : gmap string node := {[ "/b" := Dir ]}.

(** what holds of the value, the world and the events of a piece of the
    program when it returns *)
Definition post {A} (m : M A) (w : world)
    (Q : A -> world -> list event -> Prop) : Prop :=
  forall a, outcome_of (m w) = Ret a ->
            Q a (world_of (m w)) (events_of (m w)).

(** the sample configuration with the destination on another host *)
Definition sample_remote_config : config :=
  mk_config ["/home"] "backup@host:/b" [] 1024 100000 default_smart_remove None
            (Some "backup@host") "/b".

(** the surroundings of a run one hour after the sample run *)
Definition later_env : env :=
  mk_env true (Some sample_stat) (Some sample_stat)
         (mk_datetime 2024 1 7 13 30 5 99) (mk_datetime 2024 1 7 13 31 0 3)
         0 (RsyncStatus 0) (fun _ => 0).

(** a destination with one snapshot and a pointer to a directory that is
    gone *)
Definition broken_pointer_fs : gmap string node :=
  {[ "/b" := Dir;
     "/b/2024-01-06_03:00:00_GMT" := Dir;
     "/b/latest" := Symlink "/b/2023-12-31_03:00:00_GMT" ]}.

(** a destination with one snapshot and no pointer *)
Definition missing_pointer_fs : gmap string node :=
  {[ "/b" := Dir; "/b/2024-01-06_03:00:00_GMT" := Dir ]}.

(** ** The configuration file *)

(** A value built by [yaml.safe_load]. The program asks three things of such
    a value: its truth value, whether it is a [str], and its entries when it
    is a mapping. [YOther] stands for a value of one of the remaining types
    (float, date, byte string, set), which is neither a [str] nor a mapping,
    with its truth value. *)
#[warnings="-register-all"]
Inductive yaml :=
  | YNull
  | YBool (b : bool)
  | YInt (n : Z)
  | YStr (s : string)
  | YList (items : list yaml)
  | YDict (pairs : list (yaml * yaml))
  | YOther (truth : bool).

(** the truth value of a Python object *)
Definition truthy (v : yaml) : bool :=
  match v with
  | YNull => false
  | YBool b => b
  | YInt n => negb (n =? 0)
  | YStr s => negb (String.eqb s "")
  | YList items => match items with [] => false | _ => true end
  | YDict pairs => match pairs with [] => false | _ => true end
  | YOther truth => truth
  end.

(** the value under the [str] key [key] of a dict given by its items; a
    [str] equals no key of another type *)
Fixpoint dict_get (pairs : list (yaml * yaml)) (key : string) : option yaml :=
  match pairs with
  | [] => None
  | (YStr k, v) :: rest =>
      if String.eqb k key then Some v else dict_get rest key
  | _ :: rest => dict_get rest key
  end.

(** [v.get(key, fallback)]: only a dict has the method *)
Definition yaml_get (v : yaml) (key : string) (fallback : yaml) : result yaml :=
  match v with
  | YDict pairs => Ok (default fallback (dict_get pairs key))
  | _ => Err AttributeError
  end.

(** What a path of a configuration file holds. A file that can be opened is
    taken to be text in the encoding of the locale. *)
Inductive conf_file :=
  (** [os.path.exists] is false and [open] raises [FileNotFoundError] *)
  | Absent
  (** [open] raises [OSError] with this [strerror] *)
  | Unreadable (strerror : string)
  (** [yaml.safe_load] raises [YAMLError] with this text *)
  | Malformed (text : string)
  (** [yaml.safe_load] returns this value *)
  | Document (v : yaml).

(** the [strerror] of the [OSError] that [open] raises on the file *)
Definition open_error (f : conf_file) : option string :=
  match f with
  | Absent => Some "No such file or directory"
  | Unreadable strerror => Some strerror
  | Malformed _ | Document _ => None
  end.

(** The records that [_read_config] hands to [logging.error]. *)
Inductive conf_message :=
  | MsgCannotAccess (configfile : option string) (strerror : string)
  | MsgYamlError (text : string)
  | MsgNoConfigFile (conf_files : list string)
  | MsgNoSourceOrDestination
  | MsgDestinationNotString.

(** The attributes of a [PyTimeMachine] object that [__init__] sets and
    [_read_config] fills in, with the values as the file gives them. *)
Record attrs := mk_attrs {
  attr_sources : yaml;
  attr_destination : yaml;
  attr_exclude : yaml;
  attr_min_space : yaml;
  attr_min_inodes : yaml;
  attr_smart_remove : gmap string yaml;
  attr_rsh_command : yaml;
  attr_configfile : option string
}.

(** [__init__], [config] being [args.config] *)
Definition __init__ (config : option string) : attrs :=
  mk_attrs (YList []) (YStr "") (YList []) (YInt 1024) (YInt 100000)
           {[ "keep_all" := YInt 1; "keep_one_per_day" := YInt 7;
              "keep_one_per_week" := YInt 4; "keep_one_per_month" := YInt 12 ]}
           YNull
           (match config with
            | Some f => if String.eqb f "" then None else Some f
            | None => None
            end).

(** [CONF_FILES], [xdg_conf_dir] being [XDG_CONF_DIR] *)
Definition CONF_FILES (xdg_conf_dir : string) : list string :=
  [path_join xdg_conf_dir "py-time-machine.yaml"; "/etc/py-time-machine.yaml"].

(** How [_read_config] ends, and what it has logged by then. *)
Definition Conf (A : Type) : Type := list conf_message * outcome A.

#[global] Instance Conf_ret : MRet Conf := fun A a => ([], Ret a).
#[global] Instance Conf_bind : MBind Conf := fun A B k m =>
  match m.2 with
  | Ret a => ((m.1 ++ (k a).1)%list, (k a).2)
  | Raised e => (m.1, Raised e)
  | Exited code => (m.1, Exited code)
  end.

Definition conf_error (m : conf_message) : Conf unit := ([m], Ret tt).
Definition conf_exit {A} (code : Z) : Conf A := ([], Exited code).
Definition conf_lift {A} (r : result A) : Conf A :=
  match r with
  | Ok a => mret a
  | Err e => ([], Raised e)
  end.

(** [[x] if isinstance(x, str) else x] *)
Definition listify (v : yaml) : yaml :=
  match v with
  | YStr s => YList [YStr s]
  | _ => v
  end.

(** the loop at lines 649 to 652 *)
Fixpoint update_smart_remove (sr : yaml) (keys : list string)
    (smart_remove : gmap string yaml) : result (gmap string yaml) :=
  match keys with
  | [] => Ok smart_remove
  | key :: rest =>
      let? v := yaml_get sr key YNull in
      update_smart_remove sr rest
        (if truthy v then <[key := v]> smart_remove else smart_remove)
  end.

Definition SMART_REMOVE_KEYS : list string :=
  ["keep_all"; "keep_one_per_day"; "keep_one_per_week"; "keep_one_per_month"].

Section ReadConfig.

Variable xdg_conf_dir : string.

(** what the paths that the program may read hold *)
Variable disk : string -> conf_file.

(** the loop at lines 602 to 619: the value of [conf_dict] after it *)
Fixpoint load_conf (configfile : option string) (conf_files : list string)
  : Conf yaml :=
  match conf_files with
  | [] => mret YNull
  | fname :: rest =>
      match disk fname with
      | Absent => load_conf configfile rest
      | Unreadable strerror =>
          conf_error (MsgCannotAccess configfile strerror);;
          conf_exit 1
      | Malformed text =>
          conf_error (MsgYamlError text);;
          conf_exit 1
      | Document v => mret v
      end
  end.

Definition _read_config (self : attrs) : Conf attrs :=
  conf_files ←
    match attr_configfile self with
    | Some f =>
        if String.eqb f "" then mret (CONF_FILES xdg_conf_dir)
        else
          match open_error (disk f) with
          | Some strerror =>
              conf_error (MsgCannotAccess (attr_configfile self) strerror);;
              conf_exit 1
          | None => mret [f]
          end
    | None => mret (CONF_FILES xdg_conf_dir)
    end;
  conf_dict ← load_conf (attr_configfile self) conf_files;
  match conf_dict with
  | YNull =>
      conf_error (MsgNoConfigFile (CONF_FILES xdg_conf_dir));;
      conf_exit 2
  | _ =>
      source ← conf_lift (yaml_get conf_dict "source" YNull);
      destination ← conf_lift (yaml_get conf_dict "destination" YNull);
      if negb (truthy source && truthy destination) then
        conf_error MsgNoSourceOrDestination;;
        conf_exit 1
      else
        let sources := listify source in
        match destination with
        | YStr _ =>
            exclude ← conf_lift (yaml_get conf_dict "exclude" (YList []));
            let exclude := listify exclude in
            sr ← conf_lift (yaml_get conf_dict "smart_remove" (YDict []));
            smart_remove ←
              conf_lift (update_smart_remove sr SMART_REMOVE_KEYS
                                             (attr_smart_remove self));
            sr ← conf_lift (yaml_get conf_dict "free_space" (YDict []));
            v ← conf_lift (yaml_get sr "min_space" YNull);
            let min_space := if truthy v then v else attr_min_space self in
            v ← conf_lift (yaml_get sr "min_inodes" YNull);
            let min_inodes := if truthy v then v else attr_min_inodes self in
            v ← conf_lift (yaml_get conf_dict "rsh_command" YNull);
            let rsh_command := if truthy v then v else attr_rsh_command self in
            mret (mk_attrs sources destination exclude min_space min_inodes
                           smart_remove rsh_command (attr_configfile self))
        | _ =>
            conf_error MsgDestinationNotString;;
            conf_exit 1
        end
  end.

End ReadConfig.

(** the file of [--config], when the attribute counts as true *)
Definition explicit_file (self : attrs) : option string :=
  match attr_configfile self with
  | Some f => if String.eqb f "" then None else Some f
  | None => None
  end.

(** the paths that [_read_config] goes through: the file of [--config], or
    the common locations *)
Definition candidates (xdg_conf_dir : string) (self : attrs) : list string :=
  match explicit_file self with
  | Some f => [f]
  | None => CONF_FILES xdg_conf_dir
  end.

Definition is_absent (f : conf_file) : bool :=
  match f with Absent => true | _ => false end.

(** what the first of the paths that is there holds *)
Definition first_present (disk : string -> conf_file) (paths : list string)
  : option conf_file :=
  head (filter (fun f => is_absent f = false) (disk <$> paths)).

(** the value is a mapping *)
Definition is_mapping (v : yaml) : bool :=
  match v with YDict _ => true | _ => false end.

(** what the file sets for a key of a section: the value under the key
    when it counts as true *)
Definition file_value (section : list (yaml * yaml)) (key : string)
  : option yaml :=
  match dict_get section key with
  | Some v => if truthy v then Some v else None
  | None => None
  end.

(** a configuration file for the worked examples *)
Definition sample_document : yaml :=
  YDict [ (YStr "source", YStr "/home");
          (YStr "destination", YStr "backup@host:/b");
          (YStr "exclude", YList [YStr "*.tmp"; YStr ".cache"]);
          (YStr "smart_remove",
             YDict [ (YStr "keep_all", YInt 0);
                     (YStr "keep_one_per_day", YInt 14) ]);
          (YStr "free_space", YDict [ (YStr "min_space", YInt 2048) ]) ].

Definition sample_files (fname : string) : conf_file :=
  if String.eqb fname "/etc/py-time-machine.yaml" then Document sample_document
  else Absent.

(** the attributes that the sample file gives *)
Definition sample_attrs : attrs :=
  mk_attrs (YList [YStr "/home"]) (YStr "backup@host:/b")
           (YList [YStr "*.tmp"; YStr ".cache"])
           (YInt 2048) (YInt 100000)
           {[ "keep_all" := YInt 1; "keep_one_per_day" := YInt 14;
              "keep_one_per_week" := YInt 4; "keep_one_per_month" := YInt 12 ]}
           YNull None.

(** a file whose [smart_remove] section is left empty *)
Definition empty_section_document : yaml :=
  YDict [ (YStr "source", YStr "/home");
          (YStr "destination", YStr "/b");
          (YStr "smart_remove", YNull) ].

Definition empty_section_files (fname : string) : conf_file :=
  if String.eqb fname "/tmp/ptm.yaml" then Document empty_section_document
  else if String.eqb fname "/etc/py-time-machine.yaml"
       then Document sample_document
       else Absent.

(** ** The destination: [REMOTE_PAT] and the property [is_dst_remote] *)

(** [[A-Za-z0-9]] *)
Definition is_alnum (c : ascii) : bool :=
  let n := nat_of_ascii c in
  ((48 <=? n) && (n <=? 57) || (65 <=? n) && (n <=? 90)
   || (97 <=? n) && (n <=? 122))%nat.

(** the class of the group [user]: [[A-Za-z0-9\._%\+\-]] *)
Definition user_char (c : ascii) : bool :=
  is_alnum c || Ascii.eqb c "." || Ascii.eqb c "_" || Ascii.eqb c "%"
  || Ascii.eqb c "+" || Ascii.eqb c "-".

(** the class of the group [host]: [[A-Za-z0-9.\-]] *)
Definition host_char (c : ascii) : bool :=
  is_alnum c || Ascii.eqb c "." || Ascii.eqb c "-".

(** what [.] matches: every character but the newline *)
Definition dot_char (c : ascii) : bool := negb (Ascii.eqb c (ascii_of_nat 10)).

(** the longest prefix of characters of a class, and what follows it *)
Fixpoint span (p : ascii -> bool) (s : string) : string * string :=
  match s with
  | String c s' =>
      if p c then let r := span p s' in (String c r.1, r.2) else ("", s)
  | "" => ("", "")
  end.

(** [(?P<path>.+$)]: one character or more up to the end of the text, or up
    to a newline that ends the text *)
Definition match_path (s : string) : option string :=
  let r := span dot_char s in
  if String.eqb r.1 "" then None
  else if String.eqb r.2 "" || String.eqb r.2 newline then Some r.1
  else None.

(** [((?P<host>[A-Za-z0-9.\-]+)\:)(?P<path>.+$)]. The colon is not in the
    class, so the only run of the class that a colon can follow is the
    longest one. *)
Definition match_host_path (s : string) : option (string * string) :=
  let r := span host_char s in
  if String.eqb r.1 "" then None
  else
    match r.2 with
    | String ":" rest => (fun path => (r.1, path)) <$> match_path rest
    | _ => None
    end.

(** [REMOTE_PAT.match(s)]: the groups [user], [host] and [path] of the match.
    The optional group with the user is tried first, and the text is matched
    without it when that fails. *)
Definition REMOTE_PAT (s : string)
  : option (option string * string * string) :=
  let r := span user_char s in
  let with_user :=
    if String.eqb r.1 "" then None
    else
      match r.2 with
      | String "@" rest =>
          (fun hp : string * string => (Some r.1, hp.1, hp.2))
            <$> match_host_path rest
      | _ => None
      end in
  match with_user with
  | Some m => Some m
  | None =>
      (fun hp : string * string => (None, hp.1, hp.2)) <$> match_host_path s
  end.

(** What the property [is_dst_remote] sets on its first use: the text
    [user@host] of [_dst_cmd] and [_dst_rsync_partial] when the destination
    is remote, and [_dst_path]. [getuser] is the answer of
    [getpass.getuser()]. *)
Definition resolve_destination (getuser destination : string)
  : option string * string :=
  match REMOTE_PAT destination with
  | Some (user, host, path) =>
      let user :=
        match user with
        | Some u => if String.eqb u "" then getuser else u
        | None => getuser
        end in
      (Some (user ++ "@" ++ host), path)
  | None => (None, destination)
  end.

(** the object after [_read_config] and the first use of [is_dst_remote] *)
Definition configured (getuser : string) (sources : list string)
    (destination : string) (exclude : list string) (min_space min_inodes : Z)
    (smart_remove : smart_remove_cfg) (rsh_command : option string) : config :=
  let r := resolve_destination getuser destination in
  mk_config sources destination exclude min_space min_inodes smart_remove
            rsh_command r.1 r.2.

(** every character of the text is in the class *)
Fixpoint all_chars (p : ascii -> bool) (s : string) : bool :=
  match s with
  | String c s' => p c && all_chars p s'
  | "" => true
  end.

(** The texts that [REMOTE_PAT] matches, read off the pattern: an optional
    user and [@], a host and a colon, a path, and at most a final newline. *)
Definition remote_form (s : string) (user : option string)
    (host path : string) : Prop :=
  exists tail,
    s = (match user with Some u => u ++ "@" | None => "" end
         ++ host ++ ":" ++ path ++ tail)%string
    /\ (tail = "" \/ tail = newline)
    /\ match user with
       | Some u => u <> "" /\ all_chars user_char u = true
       | None => True
       end
    /\ host <> "" /\ all_chars host_char host = true
    /\ path <> "" /\ all_chars dot_char path = true.

(** ** The days of the daily rule *)

(** One pick per day, for the [n] days that end with the day of ordinal
    [first]: the latest snapshot of the day. *)
Definition daily_spec (first : Z) (n : nat) (snaps : list snapshot)
  : list string :=
  flat_map
    (fun j : nat =>
       latest_of (filter (fun s : snapshot =>
                            Datetime.toordinal s.1 = first - Z.of_nat j) snaps))
    (seq 0 n).

(** the count of a rule that is switched off by a value below 1 *)
Definition rounds (n : Z) : Z := Z.max n 0.

(** ** The rsync command of a run *)

(** the invocations of rsync among the events of a run *)
Definition rsync_cmds (t : list event) : list event :=
  filter (fun e => is_rsync_cmd e = true) t.

(** a piece of the program that does not invoke rsync *)
Definition rsync_free {A} (m : M A) : Prop :=
  forall w, rsync_cmds (events_of (m w)) = [].

(** The command that [_take_snapshot] hands to [_run_rsync], lines 227 to
    233 and 281 to 285: the fixed options, the remote shell, the excludes,
    the sources and, last, the directory of the new snapshot. *)
Definition rsync_command (self : config) (E : env) : list string :=
  let backup_dst := path_join (_dst_path self) (strftime (env_now_snapshot E)) in
  ("rsync"
   :: (RSYNC_ARGS
       ++ (match rsh_command self with Some c => ["-e"; c] | None => [] end)
       ++ ((fun x : string => ("--exclude=" ++ x)%string) <$> exclude self))
   ++ sources self
   ++ [if is_dst_remote self
       then (_dst_rsync_partial self ++ ":" ++ backup_dst)%string
       else backup_dst])%list.

(** ** The parts of [_take_snapshot] around the call of [_run_rsync] *)

(** Lines 222 to 279, what comes before the call: the snapshots are listed,
    the pointer is read, the last snapshot is cloned and the directory of
    the new snapshot is made. The value is the list of the snapshots. *)
Definition before_rsync (strptime : string -> option datetime)
    (self : config) (E : env) : M (list snapshot) :=
  snapshots ← _find_snapshots strptime self;
  let now := env_now_snapshot E in
  let backup_dst := path_join (_dst_path self) (strftime now) in
  let latest := path_join (_dst_path self) "latest" in
  latest_stat ← _get_file_stat self latest;
  match pointer_branch snapshots latest_stat with
  | CloneLast =>
      logging INFO MsgCopyingLast;;
      match fstat_target latest_stat with
      | None => raise TypeError
      | Some last_snapshot =>
          res ← _run (_dst_cmd self ++ ["cp"; "-arl"; last_snapshot; backup_dst])
                     (sh_cp_arl (env_cp_status E) last_snapshot backup_dst);
          if negb (returncode res =? 0) then
            logging ERROR MsgCloneFailed;;
            sys_exit 2
          else mret tt
      end
  | PointerAnomaly =>
      (if fstat_islink latest_stat then
         (if is_dst_remote self then
            _run (_dst_cmd self ++ ["rm"; latest]) (sh_rm latest);; mret tt
          else os_remove latest);;
         logging ERROR MsgLatestBroken
       else logging ERROR MsgLatestMissing);;
      (if is_dst_remote self then
         _run (_dst_cmd self ++ ["mkdir"; "-p"; backup_dst]) (sh_mkdir_p backup_dst);;
         _run (_dst_cmd self ++ ["ln"; "-s"; backup_dst; latest])
              (sh_ln_s backup_dst latest);;
         mret tt
       else
         os_mkdir backup_dst;;
         os_symlink backup_dst latest);;
      sys_exit 2
  | NoSnapshots =>
      if is_dst_remote self then
        _run (_dst_cmd self ++ ["rm"; latest]) (sh_rm latest);; mret tt
      else
        fs ← get_fs;
        if lexists fs latest then os_remove latest else mret tt
  end;;
  (if is_dst_remote self then
     _run (_dst_cmd self ++ ["mkdir"; "-p"; backup_dst]) (sh_mkdir_p backup_dst);;
     mret tt
   else
     fs ← get_fs;
     if negb (exists_ fs backup_dst) then os_mkdir backup_dst else mret tt);;
  mret snapshots.

(** Lines 289 to 294, what comes first after the call: the pointer is put
    on the directory of the new snapshot. *)
Definition update_pointer (self : config) (E : env) : M unit :=
  let backup_dst :=
    path_join (_dst_path self) (strftime (env_now_snapshot E)) in
  let latest := path_join (_dst_path self) "latest" in
  if is_dst_remote self then
    _run (_dst_cmd self ++ ["rm"; latest]) (sh_rm latest);;
    _run (_dst_cmd self ++ ["ln"; "-s"; backup_dst; latest])
         (sh_ln_s backup_dst latest);;
    mret tt
  else
    fs ← get_fs;
    if exists_ fs latest then
      os_remove latest;;
      os_symlink backup_dst latest
    else mret tt.

(** the names that [_find_snapshots] goes through *)
Definition listing (self : config) (fs : fs_t) : list string :=
  if is_dst_remote self then sh_ls_1_lines (_dst_path self) fs
  else entries fs (destination self).

(** a remote destination whose entry [latest] is a directory *)
Definition remote_dir_pointer_fs : gmap string node :=
  {[ "/b" := Dir;
     "/b/2024-01-06_03:00:00_GMT" := Dir;
     "/b/latest" := Dir ]}.

(** ** The report on inodes *)

(** the record of [_print_fs_stat] on the inodes *)
Definition is_inode_report (e : event) : bool :=
  match e with
  | ELog _ (MsgFreeInodes _ _) => true
  | _ => false
  end.

Definition inode_reports (t : list event) : list event :=
  filter (fun e => is_inode_report e = true) t.

(** a piece of the program that produces no event, leaves the attributes
    alone and takes nothing from the store *)
Definition only_adds {A} (m : M A) : Prop :=
  forall w, events_of (m w) = []
            /\ w_check_inodes (world_of (m w)) = w_check_inodes w
            /\ w_locked (world_of (m w)) = w_locked w
            /\ forall q n, w_fs w !! q = Some n ->
                           w_fs (world_of (m w)) !! q = Some n.

(** a piece of the program that writes no record on the inodes and leaves
    the attribute [_check_inodes] alone *)
Definition plain {A} (m : M A) : Prop :=
  forall w, inode_reports (events_of (m w)) = []
            /\ w_check_inodes (world_of (m w)) = w_check_inodes w.

(** a piece of the program that, started with [_check_inodes] false, ends
    with it false and writes no record on the inodes *)
Definition unchecked {A} (m : M A) : Prop :=
  forall w, w_check_inodes w = false ->
            inode_reports (events_of (m w)) = []
            /\ w_check_inodes (world_of (m w)) = false.

(** a file system that reports no inode totals *)
Definition no_inodes_stat : fs_stat := mk_fs_stat 0 0 10485760 4096 20971520.

Definition no_inodes_env : env :=
  mk_env true (Some no_inodes_stat) (Some no_inodes_stat)
         (mk_datetime 2024 1 7 12 30 5 123) (mk_datetime 2024 1 7 12 31 0 17)
         0 (RsyncStatus 0) (fun _ => 0).


(* ===== PROPERTIES ===== *)

(** * Properties *)

Local Open Scope list_scope.

(** ** Worked examples *)

Example ord_2024_01_07 :
  Datetime._ymd2ord 2024 1 7 = 738892
  /\ Datetime._ord2ymd 738892 = (2024, 1, 7)
  /\ Datetime._ord2ymd 3652059 = (9999, 12, 31)
  /\ Datetime._ord2ymd 1 = (1, 1, 1)
  /\ Datetime._ord2ymd 730119 = (1999, 12, 31)
  /\ Datetime._ord2ymd 730120 = (2000, 1, 1)
  /\ Datetime._ord2ymd 738945 = (2024, 2, 29).
Proof. repeat split; reflexivity. Qed.

Example retention_sample :
  let snaps := [ (dt 2023 11 5 3 0 0, "/b/2023-11-05_03:00:00_GMT");
                 (dt 2022 3 1 3 0 0, "/b/2022-03-01_03:00:00_GMT");
                 (dt 2022 5 1 3 0 0, "/b/2022-05-01_03:00:00_GMT");
                 (dt 2024 1 6 3 0 0, "/b/2024-01-06_03:00:00_GMT");
                 (dt 2024 1 5 3 0 0, "/b/2024-01-05_03:00:00_GMT");
                 (dt 2023 11 2 3 0 0, "/b/2023-11-02_03:00:00_GMT") ]%string in
  del_snapshots default_smart_remove (mk_datetime 2024 1 7 12 30 0 17) snaps
  = Ok ["/b/2022-03-01_03:00:00_GMT"; "/b/2023-11-02_03:00:00_GMT"]%string.
Proof. vm_compute. reflexivity. Qed.

(** ** Orders: timestamps, paths, snapshots *)


Section CmpFacts.
Context {A} (cmp : A -> A -> comparison) `{!CmpSpec cmp}.

Lemma cmp_refl a : cmp a a = Eq.
Proof. by apply (cmp_eq cmp). Qed.

Lemma cmp_gt_lt a b : cmp a b = Gt <-> cmp b a = Lt.
Proof. rewrite (cmp_opp cmp a b). destruct (cmp a b); simpl; split; congruence. Qed.

Lemma cmp_le_total a b : cmp_le cmp a b \/ cmp_le cmp b a.
Proof.
  unfold cmp_le. rewrite (cmp_opp cmp a b).
  destruct (cmp a b); simpl; [left | left | right]; congruence.
Qed.

Lemma cmp_le_trans a b c : cmp_le cmp a b -> cmp_le cmp b c -> cmp_le cmp a c.
Proof.
  unfold cmp_le. intros Hab Hbc.
  destruct (cmp a b) eqn:E1; [| | done].
  - apply (cmp_eq cmp) in E1. by subst.
  - destruct (cmp b c) eqn:E2; [| | done].
    + apply (cmp_eq cmp) in E2. subst. by rewrite E1.
    + by rewrite (cmp_lt_trans cmp a b c).
Qed.

Lemma cmp_le_antisym a b : cmp_le cmp a b -> cmp_le cmp b a -> a = b.
Proof.
  unfold cmp_le. rewrite (cmp_opp cmp a b).
  destruct (cmp a b) eqn:E; simpl; try congruence.
  intros _ _. by apply (cmp_eq cmp).
Qed.

Lemma cmp_lt_le a b : cmp a b = Lt -> cmp_le cmp a b.
Proof. unfold cmp_le. congruence. Qed.
End CmpFacts.

#[global] Instance Z_compare_spec : CmpSpec Z.compare.
Proof.
  split.
  - apply Z.compare_eq_iff.
  - intros. apply Z.compare_antisym.
  - intros a b c. rewrite !Z.compare_lt_iff. lia.
Qed.

#[global] Instance ascii_compare_spec : CmpSpec Ascii.compare.
Proof.
  split.
  - intros a b. split; [apply Ascii.compare_eq_iff |].
    intros ->. unfold Ascii.compare. apply N.compare_refl.
  - intros. apply Ascii.compare_antisym.
  - intros a b c. unfold Ascii.compare. rewrite !N.compare_lt_iff. lia.
Qed.

#[global] Instance lex_cmp_spec {A B} (ca : A -> A -> comparison)
    (cb : B -> B -> comparison) `{!CmpSpec ca, !CmpSpec cb} :
  CmpSpec (lex_cmp ca cb).
Proof.
  split.
  - intros [a1 b1] [a2 b2]. unfold lex_cmp. simpl.
    destruct (ca a1 a2) eqn:E.
    + apply (cmp_eq ca) in E. subst. rewrite (cmp_eq cb). naive_solver.
    + split; [done |]. intros [= -> ->]. by rewrite (cmp_refl ca) in E.
    + split; [done |]. intros [= -> ->]. by rewrite (cmp_refl ca) in E.
  - intros [a1 b1] [a2 b2]. unfold lex_cmp. simpl.
    rewrite (cmp_opp ca a1 a2).
    destruct (ca a1 a2); simpl; [apply (cmp_opp cb) | done..].
  - intros [a1 b1] [a2 b2] [a3 b3]. unfold lex_cmp. simpl.
    destruct (ca a1 a2) eqn:E1; [| | done].
    + apply (cmp_eq ca) in E1. subst.
      destruct (ca a2 a3) eqn:E2; [| done..].
      apply (cmp_lt_trans cb).
    + intros _. destruct (ca a2 a3) eqn:E2; [| | done].
      * apply (cmp_eq ca) in E2. subst. by rewrite E1.
      * by rewrite (cmp_lt_trans ca a1 a2 a3).
Qed.

#[global] Instance cmp_fields_spec : CmpSpec Datetime.cmp_fields.
Proof.
  split.
  - induction a as [|x a IH]; intros [|y b]; simpl; try done.
    destruct (x ?= y) eqn:E.
    + apply Z.compare_eq_iff in E. subst. specialize (IH b). naive_solver.
    + split; [done |]. intros [= -> ->]. by rewrite Z.compare_refl in E.
    + split; [done |]. intros [= -> ->]. by rewrite Z.compare_refl in E.
  - induction a as [|x a IH]; intros [|y b]; simpl; try done.
    rewrite (Z.compare_antisym x y).
    destruct (x ?= y); simpl; [apply IH | done..].
  - induction a as [|x a IH]; intros [|y b] [|z c]; simpl; try done.
    destruct (x ?= y) eqn:E1; [| | done].
    + apply Z.compare_eq_iff in E1. subst.
      destruct (y ?= z); [apply IH | done..].
    + intros _. destruct (y ?= z) eqn:E2; [| | done].
      * apply Z.compare_eq_iff in E2. subst. by rewrite E1.
      * rewrite Z.compare_lt_iff in E1, E2.
        assert (x < z) as ->%Z.compare_lt_iff by lia. done.
Qed.

Lemma fields_inj a b : Datetime.fields a = Datetime.fields b -> a = b.
Proof.
  destruct a, b. unfold Datetime.fields. simpl.
  by intros [= -> -> -> -> -> -> ->].
Qed.

#[global] Instance datetime_cmp_spec : CmpSpec Datetime.cmp.
Proof.
  unfold Datetime.cmp. split.
  - intros a b. rewrite (cmp_eq Datetime.cmp_fields).
    split; [apply fields_inj | by intros ->].
  - intros. apply (cmp_opp Datetime.cmp_fields).
  - intros a b c. apply (cmp_lt_trans Datetime.cmp_fields).
Qed.

#[global] Instance string_compare_spec : CmpSpec String.compare.
Proof.
  split.
  - intros a b. split; [apply String.compare_eq_iff |].
    intros <-. induction a as [|c a IH]; simpl; [done |].
    by rewrite (cmp_refl Ascii.compare).
  - intros. apply String.compare_antisym.
  - induction a as [|x a IH]; intros [|y b] [|z c]; simpl; try done.
    destruct (Ascii.compare x y) eqn:E1; [| | done].
    + apply (cmp_eq Ascii.compare) in E1. subst.
      destruct (Ascii.compare y z); [apply IH | done..].
    + intros _. destruct (Ascii.compare y z) eqn:E2; [| | done].
      * apply (cmp_eq Ascii.compare) in E2. subst. by rewrite E1.
      * by rewrite (cmp_lt_trans Ascii.compare x y z).
Qed.

#[global] Instance snap_cmp_spec : CmpSpec snap_cmp.
Proof. apply (lex_cmp_spec Datetime.cmp String.compare). Qed.

Lemma snap_le_cmp_le a b : snap_le a b <-> cmp_le snap_cmp a b.
Proof.
  unfold snap_le, snap_leb, cmp_le. destruct (snap_cmp a b); naive_solver.
Qed.

#[global] Instance snap_le_total : Total snap_le.
Proof. intros a b. rewrite !snap_le_cmp_le. apply (cmp_le_total _). Qed.

#[global] Instance snap_le_trans : Transitive snap_le.
Proof. intros a b c. rewrite !snap_le_cmp_le. apply (cmp_le_trans _). Qed.

#[global] Instance snap_le_antisym : AntiSymm (=) snap_le.
Proof. intros a b. rewrite !snap_le_cmp_le. apply (cmp_le_antisym _). Qed.

#[global] Instance snap_le_refl : Reflexive snap_le.
Proof. intros a. destruct (total snap_le a a); done. Qed.

(** ** Facts about dates *)

Module DatetimeFacts.
Import Datetime.

Lemma ord2md_ok_all (leap : bool) (n : Z) :
  0 <= n < 365 + (if leap then 1 else 0) -> ord2md_ok leap n = true.
Proof.
  intros Hn.
  replace n with (Z.of_nat (Z.to_nat n)) by lia.
  destruct leap.
  - assert (forallb (fun k => ord2md_ok true (Z.of_nat k)) (seq 0 366) = true)
      as H by (vm_compute; reflexivity).
    rewrite forallb_forall in H. apply H, in_seq. lia.
  - assert (forallb (fun k => ord2md_ok false (Z.of_nat k)) (seq 0 365) = true)
      as H by (vm_compute; reflexivity).
    rewrite forallb_forall in H. apply H, in_seq. lia.
Qed.


Lemma is_leap_decomp a b c d :
  0 <= b <= 3 -> 0 <= c <= 24 -> 0 <= d <= 3 ->
  _is_leap (400 * a + 100 * b + 4 * c + d + 1)
  = (d =? 3) && (negb (c =? 24) || (b =? 3)).
Proof.
  intros Hb Hc Hd. unfold _is_leap.
  repeat match goal with
         | |- context [?x =? ?y] => destruct (Z.eqb_spec x y)
         end; simpl; try reflexivity; exfalso;
    Z.div_mod_to_equations; lia.
Qed.

Lemma days_before_year_decomp a b c d :
  0 <= b <= 3 -> 0 <= c <= 24 -> 0 <= d <= 3 ->
  _days_before_year (400 * a + 100 * b + 4 * c + d + 1)
  = 146097 * a + 36524 * b + 1461 * c + 365 * d.
Proof.
  intros Hb Hc Hd. unfold _days_before_year.
  Z.div_mod_to_equations. lia.
Qed.

Lemma days_in_month_leap y m :
  _days_in_month y m
  = _DAYS_IN_MONTH m + (if (m =? 2) && _is_leap y then 1 else 0).
Proof.
  unfold _days_in_month. destruct (Z.eqb_spec m 2) as [-> |]; simpl; [|lia].
  destruct (_is_leap y); reflexivity.
Qed.

Lemma ord2ymd_spec n :
  1 <= n <= _MAXORDINAL ->
  match _ord2ymd n with
  | (y, m, d) =>
    1 <= y <= 9999 /\ 1 <= m <= 12 /\ 1 <= d <= _days_in_month y m
    /\ _ymd2ord y m d = n
  end.
Proof.
  intros Hn. unfold _ord2ymd, _MAXORDINAL, _DI400Y, _DI100Y, _DI4Y in *.
  set (n0 := n - 1).
  set (n400 := n0 / 146097). set (r400 := n0 mod 146097).
  set (n100 := r400 / 36524). set (r100 := r400 mod 36524).
  set (n4 := r100 / 1461). set (r4 := r100 mod 1461).
  set (n1 := r4 / 365). set (r1 := r4 mod 365).
  assert (n0 = 146097 * n400 + r400 /\ 0 <= r400 < 146097) as [E400 B400].
  { subst n400 r400. pose proof (Z.div_mod n0 146097).
    pose proof (Z.mod_pos_bound n0 146097). lia. }
  assert (r400 = 36524 * n100 + r100 /\ 0 <= r100 < 36524) as [E100 B100].
  { subst n100 r100. pose proof (Z.div_mod r400 36524).
    pose proof (Z.mod_pos_bound r400 36524). lia. }
  assert (r100 = 1461 * n4 + r4 /\ 0 <= r4 < 1461) as [E4 B4].
  { subst n4 r4. pose proof (Z.div_mod r100 1461).
    pose proof (Z.mod_pos_bound r100 1461). lia. }
  assert (r4 = 365 * n1 + r1 /\ 0 <= r1 < 365) as [E1 B1].
  { subst n1 r1. pose proof (Z.div_mod r4 365).
    pose proof (Z.mod_pos_bound r4 365). lia. }
  assert (0 <= n400 <= 24 /\ 0 <= n100 <= 4 /\ 0 <= n4 <= 24 /\ 0 <= n1 <= 4)
    as (Hb400 & Hb100 & Hb4 & Hb1).
  { subst n0. lia. }
  clearbody n400 r400 n100 r100 n4 r4 n1 r1. subst n0.
  destruct (Z.eqb_spec n100 4) as [H100 | H100].
  { rewrite orb_true_r.
    replace (n400 * 400 + 1 + n100 * 100 + n4 * 4 + n1 - 1)
      with (400 * n400 + 100 * 3 + 4 * 24 + 3 + 1) by lia.
    rewrite days_in_month_leap. unfold _ymd2ord, _days_before_month.
    rewrite is_leap_decomp, days_before_year_decomp by lia.
    simpl. lia. }
  destruct (Z.eqb_spec n1 4) as [H1 | H1].
  { simpl.
    replace (n400 * 400 + 1 + n100 * 100 + n4 * 4 + n1 - 1)
      with (400 * n400 + 100 * n100 + 4 * n4 + 3 + 1) by lia.
    rewrite days_in_month_leap. unfold _ymd2ord, _days_before_month.
    rewrite is_leap_decomp, days_before_year_decomp by lia.
    destruct (Z.eqb_spec n4 24); [lia |]. simpl. lia. }
  simpl.
  replace (n400 * 400 + 1 + n100 * 100 + n4 * 4 + n1)
    with (400 * n400 + 100 * n100 + 4 * n4 + n1 + 1) by lia.
  set (leap := (n1 =? 3) && (negb (n4 =? 24) || (n100 =? 3))).
  pose proof (ord2md_ok_all leap r1) as Hok.
  unfold ord2md_ok in Hok.
  destruct (_ord2md leap r1) as [m d].
  rewrite days_in_month_leap. unfold _ymd2ord, _days_before_month.
  rewrite is_leap_decomp, days_before_year_decomp by lia. fold leap.
  assert (0 <= r1 < 365 + (if leap then 1 else 0)) as Hr by (destruct leap; lia).
  specialize (Hok Hr).
  repeat (apply andb_prop in Hok as [Hok ?]).
  lia.
Qed.

Ltac month_cases m :=
  let H := fresh in
  assert (m = 1 \/ m = 2 \/ m = 3 \/ m = 4 \/ m = 5 \/ m = 6 \/ m = 7
          \/ m = 8 \/ m = 9 \/ m = 10 \/ m = 11 \/ m = 12) as H by lia;
  destruct H as [-> | [-> | [-> | [-> | [-> | [-> | [-> | [-> | [-> | [-> | [-> | ->]]]]]]]]]]].

Lemma days_before_year_succ y :
  _days_before_year (y + 1)
  = _days_before_year y + 365 + (if _is_leap y then 1 else 0).
Proof.
  unfold _days_before_year, _is_leap.
  repeat match goal with
         | |- context [?x =? ?y] => destruct (Z.eqb_spec x y)
         end; simpl; Z.div_mod_to_equations; lia.
Qed.

Lemma days_before_year_mono y y' :
  y <= y' -> _days_before_year y <= _days_before_year y'.
Proof. unfold _days_before_year. intros. Z.div_mod_to_equations. lia. Qed.

Lemma days_in_year_bound y m d :
  1 <= m <= 12 -> 1 <= d <= _days_in_month y m ->
  1 <= _days_before_month y m + d <= 365 + (if _is_leap y then 1 else 0).
Proof.
  intros Hm. unfold _days_in_month, _days_before_month.
  destruct (_is_leap y); month_cases m; simpl; lia.
Qed.

Lemma days_before_month_lt y m m' d :
  1 <= m -> m < m' -> m' <= 12 -> d <= _days_in_month y m ->
  _days_before_month y m + d <= _days_before_month y m'.
Proof.
  intros H1 H2 H3. unfold _days_in_month, _days_before_month.
  destruct (_is_leap y); month_cases m; month_cases m'; simpl; lia.
Qed.

(** the ordinal grows with the date *)
Lemma ymd2ord_lt y m d y' m' d' :
  date_valid y m d -> date_valid y' m' d' ->
  (y < y' \/ (y = y' /\ (m < m' \/ (m = m' /\ d < d')))) ->
  _ymd2ord y m d < _ymd2ord y' m' d'.
Proof.
  intros (Hy & Hm & Hd) (Hy' & Hm' & Hd') Hlt. unfold _ymd2ord.
  destruct Hlt as [Hlt | [<- [Hlt | [<- Hlt]]]]; [| | lia].
  - pose proof (days_in_year_bound y m d Hm Hd).
    pose proof (days_in_year_bound y' m' d' Hm' Hd').
    pose proof (days_before_year_succ y).
    pose proof (days_before_year_mono (y + 1) y'). lia.
  - pose proof (days_before_month_lt y m m' d). lia.
Qed.

Lemma ymd2ord_pos y m d : date_valid y m d -> 1 <= _ymd2ord y m d.
Proof.
  intros (Hy & Hm & Hd). unfold _ymd2ord.
  pose proof (days_in_year_bound y m d Hm Hd).
  pose proof (days_before_year_mono 1 y). 
  change (_days_before_year 1) with 0 in *. lia.
Qed.

Lemma ymd2ord_compare y m d y' m' d' :
  date_valid y m d -> date_valid y' m' d' ->
  cmp_fields [y; m; d] [y'; m'; d'] = (_ymd2ord y m d ?= _ymd2ord y' m' d').
Proof.
  intros V V'. simpl.
  destruct (Z.compare_spec y y') as [<- | Hy | Hy].
  - destruct (Z.compare_spec m m') as [<- | Hm | Hm].
    + destruct (Z.compare_spec d d') as [<- | Hd | Hd].
      * by rewrite Z.compare_refl.
      * symmetry. apply Z.compare_lt_iff, ymd2ord_lt; auto.
      * symmetry. apply Z.compare_gt_iff, ymd2ord_lt; auto.
    + symmetry. apply Z.compare_lt_iff, ymd2ord_lt; auto.
    + symmetry. apply Z.compare_gt_iff, ymd2ord_lt; auto.
  - symmetry. apply Z.compare_lt_iff, ymd2ord_lt; auto.
  - symmetry. apply Z.compare_gt_iff, ymd2ord_lt; auto.
Qed.

Lemma valid_date_valid t :
  valid t = true -> date_valid (year t) (month t) (day t).
Proof.
  unfold valid, valid_fields, date_valid, MINYEAR. intros H.
  repeat (apply andb_prop in H as [H ?]). lia.
Qed.

Lemma valid_time_nonneg t :
  valid t = true ->
  0 <= hour t /\ 0 <= minute t /\ 0 <= second t /\ 0 <= microsecond t.
Proof.
  unfold valid, valid_fields. intros H.
  repeat (apply andb_prop in H as [H ?]). lia.
Qed.

Lemma cmp_date_time a b :
  date_valid (year a) (month a) (day a) ->
  date_valid (year b) (month b) (day b) ->
  cmp a b =
  match toordinal a ?= toordinal b with
  | Eq => cmp_fields [hour a; minute a; second a; microsecond a]
                     [hour b; minute b; second b; microsecond b]
  | c => c
  end.
Proof.
  intros Va Vb. unfold toordinal.
  rewrite <-(ymd2ord_compare _ _ _ _ _ _ Va Vb).
  unfold cmp, fields. simpl.
  destruct (year a ?= year b); [| done..].
  destruct (month a ?= month b); [| done..].
  destruct (day a ?= day b); done.
Qed.

(** a timestamp is at or after the first instant of a day exactly when its
    day is not before that day *)
Lemma leb_midnight lo t :
  date_valid (year lo) (month lo) (day lo) -> at_midnight lo ->
  valid t = true ->
  leb lo t = (toordinal lo <=? toordinal t).
Proof.
  intros Vlo (Hh & Hm & Hs & Hu) Vt.
  pose proof (valid_time_nonneg t Vt) as (? & ? & ? & ?).
  unfold leb. rewrite (cmp_date_time lo t Vlo (valid_date_valid t Vt)).
  rewrite Hh, Hm, Hs, Hu. unfold Z.leb.
  destruct (toordinal lo ?= toordinal t); [| done..].
  cbn [cmp_fields].
  destruct (Z.compare_spec 0 (hour t)); [| done | lia].
  destruct (Z.compare_spec 0 (minute t)); [| done | lia].
  destruct (Z.compare_spec 0 (second t)); [| done | lia].
  destruct (Z.compare_spec 0 (microsecond t)); [done | done | lia].
Qed.

(** a timestamp is before the first instant of a day exactly when its day is
    before that day *)
Lemma ltb_midnight t hi :
  date_valid (year hi) (month hi) (day hi) -> at_midnight hi ->
  valid t = true ->
  ltb t hi = (toordinal t <? toordinal hi).
Proof.
  intros Vhi (Hh & Hm & Hs & Hu) Vt.
  pose proof (valid_time_nonneg t Vt) as (? & ? & ? & ?).
  unfold ltb. rewrite (cmp_date_time t hi (valid_date_valid t Vt) Vhi).
  rewrite Hh, Hm, Hs, Hu. unfold Z.ltb.
  destruct (toordinal t ?= toordinal hi); [| done..].
  cbn [cmp_fields].
  destruct (Z.compare_spec (hour t) 0); [| lia | done].
  destruct (Z.compare_spec (minute t) 0); [| lia | done].
  destruct (Z.compare_spec (second t) 0); [| lia | done].
  destruct (Z.compare_spec (microsecond t) 0); [done | lia | done].
Qed.

(** moving a timestamp by whole days *)
Lemma add_days_Ok t n :
  1 <= toordinal t + n <= _MAXORDINAL ->
  exists t',
    add_days t n = Ok t'
    /\ toordinal t' = toordinal t + n
    /\ date_valid (year t') (month t') (day t')
    /\ year t' <= 9999
    /\ hour t' = hour t /\ minute t' = minute t /\ second t' = second t
    /\ microsecond t' = microsecond t.
Proof.
  intros Ho. unfold add_days.
  destruct (Z.ltb_spec 0 (toordinal t + n)); [| lia].
  destruct (Z.leb_spec (toordinal t + n) _MAXORDINAL); [| lia]. simpl.
  pose proof (ord2ymd_spec (toordinal t + n) Ho) as Hs.
  destruct (_ord2ymd (toordinal t + n)) as [[y m] d].
  eexists. split; [reflexivity |]. unfold toordinal, date_valid in *. simpl.
  destruct Hs as (? & ? & ? & ?). repeat split; lia.
Qed.

Lemma add_days_Err t n :
  ~ (1 <= toordinal t + n <= _MAXORDINAL) -> add_days t n = Err OverflowError.
Proof.
  intros Ho. unfold add_days.
  destruct (Z.ltb_spec 0 (toordinal t + n)); [| done].
  destruct (Z.leb_spec (toordinal t + n) _MAXORDINAL); [lia | done].
Qed.

End DatetimeFacts.

(** ** Sorting and the newest snapshot *)

Lemma rbind_Ok {A B} (r : result A) (k : A -> result B) b :
  rbind r k = Ok b <-> exists a, r = Ok a /\ k a = Ok b.
Proof. destruct r; simpl; naive_solver. Qed.

Lemma sort_snapshots_elem_of l x : x ∈ sort_snapshots l <-> x ∈ l.
Proof. unfold sort_snapshots. by rewrite merge_sort_Permutation. Qed.

Lemma sort_snapshots_length l : length (sort_snapshots l) = length l.
Proof. unfold sort_snapshots. by rewrite merge_sort_Permutation. Qed.

Lemma sort_snapshots_sorted l : StronglySorted snap_le (sort_snapshots l).
Proof. apply StronglySorted_merge_sort; apply _. Qed.

(** the last element of the sorted list is in the list and bounds it *)
Lemma sort_last_elem_of l s : last (sort_snapshots l) = Some s -> s ∈ l.
Proof.
  intros [l' E]%last_Some. apply sort_snapshots_elem_of. rewrite E. set_solver.
Qed.

Lemma sort_last_max l s x :
  last (sort_snapshots l) = Some s -> x ∈ l -> snap_le x s.
Proof.
  intros [l' E]%last_Some Hx%sort_snapshots_elem_of.
  pose proof (sort_snapshots_sorted l) as Hs. rewrite E in Hs, Hx.
  apply elem_of_app in Hx as [Hx | ->%list_elem_of_singleton].
  - eapply StronglySorted_app_1_elem_of; [done.. |]. set_solver.
  - destruct (total snap_le s s); done.
Qed.

Lemma sort_last_is_Some l : l <> [] -> is_Some (last (sort_snapshots l)).
Proof.
  intros Hl. destruct (last (sort_snapshots l)) eqn:E; [by eexists |].
  apply last_None in E. apply (f_equal length) in E.
  rewrite sort_snapshots_length in E. by destruct l.
Qed.

(** a snapshot that bounds the list is the last one of the sorted list *)
Lemma greatest_is_last l s :
  s ∈ l -> (forall x, x ∈ l -> snap_le x s) -> last (sort_snapshots l) = Some s.
Proof.
  intros Hs Hmax.
  destruct (sort_last_is_Some l) as [s' E]; [by intros -> ; set_solver |].
  rewrite E. f_equal. apply (anti_symm snap_le).
  - apply Hmax. by eapply sort_last_elem_of.
  - by eapply sort_last_max.
Qed.

Lemma ltb_snap_le (a b : snapshot) : Datetime.ltb a.1 b.1 = true -> snap_le a b.
Proof.
  unfold Datetime.ltb, snap_le, snap_leb, snap_cmp.
  by destruct (Datetime.cmp a.1 b.1).
Qed.

(** ** The keep list only grows *)

Lemma daily_loop_extends n snaps today keep r :
  daily_loop n snaps today keep = Ok r -> exists ext, r.2 = keep ++ ext.
Proof.
  revert today keep. induction n as [|n IH]; intros today keep; simpl.
  - intros [= <-]. exists []. by rewrite app_nil_r.
  - intros (hi & _ & (today' & _ & H)%rbind_Ok)%rbind_Ok.
    apply IH in H as [ext ->]. eexists. by rewrite <-app_assoc.
Qed.

Lemma weekly_loop_extends n snaps d keep r :
  weekly_loop n snaps d keep = Ok r -> exists ext, r = keep ++ ext.
Proof.
  revert d keep. induction n as [|n IH]; intros d keep; simpl.
  - intros [= <-]. exists []. by rewrite app_nil_r.
  - intros (hi & _ & (d' & _ & H)%rbind_Ok)%rbind_Ok.
    apply IH in H as [ext ->]. eexists. by rewrite <-app_assoc.
Qed.

Lemma monthly_loop_extends n snaps d1 d2 keep r :
  monthly_loop n snaps d1 d2 keep = Ok r -> exists ext, r = keep ++ ext.
Proof.
  revert d1 d2 keep. induction n as [|n IH]; intros d1 d2 keep; simpl.
  - intros [= <-]. exists []. by rewrite app_nil_r.
  - intros (d1' & _ & H)%rbind_Ok.
    apply IH in H as [ext ->]. eexists. by rewrite <-app_assoc.
Qed.

Lemma yearly_loop_extends n snaps i keep r :
  yearly_loop n snaps i keep = Ok r -> exists ext, r = keep ++ ext.
Proof.
  revert i keep. induction n as [|n IH]; intros i keep; simpl.
  - intros [= <-]. exists []. by rewrite app_nil_r.
  - intros (lo & _ & (hi & _ & H)%rbind_Ok)%rbind_Ok.
    apply IH in H as [ext ->]. eexists. by rewrite <-app_assoc.
Qed.

(** the path of the last snapshot of the sorted list heads the keep list *)
Lemma keep_snapshots_newest cfg now snaps keep :
  keep_snapshots cfg now snaps = Ok keep ->
  exists s ext, last (sort_snapshots snaps) = Some s /\ keep = s.2 :: ext.
Proof.
  unfold keep_snapshots.
  intros (today & _ & (newest & Hnew & H)%rbind_Ok)%rbind_Ok.
  destruct (last (sort_snapshots snaps)) as [s|] eqn:Hlast; [|done].
  injection Hnew as <-. exists s.
  apply rbind_Ok in H as (k1 & H1 & H).
  apply rbind_Ok in H as (daily & H2 & H). simpl in H.
  apply rbind_Ok in H as (k3 & H3 & H).
  apply rbind_Ok in H as (k4 & H4 & H5).
  unfold yearly_rule in H5. apply rbind_Ok in H5 as (oldest & _ & H5).
  apply yearly_loop_extends in H5 as [e5 ->].
  assert (exists e4, k4 = k3 ++ e4) as [e4 ->].
  { unfold monthly_rule in H4. destruct (0 <? keep_one_per_month cfg).
    - apply rbind_Ok in H4 as (d1 & _ & (d2 & _ & H4)%rbind_Ok).
      by eapply monthly_loop_extends.
    - injection H4 as <-. exists []. by rewrite app_nil_r. }
  assert (exists e3, k3 = daily.2 ++ e3) as [e3 ->].
  { unfold weekly_rule in H3. destruct (0 <? keep_one_per_week cfg).
    - apply rbind_Ok in H3 as (d & _ & H3). by eapply weekly_loop_extends.
    - injection H3 as <-. exists []. by rewrite app_nil_r. }
  assert (exists e2, daily.2 = k1 ++ e2) as [e2 ->].
  { unfold daily_rule in H2. destruct (0 <? keep_one_per_day cfg).
    - by eapply daily_loop_extends.
    - injection H2 as <-. exists []. by rewrite app_nil_r. }
  assert (exists e1, k1 = [s.2] ++ e1) as [e1 ->].
  { unfold keep_all_rule in H1. destruct (0 <? keep_all cfg).
    - apply rbind_Ok in H1 as (lo & _ & [= <-]). by eexists.
    - injection H1 as <-. by exists []. }
  eexists. split; [reflexivity |].
  rewrite <-!app_assoc. reflexivity.
Qed.

(** ** Reading the monad *)

Lemma bind_reply {A B} (m : M A) (k : A -> M B) w :
  (m ≫= k) w =
  match outcome_of (m w) with
  | Ret a =>
      mk_reply (outcome_of (k a (world_of (m w)))) (world_of (k a (world_of (m w))))
               (events_of (m w) ++ events_of (k a (world_of (m w))))
  | Raised e => mk_reply (Raised e) (world_of (m w)) (events_of (m w))
  | Exited c => mk_reply (Exited c) (world_of (m w)) (events_of (m w))
  end.
Proof. reflexivity. Qed.

Lemma deleted_paths_app t1 t2 :
  deleted_paths (t1 ++ t2) = deleted_paths t1 ++ deleted_paths t2.
Proof. apply omap_app. Qed.

Lemma log_of_app t1 t2 : log_of (t1 ++ t2) = log_of t1 ++ log_of t2.
Proof. apply omap_app. Qed.

Lemma cmds_of_app t1 t2 : cmds_of (t1 ++ t2) = cmds_of t1 ++ cmds_of t2.
Proof. apply omap_app. Qed.

Lemma rsync_invoked_app t1 t2 :
  rsync_invoked (t1 ++ t2) = rsync_invoked t1 || rsync_invoked t2.
Proof. apply existsb_app. Qed.

(** ** What the retention step deletes *)

(** the paths announced by the deletion loop are the first ones of its list *)
Lemma delete_snapshots_deleted self E dels w :
  deleted_paths (events_of (delete_snapshots self E dels w)) `prefix_of` dels.
Proof.
  revert w. induction dels as [|p dels IH]; intros w; [by exists [] |].
  cbn [delete_snapshots]. rewrite bind_reply.
  cbn [logging outcome_of world_of events_of].
  rewrite bind_reply.
  match goal with
  | |- context [outcome_of (?m w)] => set (rm := m w)
  end.
  assert (deleted_paths (events_of rm) = []) as Hrm.
  { subst rm. destruct (is_dst_remote self); [reflexivity |].
    unfold shutil_rmtree. rewrite bind_reply. cbn.
    by destruct (w_fs w !! p) as [[| |]|]. }
  destruct (outcome_of rm); cbn [events_of app];
    change (deleted_paths (ELog INFO (MsgDeleteSnapshot p) :: ?t))
      with (p :: deleted_paths t);
    rewrite ?deleted_paths_app, Hrm;
    apply prefix_cons; [apply IH | apply prefix_nil..].
Qed.

Lemma smart_remove_deleted self E snaps w :
  deleted_paths (events_of (_smart_remove self E snaps w))
    `prefix_of`
  match deletion_list (smart_remove self) (env_now_retention E) snaps with
  | Ok dels => dels
  | Err _ => []
  end.
Proof.
  unfold _smart_remove, deletion_list.
  destruct (length snaps <=? 1)%nat; [by exists [] |].
  rewrite bind_reply.
  destruct (del_snapshots _ _ snaps) as [dels|e]; cbn; [|by exists []].
  destruct dels as [|p dels]; [by exists [] |].
  apply (delete_snapshots_deleted self E (p :: dels)).
Qed.

(** the deletion list holds paths of the given snapshots only, and none
    that the keep list names *)
Lemma del_snapshots_spec cfg now snaps dels p :
  del_snapshots cfg now snaps = Ok dels ->
  p ∈ dels ->
  p ∈ (fun s : snapshot => s.2) <$> snaps
  /\ exists keep, keep_snapshots cfg now snaps = Ok keep /\ p ∉ keep.
Proof.
  unfold del_snapshots. intros (keep & Hk & [= <-])%rbind_Ok.
  intros (s & -> & [Hs Hin]%list_elem_of_filter)%list_elem_of_fmap.
  split.
  - apply list_elem_of_fmap. exists s. by rewrite <-sort_snapshots_elem_of.
  - exists keep. split; [done |]. by rewrite elem_of_list_to_set in Hs.
Qed.

Lemma deletion_list_spec cfg now snaps dels p :
  deletion_list cfg now snaps = Ok dels ->
  p ∈ dels ->
  (1 < length snaps)%nat
  /\ p ∈ (fun s : snapshot => s.2) <$> snaps
  /\ exists keep, keep_snapshots cfg now snaps = Ok keep /\ p ∉ keep.
Proof.
  unfold deletion_list. destruct (Nat.leb_spec (length snaps) 1).
  - intros [= <-]. by intros ?%elem_of_nil.
  - intros Hd Hp. split; [done |]. by eapply del_snapshots_spec.
Qed.

(** ** C2: the newest snapshot survives retention *)

Lemma greatest_timestamp_bounds (snaps : list snapshot) (s : snapshot) :
  Forall (fun s' : snapshot => s' = s \/ Datetime.ltb s'.1 s.1 = true) snaps ->
  forall x, x ∈ snaps -> snap_le x s.
Proof.
  intros Hall x Hx. rewrite Forall_forall in Hall.
  destruct (Hall x Hx) as [-> | Hlt]; [| by apply ltb_snap_le].
  destruct (total snap_le s s); done.
Qed.

(** C2. For every non-empty snapshot list given to retention and every
    configuration, the snapshot whose timestamp is greater than that of
    every other one is in the keep set whenever the keep set is computed, is
    not in the deletion list, and is not among the paths that
    [_smart_remove] deletes. *)
Theorem newest_snapshot_is_kept (self : config) (E : env)
    (snaps : list snapshot) (s : snapshot) :
  s ∈ snaps ->
  Forall (fun s' : snapshot => s' = s \/ Datetime.ltb s'.1 s.1 = true) snaps ->
  (forall keep,
      keep_snapshots (smart_remove self) (env_now_retention E) snaps = Ok keep ->
      s.2 ∈ (list_to_set keep : gset string))
  /\ (forall dels,
        deletion_list (smart_remove self) (env_now_retention E) snaps = Ok dels ->
        s.2 ∉ dels)
  /\ (forall w, s.2 ∉ deleted_paths (events_of (_smart_remove self E snaps w))).
Proof.
  intros Hs Hall.
  pose proof (greatest_is_last snaps s Hs (greatest_timestamp_bounds _ _ Hall))
    as Hlast.
  assert (forall keep,
             keep_snapshots (smart_remove self) (env_now_retention E) snaps
             = Ok keep -> s.2 ∈ keep) as Hkeep.
  { intros keep (s' & ext & Hl & ->)%keep_snapshots_newest.
    rewrite Hlast in Hl. injection Hl as <-. by left. }
  assert (forall dels,
             deletion_list (smart_remove self) (env_now_retention E) snaps
             = Ok dels -> s.2 ∉ dels) as Hdel.
  { intros dels Hd Hin.
    destruct (deletion_list_spec _ _ _ _ _ Hd Hin) as (_ & _ & keep & Hk & Hn).
    by apply Hn, Hkeep. }
  split; [| split; [done |]].
  - intros keep Hk. apply elem_of_list_to_set. by apply Hkeep.
  - intros w Hin.
    destruct (smart_remove_deleted self E snaps w) as [rest Hp].
    destruct (deletion_list _ _ snaps) as [dels|] eqn:Hd.
    + apply (Hdel dels eq_refl). rewrite Hp. apply elem_of_app. by left.
    + symmetry in Hp. apply app_eq_nil in Hp as [Hp _].
      rewrite Hp in Hin. by apply elem_of_nil in Hin.
Qed.

Lemma newest_snapshot_is_kept_witness :
  keep_snapshots default_smart_remove (mk_datetime 2024 1 7 12 31 0 17)
                 sample_snapshots
  = Ok ["/b/2024-01-06_03:00:00_GMT"; "/b/2024-01-06_03:00:00_GMT";
        "/b/2024-01-06_03:00:00_GMT"; "/b/2023-11-05_03:00:00_GMT";
        "/b/2022-03-01_03:00:00_GMT"; "/b/2023-11-05_03:00:00_GMT";
        "/b/2024-01-06_03:00:00_GMT"]%string
  /\ "/b/2024-01-06_03:00:00_GMT"%string
       ∉ deleted_paths
           (events_of (_smart_remove sample_config sample_env sample_snapshots
                                     (initial_world ∅))).
Proof.
  split; [vm_compute; reflexivity |].
  apply (newest_snapshot_is_kept sample_config sample_env sample_snapshots
           (dt 2024 1 6 3 0 0, "/b/2024-01-06_03:00:00_GMT"%string)).
  - unfold sample_snapshots. do 2 right. left.
  - unfold sample_snapshots.
    repeat (constructor; [first [left; reflexivity | right; reflexivity] |]).
    constructor.
Defined.

(** ** C7: the buckets of the weekly rule *)

Import DatetimeFacts.

Lemma filter_iff_Forall {A} (P Q : A -> Prop)
    `{!forall x, Decision (P x), !forall x, Decision (Q x)} (l : list A) :
  Forall (fun x => P x <-> Q x) l -> filter P l = filter Q l.
Proof.
  induction 1 as [|x l Hx _ IH]; [done |].
  rewrite !filter_cons, IH.
  destruct (decide (P x)), (decide (Q x)); tauto.
Qed.

(** the window test of [_keep_last] between the first instants of two days
    is a test on the day of the timestamp *)
Lemma keep_last_days snaps lo hi :
  Datetime.date_valid (Datetime.year lo) (Datetime.month lo) (Datetime.day lo) ->
  Datetime.date_valid (Datetime.year hi) (Datetime.month hi) (Datetime.day hi) ->
  at_midnight lo -> at_midnight hi ->
  Forall (fun s : snapshot => Datetime.valid s.1 = true) snaps ->
  _keep_last snaps lo hi
  = latest_of (filter (fun s : snapshot =>
                         Datetime.toordinal lo <= Datetime.toordinal s.1
                         < Datetime.toordinal hi) snaps).
Proof.
  intros Vlo Vhi Mlo Mhi Hall. unfold _keep_last, latest_of.
  match goal with
  | |- context [filter ?P snaps] =>
      match goal with
      | |- _ = match last (sort_snapshots (filter ?Q snaps)) with _ => _ end =>
          assert (filter P snaps = filter Q snaps) as ->; [| done]
      end
  end.
  apply filter_iff_Forall.
  eapply Forall_impl; [exact Hall |]. intros s Vs. simpl in Vs.
  rewrite (leb_midnight lo s.1 Vlo Mlo Vs), (ltb_midnight s.1 hi Vhi Mhi Vs).
  rewrite andb_true_iff, Z.leb_le, Z.ltb_lt. done.
Qed.

Lemma weekly_spec_succ o n snaps :
  weekly_spec o (S n) snaps
  = latest_of (filter (fun s : snapshot =>
                         o <= Datetime.toordinal s.1 < o + 8) snaps)
    ++ weekly_spec (o - 7) n snaps.
Proof.
  unfold weekly_spec. rewrite <-cons_seq. cbn [flat_map]. f_equal.
  - f_equal. apply list_filter_iff. intros s. lia.
  - rewrite <-seq_shift, flat_map_concat_map, map_map, <-flat_map_concat_map.
    apply flat_map_ext. intros j. f_equal. apply list_filter_iff. intros s. lia.
Qed.

Lemma weekly_loop_spec n snaps d keep :
  Datetime.date_valid (Datetime.year d) (Datetime.month d) (Datetime.day d) ->
  at_midnight d ->
  Forall (fun s : snapshot => Datetime.valid s.1 = true) snaps ->
  1 <= Datetime.toordinal d - 7 * Z.of_nat n ->
  Datetime.toordinal d + 8 <= Datetime._MAXORDINAL ->
  weekly_loop n snaps d keep
  = Ok (keep ++ weekly_spec (Datetime.toordinal d) n snaps).
Proof.
  revert d keep. induction n as [|n IH]; intros d keep Vd Md Hall Hlo Hhi.
  - simpl. unfold weekly_spec. simpl. by rewrite app_nil_r.
  - cbn [weekly_loop]. unfold Datetime.plus_days, Datetime.minus_days.
    change (Datetime.timedelta_days 8) with (Ok 8 : result Z).
    change (Datetime.timedelta_days 7) with (Ok 7 : result Z).
    cbn [rbind]. change (- (7)) with (-7).
    destruct (add_days_Ok d 8) as (hi & -> & Ohi & Vhi & _ & Hh & Hm & Hs & Hu);
      [lia |].
    destruct (add_days_Ok d (-7)) as (d' & -> & Od' & Vd' & _ & Hh' & Hm' & Hs' & Hu');
      [lia |].
    cbn [rbind].
    assert (at_midnight hi) as Mhi.
    { unfold at_midnight in *. rewrite Hh, Hm, Hs, Hu. done. }
    assert (at_midnight d') as Md'.
    { unfold at_midnight in *. rewrite Hh', Hm', Hs', Hu'. done. }
    rewrite IH by (try done; lia).
    rewrite (keep_last_days snaps d hi Vd Vhi Md Mhi Hall).
    rewrite weekly_spec_succ, Od', Ohi, <-app_assoc. done.
Qed.

(** what [latest_of] picks *)
Lemma latest_of_spec (l : list snapshot) :
  (l = [] /\ latest_of l = [])
  \/ (exists s, s ∈ l /\ latest_of l = [s.2]
                /\ forall x, x ∈ l -> Datetime.leb x.1 s.1 = true).
Proof.
  unfold latest_of. destruct l as [|s0 l]; [by left |]. right.
  destruct (sort_last_is_Some (s0 :: l)) as [s Hs]; [done |].
  rewrite Hs. exists s. split; [by eapply sort_last_elem_of |].
  split; [done |]. intros x Hx.
  pose proof (sort_last_max _ _ x Hs Hx) as Hle.
  unfold snap_le, snap_leb, snap_cmp in Hle. unfold Datetime.leb.
  by destruct (Datetime.cmp x.1 s.1).
Qed.

Lemma weekday_range t : 0 <= Datetime.weekday t < 7.
Proof. unfold Datetime.weekday. apply Z.mod_pos_bound. lia. Qed.

Lemma daily_rule_off cfg snaps today keep :
  keep_one_per_day cfg <= 0 -> daily_rule cfg snaps today keep = Ok (today, keep).
Proof.
  intros H. unfold daily_rule. by destruct (Z.ltb_spec 0 (keep_one_per_day cfg)); [lia |].
Qed.

Lemma midnight_Ok now :
  Datetime.valid now = true ->
  exists today,
    midnight now = Ok today /\ at_midnight today
    /\ Datetime.toordinal today = Datetime.toordinal now
    /\ Datetime.date_valid (Datetime.year today) (Datetime.month today)
                           (Datetime.day today).
Proof.
  intros V. pose proof (valid_date_valid now V) as Vd.
  unfold midnight, Datetime.new.
  assert (Datetime.valid_fields (Datetime.year now) (Datetime.month now)
            (Datetime.day now) 0 0 0 0 = true) as ->.
  { unfold Datetime.valid, Datetime.valid_fields in V |- *.
    rewrite !andb_true_iff, !Z.leb_le in V |- *. lia. }
  eexists. split; [reflexivity |].
  unfold at_midnight, Datetime.toordinal. simpl.
  split; [done |]. split; [done |]. exact Vd.
Qed.

(** C7. When keepOneperWeek is positive, the weekly rule examines exactly
    keepOneperWeek buckets. The first one starts on the Sunday strictly
    before the day that the variable [today] holds when the rule runs, which
    is today's UTC midnight when the daily rule did not run; every further
    bucket starts 7 days earlier. From each bucket the rule keeps the
    snapshot with the greatest timestamp among those from the first instant
    of the start day up to, not including, the first instant of the day 8
    days later; an empty bucket adds nothing. *)
Theorem weekly_rule_buckets (cfg : smart_remove_cfg) (snaps : list snapshot)
    (today : datetime) (keep : list string) :
  Datetime.date_valid (Datetime.year today) (Datetime.month today)
                      (Datetime.day today) ->
  at_midnight today ->
  Forall (fun s : snapshot => Datetime.valid s.1 = true) snaps ->
  0 < keep_one_per_week cfg ->
  1 <= Datetime.toordinal today - (Datetime.weekday today + 1)
       - 7 * keep_one_per_week cfg ->
  Datetime.toordinal today - (Datetime.weekday today + 1) + 8
    <= Datetime._MAXORDINAL ->
  weekly_rule cfg snaps today keep
  = Ok (keep ++ weekly_spec
                  (Datetime.toordinal today - (Datetime.weekday today + 1))
                  (Z.to_nat (keep_one_per_week cfg)) snaps)
  /\ (Datetime.toordinal today - (Datetime.weekday today + 1) + 6) mod 7 = 6
  /\ Datetime.toordinal today - 7
     <= Datetime.toordinal today - (Datetime.weekday today + 1)
     < Datetime.toordinal today
  /\ (keep_one_per_day cfg <= 0 ->
      forall now, midnight now = Ok today ->
                  daily_rule cfg snaps today keep = Ok (today, keep)).
Proof.
  intros Vt Mt Hall Hk Hlo Hhi.
  pose proof (weekday_range today) as Hw.
  split; [| split; [| split]].
  - unfold weekly_rule. destruct (Z.ltb_spec 0 (keep_one_per_week cfg)); [| lia].
    unfold Datetime.minus_days, Datetime.timedelta_days.
    destruct (Z.leb_spec (-999999999) (Datetime.weekday today + 1)); [| lia].
    destruct (Z.leb_spec (Datetime.weekday today + 1) 999999999); [| lia].
    cbn [andb rbind].
    destruct (add_days_Ok today (- (Datetime.weekday today + 1)))
      as (d & -> & Od & Vd & _ & Hh & Hm & Hs & Hu); [lia |].
    cbn [rbind].
    assert (at_midnight d) as Md.
    { unfold at_midnight in *. rewrite Hh, Hm, Hs, Hu. done. }
    rewrite weekly_loop_spec by (try done; lia).
    do 3 f_equal. lia.
  - unfold Datetime.weekday in *.
    Z.div_mod_to_equations. lia.
  - lia.
  - intros Hd now _. by apply daily_rule_off.
Qed.

Lemma weekly_rule_buckets_witness :
  weekly_rule wk_cfg wk_snaps wk_today []
  = Ok ["/b/2024-03-09_03:00:00_GMT"; "/b/2024-02-25_03:00:00_GMT"]%string.
Proof.
  destruct (weekly_rule_buckets wk_cfg wk_snaps wk_today []) as (H & _).
  - unfold Datetime.date_valid. vm_compute. repeat split; discriminate.
  - repeat split; reflexivity.
  - repeat constructor.
  - reflexivity.
  - vm_compute. discriminate.
  - vm_compute. discriminate.
  - rewrite H. vm_compute. reflexivity.
Defined.

(** C7 as the specification words it does not hold. On Sunday 2024-03-10,
    with the daily rule off and two weekly buckets, the code keeps the
    snapshot of Sunday 2024-02-25: its first bucket starts on 2024-03-03, a
    week before today. Buckets whose first start is any of the seven days
    that end with today (the most recent start of a week at or before today,
    whichever weekday begins the week) do not contain that snapshot. *)
Lemma weekly_first_bucket_counterexample :
  midnight wk_now = Ok wk_today
  /\ Datetime.weekday wk_today = 6
  /\ weekly_rule wk_cfg wk_snaps wk_today []
     = Ok ["/b/2024-03-09_03:00:00_GMT"; "/b/2024-02-25_03:00:00_GMT"]%string
  /\ (forall k, 0 <= k <= 6 ->
        weekly_rule wk_cfg wk_snaps wk_today []
        <> Ok (weekly_spec (Datetime.toordinal wk_today - k) 2 wk_snaps))
  /\ deletion_list wk_cfg wk_now wk_snaps = Ok [].
Proof.
  split; [reflexivity |]. split; [reflexivity |].
  split; [vm_compute; reflexivity |]. split; [| vm_compute; reflexivity].
  intros k Hk.
  assert (k = 0 \/ k = 1 \/ k = 2 \/ k = 3 \/ k = 4 \/ k = 5 \/ k = 6)
    as [-> | [-> | [-> | [-> | [-> | [-> | ->]]]]]] by lia;
    vm_compute; discriminate.
Qed.

(** ** C8: the months of the monthly rule *)

Lemma month_index_start i : 0 <= i -> month_index (month_start i) = i.
Proof.
  intros Hi. unfold month_index, month_start. simpl.
  Z.div_mod_to_equations. lia.
Qed.

Lemma month_start_index t :
  1 <= Datetime.month t <= 12 ->
  month_start (month_index t)
  = mk_datetime (Datetime.year t) (Datetime.month t) 1 0 0 0 0.
Proof.
  intros Hm. unfold month_index, month_start. f_equal.
  - Z.div_mod_to_equations. lia.
  - Z.div_mod_to_equations. lia.
Qed.

Lemma new_date_first y m :
  1 <= y <= 9999 -> 1 <= m <= 12 ->
  Datetime.new_date y m 1 = Ok (mk_datetime y m 1 0 0 0 0).
Proof.
  intros Hy Hm. unfold Datetime.new_date, Datetime.new, Datetime.valid_fields.
  assert (1 <= Datetime._days_in_month y m) as Hd.
  { unfold Datetime._days_in_month.
    destruct (_ && _); [lia |]. month_cases m; simpl; lia. }
  unfold Datetime.MINYEAR, Datetime.MAXYEAR.
  repeat match goal with
         | |- context [?a <=? ?b] => destruct (Z.leb_spec a b); [| lia]
         end.
  reflexivity.
Qed.

Lemma new_date_bad_year y m d :
  ~ (1 <= y <= 9999) -> Datetime.new_date y m d = Err ValueError.
Proof.
  intros Hy. unfold Datetime.new_date, Datetime.new, Datetime.valid_fields.
  unfold Datetime.MINYEAR, Datetime.MAXYEAR.
  destruct (Z.leb_spec 1 y), (Z.leb_spec y 9999); try lia; reflexivity.
Qed.

Lemma inc_month_Ok t :
  1 <= Datetime.year t -> 1 <= Datetime.month t <= 12 ->
  month_index t + 1 < MONTHS ->
  inc_month t
  = Ok (mk_datetime
          (if Datetime.month t =? 12 then Datetime.year t + 1 else Datetime.year t)
          (if Datetime.month t =? 12 then 1 else Datetime.month t + 1)
          1 0 0 0 0)
  /\ inc_month t = Ok (month_start (month_index t + 1)).
Proof.
  intros Hy Hm Hi. unfold inc_month, MONTHS, month_index in *.
  assert (month_start (12 * (Datetime.year t - 1) + (Datetime.month t - 1) + 1)
          = mk_datetime
              (if Datetime.month t =? 12 then Datetime.year t + 1 else Datetime.year t)
              (if Datetime.month t =? 12 then 1 else Datetime.month t + 1)
              1 0 0 0 0) as ->.
  { unfold month_start. destruct (Z.eqb_spec (Datetime.month t) 12);
      f_equal; Z.div_mod_to_equations; lia. }
  split; [| ].
  all: destruct (Z.ltb_spec 12 (Datetime.month t + 1));
    destruct (Z.eqb_spec (Datetime.month t) 12); try lia;
    apply new_date_first; lia.
Qed.

Lemma dec_month_Ok t :
  Datetime.year t <= 9999 -> 1 <= Datetime.month t <= 12 ->
  0 < month_index t ->
  dec_month t
  = Ok (mk_datetime
          (if Datetime.month t =? 1 then Datetime.year t - 1 else Datetime.year t)
          (if Datetime.month t =? 1 then 12 else Datetime.month t - 1)
          1 0 0 0 0)
  /\ dec_month t = Ok (month_start (month_index t - 1)).
Proof.
  intros Hy Hm Hi. unfold dec_month, month_index in *.
  assert (month_start (12 * (Datetime.year t - 1) + (Datetime.month t - 1) - 1)
          = mk_datetime
              (if Datetime.month t =? 1 then Datetime.year t - 1 else Datetime.year t)
              (if Datetime.month t =? 1 then 12 else Datetime.month t - 1)
              1 0 0 0 0) as ->.
  { unfold month_start. destruct (Z.eqb_spec (Datetime.month t) 1);
      f_equal; Z.div_mod_to_equations; lia. }
  split.
  all: destruct (Z.ltb_spec (Datetime.month t - 1) 1);
    destruct (Z.eqb_spec (Datetime.month t) 1); try lia;
    apply new_date_first; lia.
Qed.

Lemma dec_month_first_month t :
  Datetime.year t = 1 -> Datetime.month t = 1 -> dec_month t = Err ValueError.
Proof.
  intros Hy Hm. unfold dec_month. rewrite Hy, Hm. reflexivity.
Qed.

Lemma inc_month_last_month t :
  Datetime.year t = 9999 -> Datetime.month t = 12 -> inc_month t = Err ValueError.
Proof.
  intros Hy Hm. unfold inc_month. rewrite Hy, Hm. reflexivity.
Qed.

(** a timestamp is at or after the first instant of month [i] exactly when
    its month is not before [i], and before it exactly when its month is *)
Lemma leb_month_start i t :
  0 <= i -> Datetime.valid t = true ->
  Datetime.leb (month_start i) t = (i <=? month_index t).
Proof.
  intros Hi V.
  pose proof (valid_date_valid t V) as (Hy & Hm & Hd).
  pose proof (valid_time_nonneg t V) as (? & ? & ? & ?).
  unfold Datetime.leb, Datetime.cmp, Datetime.fields, month_start, month_index.
  cbn [Datetime.year Datetime.month Datetime.day Datetime.hour Datetime.minute
       Datetime.second Datetime.microsecond Datetime.cmp_fields].
  destruct (Z.leb_spec i (12 * (Datetime.year t - 1) + (Datetime.month t - 1)));
    destruct (Z.compare_spec (i / 12 + 1) (Datetime.year t));
    try done; try (exfalso; Z.div_mod_to_equations; lia);
    destruct (Z.compare_spec (i mod 12 + 1) (Datetime.month t));
    try done; try (exfalso; Z.div_mod_to_equations; lia).
  destruct (Z.compare_spec 1 (Datetime.day t)); [| done | lia].
  destruct (Z.compare_spec 0 (Datetime.hour t)); [| done | lia].
  destruct (Z.compare_spec 0 (Datetime.minute t)); [| done | lia].
  destruct (Z.compare_spec 0 (Datetime.second t)); [| done | lia].
  destruct (Z.compare_spec 0 (Datetime.microsecond t)); [done | done | lia].
Qed.

Lemma ltb_month_start i t :
  0 <= i -> Datetime.valid t = true ->
  Datetime.ltb t (month_start i) = (month_index t <? i).
Proof.
  intros Hi V.
  pose proof (valid_date_valid t V) as (Hy & Hm & Hd).
  pose proof (valid_time_nonneg t V) as (? & ? & ? & ?).
  unfold Datetime.ltb, Datetime.cmp, Datetime.fields, month_start, month_index.
  cbn [Datetime.year Datetime.month Datetime.day Datetime.hour Datetime.minute
       Datetime.second Datetime.microsecond Datetime.cmp_fields].
  destruct (Z.ltb_spec (12 * (Datetime.year t - 1) + (Datetime.month t - 1)) i);
    destruct (Z.compare_spec (Datetime.year t) (i / 12 + 1));
    try done; try (exfalso; Z.div_mod_to_equations; lia);
    destruct (Z.compare_spec (Datetime.month t) (i mod 12 + 1));
    try done; try (exfalso; Z.div_mod_to_equations; lia).
  destruct (Z.compare_spec (Datetime.day t) 1); [| lia | done].
  destruct (Z.compare_spec (Datetime.hour t) 0); [| lia | done].
  destruct (Z.compare_spec (Datetime.minute t) 0); [| lia | done].
  destruct (Z.compare_spec (Datetime.second t) 0); [| lia | done].
  destruct (Z.compare_spec (Datetime.microsecond t) 0); [done | lia | done].
Qed.

(** between the first instants of two consecutive months [_keep_last] picks
    the latest snapshot of the month *)
Lemma keep_last_month snaps i :
  0 <= i ->
  Forall (fun s : snapshot => Datetime.valid s.1 = true) snaps ->
  _keep_last snaps (month_start i) (month_start (i + 1))
  = latest_of (filter (fun s : snapshot => month_index s.1 = i) snaps).
Proof.
  intros Hi Hall. unfold _keep_last, latest_of.
  match goal with
  | |- context [filter ?P snaps] =>
      match goal with
      | |- _ = match last (sort_snapshots (filter ?Q snaps)) with _ => _ end =>
          assert (filter P snaps = filter Q snaps) as ->; [| done]
      end
  end.
  apply filter_iff_Forall.
  eapply Forall_impl; [exact Hall |]. intros s Vs. simpl in Vs.
  rewrite (leb_month_start i s.1), (ltb_month_start (i + 1) s.1) by (done || lia).
  rewrite andb_true_iff, Z.leb_le, Z.ltb_lt. lia.
Qed.

Lemma monthly_spec_succ c n snaps :
  monthly_spec c (S n) snaps
  = latest_of (filter (fun s : snapshot => month_index s.1 = c) snaps)
    ++ monthly_spec (c - 1) n snaps.
Proof.
  unfold monthly_spec. rewrite <-cons_seq. cbn [flat_map]. f_equal.
  - f_equal. apply list_filter_iff. intros s. lia.
  - rewrite <-seq_shift, flat_map_concat_map, map_map, <-flat_map_concat_map.
    apply flat_map_ext. intros j. f_equal. apply list_filter_iff. intros s. lia.
Qed.

Lemma month_start_fields i :
  0 <= i < MONTHS ->
  1 <= Datetime.year (month_start i) <= 9999
  /\ 1 <= Datetime.month (month_start i) <= 12.
Proof.
  unfold MONTHS, month_start. simpl. intros Hi. Z.div_mod_to_equations. lia.
Qed.

Lemma monthly_loop_spec n snaps i keep :
  Forall (fun s : snapshot => Datetime.valid s.1 = true) snaps ->
  0 <= i - Z.of_nat n -> i < MONTHS ->
  monthly_loop n snaps (month_start i) (month_start (i + 1)) keep
  = Ok (keep ++ monthly_spec i n snaps).
Proof.
  intros Hall. revert i keep. induction n as [|n IH]; intros i keep Hlo Hhi.
  - simpl. unfold monthly_spec. simpl. by rewrite app_nil_r.
  - cbn [monthly_loop].
    destruct (month_start_fields i) as [Hy Hm]; [lia |].
    destruct (dec_month_Ok (month_start i)) as [_ ->];
      [lia | done | rewrite month_index_start; lia |].
    cbn [rbind]. rewrite month_index_start by lia.
    replace (month_start i) with (month_start (i - 1 + 1)) at 1 by (f_equal; lia).
    rewrite IH by lia.
    rewrite keep_last_month by (done || lia).
    rewrite monthly_spec_succ, <-app_assoc. done.
Qed.

(** more months than there are since January of year 1: [dec_month] fails *)
Lemma monthly_loop_Err n snaps i d2 keep :
  0 <= i < Z.of_nat n -> i < MONTHS ->
  monthly_loop n snaps (month_start i) d2 keep = Err ValueError.
Proof.
  revert i d2 keep. induction n as [|n IH]; intros i d2 keep Hi Hhi; [lia |].
  cbn [monthly_loop].
  destruct (decide (i = 0)) as [-> | Hne].
  - reflexivity.
  - destruct (month_start_fields i) as [Hy Hm]; [lia |].
    destruct (dec_month_Ok (month_start i)) as [_ ->];
      [lia | done | rewrite month_index_start; lia |].
    cbn [rbind]. rewrite month_index_start by lia.
    apply IH; lia.
Qed.

(** C8. [inc_month] maps every date except those of December 9999 to the
    first day of the following calendar month, December of year Y going to
    January 1 of year Y+1, and [dec_month] maps every date except those of
    January of year 1 to the first day of the preceding calendar month,
    January of year Y going to December 1 of year Y-1. When keepOneperMonth
    is positive and not more than the number of months from January of year
    1 to the current month, the monthly rule keeps, for each of the last
    keepOneperMonth calendar months ending with the current one, the latest
    snapshot whose timestamp has that year and month. *)
Theorem monthly_rule_calendar (cfg : smart_remove_cfg) (now : datetime)
    (snaps : list snapshot) (keep : list string) :
  Datetime.valid now = true ->
  Forall (fun s : snapshot => Datetime.valid s.1 = true) snaps ->
  0 < keep_one_per_month cfg ->
  keep_one_per_month cfg <= month_index now ->
  month_index now + 1 < MONTHS ->
  monthly_rule cfg now snaps keep
  = Ok (keep ++ monthly_spec (month_index now)
                             (Z.to_nat (keep_one_per_month cfg)) snaps)
  /\ (forall t, Datetime.valid t = true -> month_index t + 1 < MONTHS ->
        inc_month t
        = Ok (mk_datetime
                (if Datetime.month t =? 12 then Datetime.year t + 1
                 else Datetime.year t)
                (if Datetime.month t =? 12 then 1 else Datetime.month t + 1)
                1 0 0 0 0))
  /\ (forall t, Datetime.valid t = true -> 0 < month_index t ->
        dec_month t
        = Ok (mk_datetime
                (if Datetime.month t =? 1 then Datetime.year t - 1
                 else Datetime.year t)
                (if Datetime.month t =? 1 then 12 else Datetime.month t - 1)
                1 0 0 0 0)).
Proof.
  intros V Hall Hk Hlo Hhi. split; [| split].
  - pose proof (valid_date_valid now V) as (Hy & Hm & _).
    assert (Datetime.year now <= 9999) as Hy'.
    { unfold MONTHS, month_index in Hhi. lia. }
    unfold monthly_rule.
    destruct (Z.ltb_spec 0 (keep_one_per_month cfg)); [| lia].
    rewrite new_date_first by lia. cbn [rbind].
    rewrite <-(month_start_index now Hm).
    assert (0 <= month_index now) as Hi by (unfold month_index; lia).
    destruct (month_start_fields (month_index now)) as [Hsy Hsm]; [lia |].
    destruct (inc_month_Ok (month_start (month_index now))) as [_ ->];
      [lia | done | rewrite month_index_start; lia |].
    cbn [rbind]. rewrite month_index_start by done.
    apply monthly_loop_spec; [done | lia | lia].
  - intros t Vt Ht. pose proof (valid_date_valid t Vt) as (Hy & Hm & _).
    by apply inc_month_Ok.
  - intros t Vt Ht. pose proof (valid_date_valid t Vt) as (Hy & Hm & _).
    apply dec_month_Ok; [| done | done].
    unfold Datetime.valid, Datetime.valid_fields in Vt.
    rewrite !andb_true_iff, !Z.leb_le in Vt. unfold Datetime.MAXYEAR in Vt. lia.
Qed.

Lemma monthly_rule_calendar_witness :
  monthly_rule default_smart_remove (mk_datetime 2024 1 7 12 31 0 17)
               sample_snapshots []
  = Ok ["/b/2024-01-06_03:00:00_GMT"; "/b/2023-11-05_03:00:00_GMT"]%string.
Proof.
  destruct (monthly_rule_calendar default_smart_remove
              (mk_datetime 2024 1 7 12 31 0 17) sample_snapshots [])
    as (H & _).
  - reflexivity.
  - repeat constructor.
  - reflexivity.
  - vm_compute. discriminate.
  - reflexivity.
  - rewrite H. vm_compute. reflexivity.
Defined.

(** C8 as the specification words it does not hold for every date and every
    positive keepOneperMonth: the dates of December 9999 and of January of
    year 1 have no following, respectively preceding, month among the dates
    that exist, and a keepOneperMonth beyond the months since January of
    year 1 makes the monthly rule, and with it the retention step, end with
    [ValueError]. *)
Lemma monthly_rule_counterexample :
  Datetime.valid (dt 9999 12 25 0 0 0) = true
  /\ inc_month (dt 9999 12 25 0 0 0) = Err ValueError
  /\ Datetime.valid (dt 1 1 15 0 0 0) = true
  /\ dec_month (dt 1 1 15 0 0 0) = Err ValueError
  /\ monthly_rule (mk_smart_remove 1 7 4 30000)
                  (mk_datetime 2024 1 7 12 31 0 17) sample_snapshots []
     = Err ValueError
  /\ deletion_list (mk_smart_remove 1 7 4 30000)
                   (mk_datetime 2024 1 7 12 31 0 17) sample_snapshots
     = Err ValueError.
Proof.
  assert (forall keep,
             monthly_rule (mk_smart_remove 1 7 4 30000)
                          (mk_datetime 2024 1 7 12 31 0 17) sample_snapshots keep
             = Err ValueError) as Hm.
  { intros keep. unfold monthly_rule.
    change (0 <? keep_one_per_month (mk_smart_remove 1 7 4 30000)) with true.
    change (Datetime.new_date _ _ 1) with (Ok (month_start 24276)).
    cbn [rbind].
    change (inc_month (month_start 24276)) with (Ok (month_start 24277)).
    cbn [rbind]. apply monthly_loop_Err; [| reflexivity].
    change (keep_one_per_month (mk_smart_remove 1 7 4 30000)) with 30000. lia. }
  split; [reflexivity |]. split; [reflexivity |].
  split; [reflexivity |]. split; [reflexivity |].
  split; [apply Hm |].
  unfold deletion_list. change (length sample_snapshots <=? 1)%nat with false.
  unfold del_snapshots, keep_snapshots.
  change (midnight _) with (Ok (dt 2024 1 7 0 0 0)). cbn [rbind].
  set (sorted := sort_snapshots sample_snapshots).
  destruct (last sorted) as [newest |] eqn:Hl; [| by vm_compute in Hl].
  cbn [rbind].
  destruct (keep_all_rule _ _ sorted _) as [k1 |] eqn:H1; [| by vm_compute in H1].
  cbn [rbind].
  destruct (daily_rule _ sorted _ k1) as [daily |] eqn:H2.
  2: { vm_compute in H1. injection H1 as <-. by vm_compute in H2. }
  cbn [rbind].
  destruct (weekly_rule _ sorted _ _) as [k3 |] eqn:H3.
  2: { vm_compute in H1. injection H1 as <-. vm_compute in H2.
       injection H2 as <-. by vm_compute in H3. }
  cbn [rbind]. 
  subst sorted.
  unfold monthly_rule.
  change (0 <? keep_one_per_month (mk_smart_remove 1 7 4 30000)) with true.
  change (Datetime.new_date _ _ 1) with (Ok (month_start 24276)).
  cbn [rbind].
  change (inc_month (month_start 24276)) with (Ok (month_start 24277)).
  cbn [rbind]. rewrite monthly_loop_Err; [done | | reflexivity].
  change (keep_one_per_month (mk_smart_remove 1 7 4 30000)) with 30000. lia.
Qed.

(** ** C6: when the capacity check aborts *)

Lemma Qltb_lt (a b : Q) : Qltb a b = true <-> (a < b)%Q.
Proof.
  unfold Qltb. rewrite negb_true_iff.
  destruct (Qle_bool b a) eqn:E.
  - apply Qle_bool_iff in E. split; [done |]. intros H.
    exfalso. by apply (Qlt_not_le a b).
  - split; [| done]. intros _. apply Qnot_le_lt. intros H.
    apply Qle_bool_iff in H. congruence.
Qed.

(** an integer of at most 53 bits is its own double *)
Lemma float_of_int_exact n : Z.abs n < 2 ^ 53 -> float_of_int n = n.
Proof.
  intros Hn. unfold float_of_int.
  destruct (Z.leb_spec (Z.log2 (Z.abs n) + 1) 53) as [| Hb]; [done |].
  exfalso. destruct (decide (Z.abs n = 0)) as [E | E].
  - rewrite E in Hb. simpl in Hb. lia.
  - assert (Z.log2 (Z.abs n) < 53); [| lia].
    apply Z.log2_lt_pow2; lia.
Qed.

(** the free space in megabytes is the byte count over 2^20 when the byte
    count has at most 53 bits, which is up to 8 PiB *)
Lemma space_free_exact stat :
  Z.abs (bavail stat * bsize stat) < 2 ^ 53 ->
  space_free stat = (bavail stat * bsize stat # 1048576).
Proof.
  intros H. unfold space_free. rewrite float_of_int_exact by done.
  unfold ONEM, Qdiv, Qmult, Qinv, inject_Z. simpl. f_equal. lia.
Qed.

(** the comparison of [_check_freespace] on the free space, with the
    division written out *)
Lemma space_free_lt stat (min_space : Z) :
  (space_free stat < inject_Z min_space)%Q
  <-> (inject_Z (float_of_int (bavail stat * bsize stat)) / (1048576 # 1)
       < inject_Z min_space)%Q.
Proof. reflexivity. Qed.

(** C6. When the statistics are there, [_check_freespace] ends with
    [SystemExit(2)] exactly when the file system reports a nonzero total of
    inodes and fewer free inodes than [min_inodes], or the free space in
    megabytes is below [min_space]; otherwise it returns the statistics. With
    a total of zero inodes only the free space decides. The free space in
    megabytes is the double nearest to the product of the free blocks and
    the block size, over 2^20; for a product below 2^53 it is the exact
    quotient. *)
Theorem check_freespace_aborts_iff (self : config) (E : env) (w : world)
    (stat : fs_stat) :
  env_stat_before E = Some stat ->
  (outcome_of (_check_freespace self E w) = Exited 2
   <-> (files stat <> 0 /\ ffree stat < min_inodes self)
       \/ (inject_Z (float_of_int (bavail stat * bsize stat)) / (1048576 # 1)
           < inject_Z (min_space self))%Q)
  /\ (outcome_of (_check_freespace self E w) = Exited 2
      \/ outcome_of (_check_freespace self E w) = Ret stat)
  /\ (files stat = 0 ->
      (outcome_of (_check_freespace self E w) = Exited 2
       <-> (inject_Z (float_of_int (bavail stat * bsize stat)) / (1048576 # 1)
            < inject_Z (min_space self))%Q))
  /\ (Z.abs (bavail stat * bsize stat) < 2 ^ 53 ->
      (outcome_of (_check_freespace self E w) = Exited 2
       <-> (files stat <> 0 /\ ffree stat < min_inodes self)
           \/ (bavail stat * bsize stat # 1048576
               < inject_Z (min_space self))%Q)).
Proof.
  intros Hstat.
  assert (outcome_of (_check_freespace self E w)
          = if negb (files stat =? 0) && (ffree stat <? min_inodes self)
               || Qltb (space_free stat) (inject_Z (min_space self))
            then Exited 2 else Ret stat) as Hout.
  { unfold _check_freespace, _get_stat. rewrite Hstat.
    unfold mbind, M_bind, mret, M_ret.
    destruct (is_dst_remote self); cbn -[space_free Qltb Z.eqb Z.ltb];
      destruct (files stat =? 0); cbn -[space_free Qltb Z.eqb Z.ltb];
      destruct (ffree stat <? min_inodes self);
      cbn -[space_free Qltb Z.eqb Z.ltb];
      destruct (Qltb (space_free stat) (inject_Z (min_space self)));
      reflexivity. }
  assert (forall P : Prop,
             (P <-> Qltb (space_free stat) (inject_Z (min_space self)) = true) ->
             Z.abs (bavail stat * bsize stat) < 2 ^ 53 ->
             (P <-> (bavail stat * bsize stat # 1048576
                     < inject_Z (min_space self))%Q)) as Hexact.
  { intros P HP Hsmall. rewrite HP, Qltb_lt.
    by rewrite (space_free_exact stat Hsmall). }
  rewrite Hout. rewrite <-!space_free_lt, <-Qltb_lt.
  split; [| split; [| split]].
  - destruct (Z.eqb_spec (files stat) 0) as [Hf | Hf];
      destruct (Z.ltb_spec (ffree stat) (min_inodes self));
      destruct (Qltb (space_free stat) (inject_Z (min_space self)));
      simpl; intuition (congruence || lia).
  - destruct (_ || _); auto.
  - intros Hf. rewrite Hf. simpl.
    destruct (Qltb (space_free stat) (inject_Z (min_space self)));
      simpl; intuition congruence.
  - intros Hsmall.
    rewrite <-(Hexact (Qltb (space_free stat) (inject_Z (min_space self)) = true))
      by done.
    destruct (Z.eqb_spec (files stat) 0) as [Hf | Hf];
      destruct (Z.ltb_spec (ffree stat) (min_inodes self));
      destruct (Qltb (space_free stat) (inject_Z (min_space self)));
      simpl; intuition (congruence || lia).
Qed.

Lemma check_freespace_aborts_iff_witness :
  outcome_of (_check_freespace sample_config sample_env (initial_world ∅))
  = Exited 2
  <-> (files sample_stat <> 0 /\ ffree sample_stat < min_inodes sample_config)
      \/ (bavail sample_stat * bsize sample_stat # 1048576
          < inject_Z (min_space sample_config))%Q.
Proof.
  destruct (check_freespace_aborts_iff sample_config sample_env
              (initial_world ∅) sample_stat) as (_ & _ & _ & H).
  - reflexivity.
  - apply H. vm_compute. reflexivity.
Defined.

(** C6 as the specification words it does not hold from 2^53 bytes on: with
    2^53 + 255 free blocks of 4096 bytes the free space is 1/256 MB short of
    2^45 + 1 MB, the minimum asked for, but the byte count has no double of
    its own and the nearest one is 2^45 + 1 MB exactly, so the check
    passes. *)
Lemma capacity_rounding_counterexample :
  let stat := mk_fs_stat 500000 1000000 9007199254741247 4096
                         9007199254741248 in
  let self := mk_config ["/home"] "/b" [] 35184372088833 100000
                        default_smart_remove None None "/b" in
  let E := mk_env true (Some stat) (Some stat)
                  (env_now_snapshot sample_env) (env_now_retention sample_env)
                  0 (RsyncStatus 0) (fun _ => 0) in
  (bavail stat * bsize stat # 1048576 < inject_Z (min_space self))%Q
  /\ float_of_int (bavail stat * bsize stat)
     = bavail stat * bsize stat + 4096
  /\ outcome_of (_check_freespace self E (initial_world ∅)) = Ret stat.
Proof. vm_compute. repeat split; reflexivity. Qed.

(** a file system that reports no inode totals: 100000 free blocks of 4096
    bytes are 390 MB, below the 1024 MB asked for; with 10485760 free blocks
    the check passes although no inode is reported free *)
Example check_freespace_no_inode_totals :
  let low := mk_fs_stat 0 0 100000 4096 20971520 in
  let high := mk_fs_stat 0 0 10485760 4096 20971520 in
  let env_of st :=
    mk_env true (Some st) (Some st) (env_now_snapshot sample_env)
           (env_now_retention sample_env) 0 (RsyncStatus 0) (fun _ => 0) in
  outcome_of (_check_freespace sample_config (env_of low) (initial_world ∅))
  = Exited 2
  /\ outcome_of (_check_freespace sample_config (env_of high) (initial_world ∅))
     = Ret high
  /\ w_check_inodes
       (world_of (_check_freespace sample_config (env_of high) (initial_world ∅)))
     = false.
Proof. vm_compute. repeat split; reflexivity. Qed.

(** ** C10: what the local pointer resolver tells apart *)

Lemma get_file_stat_local self latest w :
  is_dst_remote self = false ->
  _get_file_stat self latest w
  = match w_fs w !! latest with
    | Some (Symlink t) =>
        mk_reply (Ret (mk_file_stat true (negb (exists_ (w_fs w) latest)) true
                                    (Some (path_join (_dst_path self) t))))
                 w []
    | _ => mk_reply (Ret (mk_file_stat false false false None)) w []
    end.
Proof.
  intros Hl. unfold _get_file_stat. rewrite Hl.
  rewrite bind_reply. cbn [get_fs outcome_of world_of events_of].
  unfold islink.
  destruct (w_fs w !! latest) as [[| | t] |] eqn:E; try reflexivity.
  rewrite bind_reply. unfold os_readlink. rewrite bind_reply.
  cbn [get_fs outcome_of world_of events_of]. rewrite E. reflexivity.
Qed.

(** C10. For a local destination [_get_file_stat] answers an entry at the
    pointer path that is not a symbolic link with exists = False,
    broken = False, islink = False and target = None, which is its answer
    when there is no entry; the branch of [_take_snapshot] chosen from that
    answer is the one of a missing pointer; and only for a symbolic link is
    any of exists, broken, islink true. *)
Theorem local_resolver_sees_only_symlinks (self : config) (latest : string)
    (w : world) (n : node) :
  is_dst_remote self = false ->
  w_fs w !! latest = Some n ->
  (forall t, n <> Symlink t) ->
  outcome_of (_get_file_stat self latest w)
  = Ret (mk_file_stat false false false None)
  /\ (forall w0, w_fs w0 !! latest = None ->
        outcome_of (_get_file_stat self latest w0)
        = outcome_of (_get_file_stat self latest w))
  /\ (forall snaps st,
        outcome_of (_get_file_stat self latest w) = Ret st ->
        pointer_branch snaps st
        = if 0 <? Z.of_nat (length snaps) then PointerAnomaly else NoSnapshots)
  /\ (forall w1 st,
        outcome_of (_get_file_stat self latest w1) = Ret st ->
        fstat_exists st = true \/ fstat_broken st = true
        \/ fstat_islink st = true \/ is_Some (fstat_target st) ->
        exists t, w_fs w1 !! latest = Some (Symlink t)).
Proof.
  intros Hl Hn Hnl.
  assert (outcome_of (_get_file_stat self latest w)
          = Ret (mk_file_stat false false false None)) as Hout.
  { rewrite get_file_stat_local, Hn by done.
    destruct n as [| | t]; [done | done |]. by destruct (Hnl t). }
  split; [done |]. split; [| split].
  - intros w0 H0. by rewrite Hout, get_file_stat_local, H0.
  - intros snaps st. rewrite Hout. intros [= <-].
    unfold pointer_branch. simpl.
    by destruct (0 <? Z.of_nat (length snaps)).
  - intros w1 st. rewrite get_file_stat_local by done.
    destruct (w_fs w1 !! latest) as [[| | t] |]; simpl; intros [= <-]; simpl;
      try (by eexists);
      intros [? | [? | [? | [? ?]]]]; done.
Qed.

Lemma local_resolver_sees_only_symlinks_witness :
  outcome_of (_get_file_stat sample_config "/b/latest" (initial_world c10_fs))
  = Ret (mk_file_stat false false false None).
Proof.
  destruct (local_resolver_sees_only_symlinks sample_config "/b/latest"
              (initial_world c10_fs) Dir) as [H _].
  - reflexivity.
  - vm_compute. reflexivity.
  - intros t. discriminate.
  - exact H.
Defined.

(** ** C5: a failed synchronization does not end the run *)

Lemma view_bind {A B} (m1 m2 : M A) (k1 k2 : A -> M B) w :
  view (m1 w) = view (m2 w) ->
  (forall a w', view (k1 a w') = view (k2 a w')) ->
  view ((m1 ≫= k1) w) = view ((m2 ≫= k2) w).
Proof.
  unfold view. intros [= Ho Hw He] Hk. rewrite !bind_reply, Ho, Hw.
  destruct (outcome_of (m2 w)) as [a | e | c]; cbn [outcome_of world_of events_of].
  - specialize (Hk a (world_of (m2 w))). injection Hk as Ho' Hw' He'.
    unfold without_rsync_report in *.
    rewrite !filter_app, He, He', Ho', Hw'. done.
  - by rewrite He.
  - by rewrite He.
Qed.

Lemma view_try_finally {A} (m1 m2 : M A) (c : M unit) w :
  view (m1 w) = view (m2 w) ->
  view (try_finally m1 c w) = view (try_finally m2 c w).
Proof.
  unfold view, try_finally. intros [= Ho Hw He].
  cbn [outcome_of world_of events_of]. rewrite Ho, Hw.
  unfold without_rsync_report in *. by rewrite !filter_app, He.
Qed.

(** [_run_rsync] returns whatever the process does *)
Lemma run_rsync_reply E args w :
  _run_rsync E args w
  = mk_reply (Ret tt) w
      [ELog INFO (MsgRunningCmd ("rsync" :: args)); ECmd ("rsync" :: args);
       match env_rsync E with
       | RsyncStatus status => rsync_report status
       | RsyncRaises _ => ELog ERROR MsgRsyncException
       end].
Proof.
  unfold _run_rsync, rsync_report.
  destruct (env_rsync E) as [status | e]; [| reflexivity].
  unfold try_except, mbind, M_bind, logging, record_cmd, raise.
  cbn [outcome_of world_of events_of].
  destruct (status =? 0); [reflexivity |].
  destruct (RSYNC_EXIT_CODE status); reflexivity.
Qed.

Lemma run_rsync_view E r1 r2 args w :
  view (_run_rsync (with_rsync E r1) args w)
  = view (_run_rsync (with_rsync E r2) args w).
Proof.
  rewrite !run_rsync_reply. unfold view, without_rsync_report.
  cbn [outcome_of world_of events_of with_rsync env_rsync].
  rewrite !filter_cons. cbn [is_rsync_report].
  f_equal. 
  assert (forall r, is_rsync_report
            match r with
            | RsyncStatus status => rsync_report status
            | RsyncRaises _ => ELog ERROR MsgRsyncException
            end = true) as H.
  { intros [status | e]; [| done]. unfold rsync_report.
    destruct (status =? 0); [done |]. by destruct (RSYNC_EXIT_CODE status). }
  repeat case_decide; try done; by rewrite H in *.
Qed.

Ltac view_step :=
  lazymatch goal with
  | |- view (_run_rsync _ _ _) = view (_run_rsync _ _ _) => apply run_rsync_view
  | |- view ((_ ≫= _) _) = view ((_ ≫= _) _) =>
      apply view_bind; [| intros ? ?]
  | |- view (try_finally _ _ _) = view (try_finally _ _ _) =>
      apply view_try_finally
  | |- view (match ?x with _ => _ end _) = _ => destruct x
  | _ => reflexivity
  end.

Lemma smart_remove_view self E r1 r2 snaps w :
  view (_smart_remove self (with_rsync E r1) snaps w)
  = view (_smart_remove self (with_rsync E r2) snaps w).
Proof. reflexivity. Qed.

Lemma take_snapshot_view strptime self E r1 r2 w :
  view (_take_snapshot strptime self (with_rsync E r1) w)
  = view (_take_snapshot strptime self (with_rsync E r2) w).
Proof.
  unfold _take_snapshot.
  cbn [with_rsync env_now_snapshot env_cp_status].
  repeat view_step.
Qed.

Lemma run_view strptime self E r1 r2 w :
  view (run strptime self (with_rsync E r1) w)
  = view (run strptime self (with_rsync E r2) w).
Proof.
  unfold run.
  apply view_bind; [reflexivity |]. intros _ w1.
  apply view_try_finally.
  apply view_bind; [reflexivity |]. intros _ w2.
  apply view_bind; [reflexivity |]. intros _ w3.
  apply view_bind; [reflexivity |]. intros stat w4.
  apply view_bind; [apply take_snapshot_view |]. intros _ w5.
  reflexivity.
Qed.

(** ** The run around the call of rsync *)

Lemma bind_assoc_at {A B C} (m : M A) (f : A -> M B) (g : B -> M C) w :
  ((m ≫= f) ≫= g) w = (m ≫= (fun a => f a ≫= g)) w.
Proof.
  rewrite !bind_reply.
  destruct (outcome_of (m w)) as [a | e | c];
    cbn [outcome_of world_of events_of]; [| done..].
  rewrite bind_reply.
  destruct (outcome_of (f a (world_of (m w)))) as [b | e | c];
    cbn [outcome_of world_of events_of]; [| done..].
  by rewrite app_assoc.
Qed.

Lemma bind_cong_at {A B} (m : M A) (k k' : A -> M B) w :
  (forall a w', k a w' = k' a w') -> (m ≫= k) w = (m ≫= k') w.
Proof.
  intros H. rewrite !bind_reply.
  destruct (outcome_of (m w)); [| done..]. by rewrite H.
Qed.

Lemma bind_ret_at {A B} (a : A) (k : A -> M B) w : (mret a ≫= k) w = k a w.
Proof.
  rewrite bind_reply. cbn [mret M_ret outcome_of world_of events_of].
  by destruct (k a w).
Qed.

(** [_take_snapshot] is its three parts in a row: what comes before the
    call of [_run_rsync], the call, and the pointer update followed by
    retention *)
Lemma take_snapshot_parts strptime self E w :
  _take_snapshot strptime self E w
  = (snapshots ← before_rsync strptime self E;
     _run_rsync E (tail (rsync_command self E));;
     update_pointer self E;;
     _smart_remove self E snapshots) w.
Proof.
  unfold _take_snapshot, before_rsync, update_pointer, rsync_command.
  cbn [tail].
  rewrite bind_assoc_at. apply bind_cong_at. intros snaps w1.
  rewrite bind_assoc_at. apply bind_cong_at. intros st w2.
  rewrite bind_assoc_at. apply bind_cong_at. intros u3 w3.
  rewrite bind_assoc_at. apply bind_cong_at. intros u4 w4.
  rewrite bind_ret_at.
  apply bind_cong_at. intros u5 w5.
  destruct (is_dst_remote self); [| reflexivity].
  rewrite !bind_assoc_at. apply bind_cong_at. intros r6 w6.
  rewrite !bind_assoc_at. apply bind_cong_at. intros r7 w7.
  by rewrite bind_ret_at.
Qed.

(** once what comes before the call of [_run_rsync] has returned,
    [_take_snapshot] ends as the pointer update and retention end from the
    world it left, however the rsync process ends; in between lie the three
    records of [_run_rsync] *)
Lemma take_snapshot_after_rsync strptime self E w snaps w1 t1 :
  before_rsync strptime self E w = mk_reply (Ret snaps) w1 t1 ->
  _take_snapshot strptime self E w
  = mk_reply
      (outcome_of ((update_pointer self E;; _smart_remove self E snaps) w1))
      (world_of ((update_pointer self E;; _smart_remove self E snaps) w1))
      (t1
       ++ [ELog INFO (MsgRunningCmd (rsync_command self E));
           ECmd (rsync_command self E);
           match env_rsync E with
           | RsyncStatus status => rsync_report status
           | RsyncRaises _ => ELog ERROR MsgRsyncException
           end]
       ++ events_of ((update_pointer self E;; _smart_remove self E snaps) w1)).
Proof.
  intros Hb. rewrite take_snapshot_parts, bind_reply, Hb.
  cbn [outcome_of world_of events_of].
  rewrite bind_reply, run_rsync_reply.
  cbn [outcome_of world_of events_of].
  reflexivity.
Qed.

(** C5. For every nonzero status of the synchronization process
    [_run_rsync] returns normally and changes nothing but the log, where it
    writes one error record: the status with its meaning when the table
    [RSYNC_EXIT_CODE] has the status, and [Rsync Exception] without the status
    when it has not, the lookup having raised [KeyError]. Once the steps
    before the call have returned, [_take_snapshot] ends as the pointer
    update followed by retention ends from the world those steps left, with
    the three records of [_run_rsync] in between. The whole of
    [_take_snapshot], and of [run], ends the same way, leaves the same
    destination and produces the same commands and log records as after
    status 0, the record of how rsync ended apart. *)
Theorem nonzero_sync_status_not_fatal (strptime : string -> option datetime)
    (self : config) (E : env) (status : Z) (w : world) :
  status <> 0 ->
  let record :=
    match RSYNC_EXIT_CODE status with
    | Some reason => ELog ERROR (MsgRsyncError status reason)
    | None => ELog ERROR MsgRsyncException
    end in
  (forall args w',
      _run_rsync (with_rsync E (RsyncStatus status)) args w'
      = mk_reply (Ret tt) w'
          [ELog INFO (MsgRunningCmd ("rsync" :: args)); ECmd ("rsync" :: args);
           record])
  /\ (forall snaps w1 t1,
        before_rsync strptime self E w = mk_reply (Ret snaps) w1 t1 ->
        _take_snapshot strptime self (with_rsync E (RsyncStatus status)) w
        = mk_reply
            (outcome_of ((update_pointer self E;;
                          _smart_remove self E snaps) w1))
            (world_of ((update_pointer self E;;
                        _smart_remove self E snaps) w1))
            (t1
             ++ [ELog INFO (MsgRunningCmd (rsync_command self E));
                 ECmd (rsync_command self E); record]
             ++ events_of ((update_pointer self E;;
                            _smart_remove self E snaps) w1)))
  /\ view (_take_snapshot strptime self (with_rsync E (RsyncStatus status)) w)
     = view (_take_snapshot strptime self (with_rsync E (RsyncStatus 0)) w)
  /\ view (run strptime self (with_rsync E (RsyncStatus status)) w)
     = view (run strptime self (with_rsync E (RsyncStatus 0)) w).
Proof.
  intros Hs record.
  assert (rsync_report status = record) as Hrec.
  { unfold rsync_report. by destruct (Z.eqb_spec status 0). }
  split; [| split; [| split]].
  - intros args w'. by rewrite run_rsync_reply, <-Hrec.
  - intros snaps w1 t1 Hb. rewrite <-Hrec.
    exact (take_snapshot_after_rsync strptime self
             (with_rsync E (RsyncStatus status)) w snaps w1 t1 Hb).
  - apply take_snapshot_view.
  - apply run_view.
Qed.

Lemma nonzero_sync_status_not_fatal_witness :
  view (run strptime_canonical sample_config
            (with_rsync sample_env (RsyncStatus 23)) (initial_world sample_fs))
  = view (run strptime_canonical sample_config
              (with_rsync sample_env (RsyncStatus 0)) (initial_world sample_fs)).
Proof.
  destruct (nonzero_sync_status_not_fatal strptime_canonical sample_config
              sample_env 23 (initial_world sample_fs)) as (_ & _ & _ & H).
  - discriminate.
  - exact H.
Defined.

(** C5 as the specification words it does not hold for a status that is not
    in the table: with status 255, which rsync passes on when the remote
    shell fails, the run goes on and returns, and its log has the record
    [Rsync Exception] and no record with the status. *)
Lemma unknown_sync_status_counterexample :
  let r := run strptime_canonical sample_config
               (with_rsync sample_env (RsyncStatus 255))
               (initial_world sample_fs) in
  RSYNC_EXIT_CODE 255 = None
  /\ outcome_of r = Ret tt
  /\ (ERROR, MsgRsyncException) ∈ log_of (events_of r)
  /\ (forall l status reason,
        (l, MsgRsyncError status reason) ∉ log_of (events_of r)).
Proof.
  cbv zeta.
  set (l := log_of (events_of _)). vm_compute in l. subst l.
  split; [reflexivity |]. split; [vm_compute; reflexivity |]. split.
  - do 3 right. left.
  - intros l status reason Hin.
    repeat (apply elem_of_cons in Hin as [Hin | Hin]; [discriminate |]).
    by apply elem_of_nil in Hin.
Qed.

(** the run of the witness: rsync ends with status 23, the pointer moves to
    the new snapshot and retention runs *)
Example run_with_partial_transfer :
  let r := run strptime_canonical sample_config
               (with_rsync sample_env (RsyncStatus 23))
               (initial_world sample_fs) in
  outcome_of r = Ret tt
  /\ w_fs (world_of r) !! "/b/latest"
     = Some (Symlink "/b/2024-01-07_12:30:05_GMT")
  /\ w_fs (world_of r) !! "/b/2024-01-07_12:30:05_GMT" = Some Dir
  /\ (ERROR, MsgRsyncError 23 "Partial transfer due to error")
       ∈ log_of (events_of r)
  /\ (INFO, MsgOnlyOneSnapshot) ∈ log_of (events_of r).
Proof.
  vm_compute. repeat split; try reflexivity.
  - do 3 right. left.
  - do 4 right. left.
Qed.

(** ** C9: retention works on the snapshots found before the new one *)

Lemma quiet_bind {A B} (m : M A) (k : A -> M B) :
  quiet m -> (forall a, quiet (k a)) -> quiet (m ≫= k).
Proof.
  intros Hm Hk w. rewrite bind_reply.
  destruct (outcome_of (m w)); cbn [events_of];
    rewrite ?deleted_paths_app, ?Hm, ?Hk; done.
Qed.

Lemma quiet_try_except {A} (m h : M A) :
  quiet m -> quiet h -> quiet (try_except m h).
Proof.
  intros Hm Hh w. unfold try_except.
  destruct (outcome_of (m w)); cbn [events_of];
    rewrite ?deleted_paths_app, ?Hm, ?Hh; done.
Qed.

Ltac quiet_step :=
  lazymatch goal with
  | |- quiet (_ ≫= _) => apply quiet_bind; [| intros ?]
  | |- quiet (try_except _ _) => apply quiet_try_except
  | |- quiet (match ?x with _ => _ end) => destruct x
  | |- quiet _ => intros ?; reflexivity
  end.

Ltac quiet_solve := repeat quiet_step.

Lemma quiet_run cmd eff : quiet (_run cmd eff).
Proof. unfold _run. quiet_solve. Qed.

Lemma quiet_os_mkdir p : quiet (os_mkdir p).
Proof. unfold os_mkdir. quiet_solve. Qed.

Lemma quiet_os_symlink t p : quiet (os_symlink t p).
Proof. unfold os_symlink. quiet_solve. Qed.

Lemma quiet_os_remove p : quiet (os_remove p).
Proof. unfold os_remove. quiet_solve. Qed.

Lemma quiet_os_readlink p : quiet (os_readlink p).
Proof. unfold os_readlink. quiet_solve. Qed.

Lemma quiet_os_listdir d : quiet (os_listdir d).
Proof. unfold os_listdir. quiet_solve. Qed.

Lemma quiet_find_snapshots strptime self : quiet (_find_snapshots strptime self).
Proof. unfold _find_snapshots, os_listdir. quiet_solve. Qed.

Lemma quiet_get_file_stat self latest : quiet (_get_file_stat self latest).
Proof. unfold _get_file_stat, _run, os_readlink. quiet_solve. Qed.

Lemma quiet_run_rsync E args : quiet (_run_rsync E args).
Proof. intros w. by rewrite run_rsync_reply; destruct (env_rsync E) as [s|]; 
  [unfold rsync_report; destruct (s =? 0); [| destruct (RSYNC_EXIT_CODE s)] |]. Qed.

Create HintDb quiet.
#[local] Hint Resolve quiet_run quiet_os_mkdir quiet_os_symlink quiet_os_remove
  quiet_os_readlink quiet_os_listdir quiet_find_snapshots quiet_get_file_stat
  quiet_run_rsync : quiet.

Ltac quiet_prog :=
  repeat lazymatch goal with
    | |- quiet (_ ≫= _) => apply quiet_bind; [| intros ?]
    | |- quiet (try_except _ _) => apply quiet_try_except
    | |- quiet (match ?x with _ => _ end) => destruct x
    | |- quiet _ => first [solve [auto with quiet] | intros ?; reflexivity]
    end.

Lemma within_bind {A B} (L : list string) (m : M A) (k : A -> M B) w :
  quiet m ->
  (forall a w', deleted_paths (events_of (k a w')) `prefix_of` L) ->
  deleted_paths (events_of ((m ≫= k) w)) `prefix_of` L.
Proof.
  intros Hm Hk. rewrite bind_reply.
  destruct (outcome_of (m w)); cbn [events_of];
    rewrite ?deleted_paths_app, Hm; [apply Hk | apply prefix_nil..].
Qed.

(** what [_take_snapshot] deletes is the beginning of the deletion list of
    the snapshots that [_find_snapshots] returned at its start *)
Lemma take_snapshot_deleted strptime self E w :
  deleted_paths (events_of (_take_snapshot strptime self E w))
    `prefix_of`
  match outcome_of (_find_snapshots strptime self w) with
  | Ret snaps =>
      match deletion_list (smart_remove self) (env_now_retention E) snaps with
      | Ok dels => dels
      | Err _ => []
      end
  | _ => []
  end.
Proof.
  unfold _take_snapshot. rewrite bind_reply.
  pose proof (quiet_find_snapshots strptime self w) as Hq.
  destruct (outcome_of (_find_snapshots strptime self w)) as [snaps | e | c];
    cbn [events_of]; rewrite ?deleted_paths_app, Hq; [| apply prefix_nil..].
  cbn [app].
  apply within_bind; [quiet_prog |]. intros latest_stat w1.
  apply within_bind; [quiet_prog |]. intros _ w2.
  apply within_bind; [quiet_prog |]. intros _ w3.
  apply within_bind; [quiet_prog |]. intros _ w4.
  apply within_bind; [quiet_prog |]. intros _ w5.
  apply smart_remove_deleted.
Qed.

Lemma strip_prefix_Some p s r : strip_prefix p s = Some r -> s = (p ++ r)%string.
Proof.
  revert s. induction p as [|a p IH]; intros s; simpl.
  - by intros [= ->].
  - destruct s as [|b s]; [done |].
    destruct (Ascii.eqb_spec a b) as [-> |]; [| done].
    intros H. by rewrite (IH s H).
Qed.

Lemma string_app_assoc (a b c : string) :
  ((a ++ b) ++ c = a ++ b ++ c)%string.
Proof.
  induction a as [|x a IH]; [done |].
  change (String x ((a ++ b) ++ c) = String x (a ++ b ++ c))%string.
  by f_equal.
Qed.

Lemma no_slash_not_absolute name :
  has_slash name = false -> starts_with_slash name = false.
Proof.
  destruct name as [|c name]; [done |]. simpl.
  destruct (Ascii.eqb_spec c "/") as [-> |]; [done |]. intros _.
  destruct c as [[] [] [] [] [] [] [] []]; try done.
Qed.

(** the path of an entry is the join of the directory and its name *)
Lemma entry_of_join d p name : entry_of d p = Some name -> path_join d name = p.
Proof.
  unfold entry_of.
  destruct (strip_prefix (dir_prefix d) p) as [r |] eqn:E; [| done].
  destruct (String.eqb r "" || has_slash r) eqn:Hr; [done |].
  intros [= <-]. apply orb_false_elim in Hr as [_ Hs].
  apply strip_prefix_Some in E. subst p.
  unfold path_join, dir_prefix. rewrite (no_slash_not_absolute r Hs).
  destruct (String.eqb d "" || ends_with_slash d); [done |].
  symmetry. apply string_app_assoc.
Qed.

Lemma elem_of_entries fs d name :
  name ∈ entries fs d -> is_Some (fs !! path_join d name).
Proof.
  unfold entries. intros ([p n] & Hp & He)%list_elem_of_omap.
  apply elem_of_map_to_list in Hp. simpl in He.
  rewrite (entry_of_join d p name He). by eexists.
Qed.

(** for a local destination every snapshot found is an entry of the store *)
Lemma find_snapshots_local strptime self w snaps :
  is_dst_remote self = false ->
  _dst_path self = destination self ->
  outcome_of (_find_snapshots strptime self w) = Ret snaps ->
  forall s, s ∈ snaps -> is_Some (w_fs w !! s.2).
Proof.
  intros Hl Hd. unfold _find_snapshots, os_listdir. rewrite Hl, Hd.
  rewrite !bind_reply. cbn [get_fs outcome_of world_of events_of].
  destruct (resolve (w_fs w) (destination self)) as [[| |] |]; try done.
  cbn. intros [= <-] s Hs.
  rewrite sort_snapshots_elem_of in Hs.
  apply list_elem_of_omap in Hs as (entry & He & Hf).
  destruct (strptime entry) as [t |]; [| done]. injection Hf as <-. simpl.
  by apply elem_of_entries.
Qed.

(** C9. [_take_snapshot] hands to retention the snapshots that
    [_find_snapshots] returned at its start, before the new directory was
    made: what the run deletes is the beginning of the deletion list of that
    set, so every deleted path is the path of a snapshot of that set. The
    directory of the current run, when it is not among them (for a local
    destination: when it did not exist at the start), is not deleted; and
    when exactly one snapshot was found the run deletes nothing. *)
Theorem retention_spares_new_snapshot (strptime : string -> option datetime)
    (self : config) (E : env) (w : world) (snaps : list snapshot) :
  outcome_of (_find_snapshots strptime self w) = Ret snaps ->
  let backup_dst := path_join (_dst_path self) (strftime (env_now_snapshot E)) in
  let deleted := deleted_paths (events_of (_take_snapshot strptime self E w)) in
  deleted `prefix_of`
    match deletion_list (smart_remove self) (env_now_retention E) snaps with
    | Ok dels => dels
    | Err _ => []
    end
  /\ (forall p, p ∈ deleted -> p ∈ (fun s : snapshot => s.2) <$> snaps)
  /\ (backup_dst ∉ (fun s : snapshot => s.2) <$> snaps -> backup_dst ∉ deleted)
  /\ (is_dst_remote self = false -> _dst_path self = destination self ->
      w_fs w !! backup_dst = None -> backup_dst ∉ deleted)
  /\ (length snaps = 1%nat -> deleted = []).
Proof.
  intros Hfind backup_dst deleted.
  pose proof (take_snapshot_deleted strptime self E w) as Hpre.
  rewrite Hfind in Hpre. fold deleted in Hpre.
  assert (forall p, p ∈ deleted -> p ∈ (fun s : snapshot => s.2) <$> snaps)
    as Hsub.
  { intros p Hp. destruct Hpre as [rest Hpre].
    destruct (deletion_list _ _ snaps) as [dels |] eqn:Hd.
    - eapply deletion_list_spec; [exact Hd |]. rewrite Hpre.
      apply elem_of_app. by left.
    - symmetry in Hpre. apply app_eq_nil in Hpre as [Hpre _].
      rewrite Hpre in Hp. by apply elem_of_nil in Hp. }
  split; [done |]. split; [done |]. split; [| split].
  - intros Hn Hin. by apply Hn, Hsub.
  - intros Hl Hd Hnone Hin.
    apply Hsub, list_elem_of_fmap in Hin as (s & Hs & Hin).
    destruct (find_snapshots_local strptime self w snaps Hl Hd Hfind s Hin)
      as [n Hn].
    rewrite <-Hs in Hn. congruence.
  - intros Hlen. unfold deletion_list in Hpre. rewrite Hlen in Hpre.
    simpl in Hpre. by apply prefix_nil_inv in Hpre.
Qed.

Lemma retention_spares_new_snapshot_witness :
  deleted_paths
    (events_of (_take_snapshot strptime_canonical sample_config sample_env
                               (initial_world sample_fs))) = [].
Proof.
  destruct (retention_spares_new_snapshot strptime_canonical sample_config
              sample_env (initial_world sample_fs)
              [(dt 2024 1 6 3 0 0, "/b/2024-01-06_03:00:00_GMT"%string)])
    as (_ & _ & _ & _ & H).
  - vm_compute. reflexivity.
  - apply H. reflexivity.
Defined.

(** ** C3: what has happened when the capacity check aborts *)

Lemma check_freespace_keeps_fs self E w :
  w_fs (world_of (_check_freespace self E w)) = w_fs w
  /\ w_locked (world_of (_check_freespace self E w)) = w_locked w
  /\ rsync_invoked (events_of (_check_freespace self E w)) = false.
Proof.
  unfold _check_freespace, _get_stat, is_dst_remote, _dst_cmd.
  unfold mbind, M_bind, mret, M_ret.
  destruct (env_stat_before E) as [stat |];
    [| by destruct (dst_remote self)].
  destruct (dst_remote self);
    cbn -[space_free Qltb Z.eqb Z.ltb];
    destruct (files stat =? 0); cbn -[space_free Qltb Z.eqb Z.ltb];
    try destruct (ffree stat <? min_inodes self);
    cbn -[space_free Qltb Z.eqb Z.ltb];
    destruct (Qltb (space_free stat) (inject_Z (min_space self)));
    done.
Qed.

Lemma run_reply cmd eff w :
  _run cmd eff w
  = mk_reply (Ret (eff (w_fs w)).1)
             (mk_world (eff (w_fs w)).2 (w_check_inodes w) (w_locked w))
             [ECmd cmd].
Proof. reflexivity. Qed.

Lemma plain_dir_isdir (fs : gmap string node) p :
  fs !! p = Some Dir -> isdir fs p = true /\ exists_ fs p = true.
Proof.
  intros Hp. unfold isdir, exists_, resolve, MAXSYMLINKS.
  cbn [resolve_fuel]. rewrite Hp. split; [done |].
  by apply bool_decide_eq_true_2.
Qed.

Lemma absent_not_dir (fs : gmap string node) p :
  fs !! p = None -> isdir fs p = false /\ lexists fs p = false.
Proof.
  intros Hp. unfold isdir, lexists, resolve, MAXSYMLINKS.
  cbn [resolve_fuel]. rewrite Hp. split; [done |].
  apply bool_decide_eq_false. by intros [? ?].
Qed.

Lemma only_adds_bind {A B} (m : M A) (k : A -> M B) :
  only_adds m -> (forall a, only_adds (k a)) -> only_adds (m ≫= k).
Proof.
  intros Hm Hk w. rewrite bind_reply.
  destruct (Hm w) as (He & Hc & Hl & Hfs).
  destruct (outcome_of (m w)) as [a | e | c];
    cbn [events_of world_of]; [| done..].
  destruct (Hk a (world_of (m w))) as (He' & Hc' & Hl' & Hfs').
  rewrite He, He', Hc', Hl'. repeat split; try done. auto.
Qed.

Lemma only_adds_pass (m : M unit) :
  only_adds m -> only_adds (pass_FileExistsError m).
Proof.
  intros Hm w. unfold pass_FileExistsError.
  destruct (Hm w) as (He & Hc & Hl & Hfs).
  by destruct (outcome_of (m w)) as [a | [] | c].
Qed.

Lemma lexists_false (fs : gmap string node) p :
  lexists fs p = false -> fs !! p = None.
Proof.
  unfold lexists. intros H%bool_decide_eq_false.
  by apply eq_None_not_Some.
Qed.

Lemma only_adds_os_mkdir p : only_adds (os_mkdir p).
Proof.
  intros w. unfold os_mkdir. rewrite bind_reply.
  cbn [get_fs outcome_of world_of events_of].
  destruct (lexists (w_fs w) p) eqn:Hl; [done |].
  destruct (parent_ok (w_fs w) p); [| done].
  cbn. repeat split. intros q n Hq. rewrite lookup_insert_ne; [done |].
  intros <-. apply lexists_false in Hl. congruence.
Qed.

Lemma only_adds_makedirs fuel name : only_adds (makedirs_fuel fuel name).
Proof.
  revert name. induction fuel as [| fuel IH]; intros name;
    cbn [makedirs_fuel]; destruct (makedirs_parts name) as [head tail];
    apply only_adds_bind; try done; intros fs;
    destruct (_ && _); try apply only_adds_os_mkdir.
  apply only_adds_bind; [apply only_adds_pass, IH |]. intros [].
  destruct (String.eqb tail "."); [done | apply only_adds_os_mkdir].
Qed.


Lemma run_events cmd eff w :
  events_of (_run cmd eff w) = [ECmd cmd]
  /\ w_locked (world_of (_run cmd eff w)) = w_locked w
  /\ w_check_inodes (world_of (_run cmd eff w)) = w_check_inodes w.
Proof. done. Qed.

Lemma create_dest_directory_quiet self w :
  rsync_invoked (events_of (_create_dest_directory self w)) = false
  /\ w_locked (world_of (_create_dest_directory self w)) = w_locked w.
Proof.
  unfold _create_dest_directory.
  destruct (is_dst_remote self) eqn:Hr.
  - rewrite bind_reply.
    destruct (run_events (_dst_cmd self ++ ["ls"; _dst_path self])
                (sh_ls (_dst_path self)) w) as (He & Hl & _).
    assert (_dst_cmd self = ["ssh"; default "" (dst_remote self)]) as Hcmd.
    { unfold _dst_cmd, is_dst_remote in *. by destruct (dst_remote self). }
    change (outcome_of (_run ?c ?e w)) with (Ret (e (w_fs w)).1).
    cbn iota. rewrite He.
    destruct (negb _); [| by rewrite Hcmd].
    rewrite bind_reply.
    set (w1 := world_of (_run _ (sh_ls _) w)) in *.
    destruct (run_events (_dst_cmd self ++ ["mkdir"; "-p"; _dst_path self])
                (sh_mkdir_p (_dst_path self)) w1) as (He1 & Hl1 & _).
    change (outcome_of (_run ?c ?e w1)) with (Ret (e (w_fs w1)).1).
    cbn iota. rewrite He1. cbn [mret M_ret events_of world_of].
    rewrite Hl1, Hl, Hcmd. done.
  - rewrite bind_reply. cbn [get_fs outcome_of world_of events_of].
    destruct (exists_ (w_fs w) (destination self)); [done |].
    destruct (only_adds_makedirs (String.length (destination self))
                (destination self) w) as (He & _ & Hl & _).
    unfold os_makedirs. cbn [negb]. rewrite app_nil_l.
    destruct (makedirs_fuel _ _ w) as [o w' t]. simpl in *. by subst t.
Qed.

(** the destination is there already: [_create_dest_directory] changes
    nothing *)
Lemma create_dest_directory_present self w :
  (if is_dst_remote self then lexists (w_fs w) (_dst_path self)
   else exists_ (w_fs w) (destination self)) = true ->
  world_of (_create_dest_directory self w) = w
  /\ outcome_of (_create_dest_directory self w) = Ret tt.
Proof.
  unfold _create_dest_directory, _run.
  unfold mbind, M_bind, mret, M_ret.
  destruct (is_dst_remote self); intros H; cbn; rewrite H; cbn;
    by destruct w.
Qed.

Lemma check_freespace_outcome self E w stat :
  env_stat_before E = Some stat ->
  outcome_of (_check_freespace self E w)
  = if negb (files stat =? 0) && (ffree stat <? min_inodes self)
       || Qltb (space_free stat) (inject_Z (min_space self))
    then Exited 2 else Ret stat.
Proof.
  intros Hstat. unfold _check_freespace, _get_stat. rewrite Hstat.
  unfold mbind, M_bind, mret, M_ret.
  destruct (is_dst_remote self); cbn -[space_free Qltb Z.eqb Z.ltb];
    destruct (files stat =? 0); cbn -[space_free Qltb Z.eqb Z.ltb];
    destruct (ffree stat <? min_inodes self);
    cbn -[space_free Qltb Z.eqb Z.ltb];
    destruct (Qltb (space_free stat) (inject_Z (min_space self)));
    reflexivity.
Qed.

Lemma os_mkdir_made p w :
  outcome_of (os_mkdir p w) = Ret tt ->
  w_fs w !! p = None /\ w_fs (world_of (os_mkdir p w)) !! p = Some Dir.
Proof.
  unfold os_mkdir. rewrite bind_reply.
  cbn [get_fs outcome_of world_of events_of].
  destruct (lexists (w_fs w) p) eqn:Hl; [done |].
  destruct (parent_ok (w_fs w) p); [| done].
  intros _. split; [by apply lexists_false |]. cbn. apply lookup_insert_eq.
Qed.

(** [os.makedirs] that returns has made the directory, which was not there,
    unless the path ends with the component [.] *)
Lemma makedirs_made fuel name w :
  (makedirs_parts name).2 <> "." ->
  outcome_of (makedirs_fuel fuel name w) = Ret tt ->
  w_fs w !! name = None
  /\ w_fs (world_of (makedirs_fuel fuel name w)) !! name = Some Dir.
Proof.
  intros Htail.
  destruct fuel as [| fuel]; cbn [makedirs_fuel];
    destruct (makedirs_parts name) as [head tail]; simpl in Htail;
    rewrite bind_reply; cbn [get_fs outcome_of world_of events_of];
    destruct (_ && _); rewrite ?app_nil_l;
    try (destruct (os_mkdir name w) as [o w' t] eqn:Hm; cbn;
         intros ->;
         pose proof (os_mkdir_made name w) as H; rewrite Hm in H;
         by apply H).
  rewrite bind_reply.
  pose proof (only_adds_pass _ (only_adds_makedirs fuel head) w)
    as (_ & _ & _ & Hsub).
  destruct (outcome_of (pass_FileExistsError (makedirs_fuel fuel head) w))
    as [[] | e | c]; [| done..].
  cbn [outcome_of world_of events_of].
  apply String.eqb_neq in Htail. rewrite Htail.
  set (w1 := world_of (pass_FileExistsError (makedirs_fuel fuel head) w)) in *.
  intros Hret. destruct (os_mkdir_made name w1 Hret) as [Hnone Hdir].
  split; [| done].
  destruct (w_fs w !! name) as [n |] eqn:Hn; [| done].
  apply Hsub in Hn. congruence.
Qed.

Lemma mkdir_p_fuel_fail fuel p (fs : gmap string node) :
  (mkdir_p_fuel fuel p fs).1 = false -> (mkdir_p_fuel fuel p fs).2 = fs.
Proof.
  revert p. induction fuel as [| fuel IH]; intros p; cbn [mkdir_p_fuel];
    destruct (isdir fs p); try done; destruct (lexists fs p); try done;
    destruct (String.eqb _ "" || all_slashes _); try done.
  specialize (IH (dirname p)).
  destruct (mkdir_p_fuel fuel (dirname p) fs) as [[] fs']; [done |].
  simpl in *. auto.
Qed.

Lemma mkdir_p_fuel_made fuel p (fs : gmap string node) :
  lexists fs p = false -> (mkdir_p_fuel fuel p fs).1 = true ->
  (mkdir_p_fuel fuel p fs).2 !! p = Some Dir.
Proof.
  intros Hl. pose proof (lexists_false _ _ Hl) as Hp.
  destruct (absent_not_dir _ _ Hp) as [Hi _].
  destruct fuel as [| fuel]; cbn [mkdir_p_fuel]; rewrite Hi, Hl;
    destruct (String.eqb _ "" || all_slashes _); cbn;
    try (intros _; apply lookup_insert_eq); try done.
  destruct (mkdir_p_fuel fuel (dirname p) fs) as [[] fs']; [| done].
  intros _. apply lookup_insert_eq.
Qed.

(** when [_create_dest_directory] leaves the store as it was, for a local
    destination whose path does not end with the component [.] *)
Lemma create_dest_directory_local_iff self w :
  is_dst_remote self = false ->
  (makedirs_parts (destination self)).2 <> "." ->
  outcome_of (_create_dest_directory self w) = Ret tt ->
  (w_fs (world_of (_create_dest_directory self w)) = w_fs w
   <-> exists_ (w_fs w) (destination self) = true).
Proof.
  intros Hr Htail. unfold _create_dest_directory. rewrite Hr.
  rewrite bind_reply. cbn [get_fs outcome_of world_of events_of].
  destruct (exists_ (w_fs w) (destination self)); cbn [negb]; [done |].
  unfold os_makedirs. intros Hret.
  destruct (makedirs_made _ _ w Htail Hret) as [Hnone Hdir].
  split; [| done]. intros Heq. rewrite Heq in Hdir. congruence.
Qed.

(** the same for a remote destination, where the status of [mkdir -p] is
    not looked at *)
Lemma create_dest_directory_remote_iff self w :
  is_dst_remote self = true ->
  (w_fs (world_of (_create_dest_directory self w)) = w_fs w
   <-> lexists (w_fs w) (_dst_path self) = true
       \/ returncode (sh_mkdir_p (_dst_path self) (w_fs w)).1 <> 0).
Proof.
  intros Hr. unfold _create_dest_directory. rewrite Hr.
  rewrite bind_reply, run_reply. cbn [outcome_of world_of events_of].
  unfold sh_ls at 1 2. cbn [fst snd returncode].
  destruct (lexists (w_fs w) (_dst_path self)) eqn:Hl; cbn [Z.eqb negb].
  { cbn. split; auto. }
  change (2 =? 0) with false. cbn [negb].
  rewrite bind_reply, run_reply. cbn [outcome_of world_of events_of w_fs].
  unfold sh_ls, sh_mkdir_p. cbn [fst snd returncode].
  pose proof (mkdir_p_fuel_fail (String.length (_dst_path self))
                (_dst_path self) (w_fs w)) as Hfail.
  pose proof (mkdir_p_fuel_made (String.length (_dst_path self))
                (_dst_path self) (w_fs w) Hl) as Hmade.
  destruct (mkdir_p_fuel _ _ (w_fs w)) as [[] fs']; simpl in *.
  - split.
    + intros Heq. rewrite Heq in Hmade. apply lexists_false in Hl.
      specialize (Hmade eq_refl). congruence.
    + intros [? | ?]; done.
  - split; [intros _; by right | intros _; by apply Hfail].
Qed.

(** C3. When a capacity check fails, the run ends with [SystemExit(2)]
    before any snapshot directory is made and before the pointer is touched:
    rsync is not invoked, the lock is released, and the destination store is
    as [_create_dest_directory] left it. That is the store of the start
    exactly when nothing was created: on a local destination (whose path
    does not end with the component [.]) when the destination was there, on
    a remote one when [ls] found it or [mkdir -p], whose status is not
    looked at, failed. *)
Theorem capacity_abort_before_snapshot (strptime : string -> option datetime)
    (self : config) (E : env) (w : world) (stat : fs_stat) :
  env_lock_free E = true ->
  env_stat_before E = Some stat ->
  (files stat <> 0 /\ ffree stat < min_inodes self)
  \/ (space_free stat < inject_Z (min_space self))%Q ->
  outcome_of (_create_dest_directory self
                (mk_world (w_fs w) (w_check_inodes w) true)) = Ret tt ->
  outcome_of (run strptime self E w) = Exited 2
  /\ w_fs (world_of (run strptime self E w))
     = w_fs (world_of (_create_dest_directory self
                         (mk_world (w_fs w) (w_check_inodes w) true)))
  /\ ((if is_dst_remote self then lexists (w_fs w) (_dst_path self)
       else exists_ (w_fs w) (destination self)) = true ->
      w_fs (world_of (run strptime self E w)) = w_fs w)
  /\ rsync_invoked (events_of (run strptime self E w)) = false
  /\ w_locked (world_of (run strptime self E w)) = false
  /\ (is_dst_remote self = false ->
      (makedirs_parts (destination self)).2 <> "." ->
      (w_fs (world_of (run strptime self E w)) = w_fs w
       <-> exists_ (w_fs w) (destination self) = true))
  /\ (is_dst_remote self = true ->
      (w_fs (world_of (run strptime self E w)) = w_fs w
       <-> lexists (w_fs w) (_dst_path self) = true
           \/ returncode (sh_mkdir_p (_dst_path self) (w_fs w)).1 <> 0)).
Proof.
  intros Hlock Hstat Hfail Hcreate.
  set (w0 := mk_world (w_fs w) (w_check_inodes w) true) in *.
  set (w1 := world_of (_create_dest_directory self w0)).
  pose proof (check_freespace_outcome self E w1 stat Hstat) as Hout.
  assert (negb (files stat =? 0) && (ffree stat <? min_inodes self)
          || Qltb (space_free stat) (inject_Z (min_space self)) = true) as Hb.
  { apply orb_true_iff. destruct Hfail as [[Hf Hi] | Hs].
    - left. apply andb_true_iff. split; [| by apply Z.ltb_lt].
      by destruct (Z.eqb_spec (files stat) 0).
    - right. by apply Qltb_lt. }
  rewrite Hb in Hout.
  destruct (check_freespace_keeps_fs self E w1) as (Hfs & Hlk & Hrs).
  destruct (create_dest_directory_quiet self w0) as (Hrs0 & _).
  assert (run strptime self E w
          = mk_reply (Exited 2)
              (mk_world (w_fs (world_of (_check_freespace self E w1)))
                        (w_check_inodes (world_of (_check_freespace self E w1)))
                        false)
              ([ELog INFO (MsgStart (destination self))]
               ++ events_of (_create_dest_directory self w0)
               ++ events_of (_check_freespace self E w1))) as Hrun.
  { unfold run, _flock_exclusive, _flock_release. rewrite Hlock.
    rewrite bind_reply. cbn [set_locked outcome_of world_of events_of].
    fold w0. unfold try_finally.
    rewrite !bind_reply. cbn [logging outcome_of world_of events_of].
    rewrite Hcreate. cbn [outcome_of world_of events_of]. fold w1.
    rewrite Hout. cbn [set_locked outcome_of world_of events_of].
    by rewrite app_nil_r. }
  rewrite Hrun. cbn [outcome_of world_of events_of w_fs w_locked].
  rewrite Hfs. subst w1.
  split; [done |]. split; [done |].
  split; [| split; [| split; [done |]]].
  - intros Hpresent.
    destruct (create_dest_directory_present self w0 Hpresent) as [-> _]. done.
  - rewrite !rsync_invoked_app, Hrs0, Hrs. done.
  - split.
    + intros Hr Htail.
      apply (create_dest_directory_local_iff self w0 Hr Htail Hcreate).
    + intros Hr. apply (create_dest_directory_remote_iff self w0 Hr).
Qed.

Lemma capacity_abort_before_snapshot_witness :
  outcome_of (run strptime_canonical sample_config few_inodes_env
                  (initial_world empty_dest_fs)) = Exited 2
  /\ w_fs (world_of (run strptime_canonical sample_config few_inodes_env
                         (initial_world empty_dest_fs))) = empty_dest_fs.
Proof.
  destruct (capacity_abort_before_snapshot strptime_canonical sample_config
              few_inodes_env (initial_world empty_dest_fs) few_inodes_stat)
    as (Ho & _ & Hfs & _).
  - reflexivity.
  - reflexivity.
  - left. split; [discriminate | reflexivity].
  - vm_compute. reflexivity.
  - split; [exact Ho |]. apply Hfs. vm_compute. reflexivity.
Defined.

(** C3 as the specification words it does not hold: with 10 free inodes and
    a destination that is not there yet, the run ends with status 2 after
    [_create_dest_directory] has made the destination directory. *)
Lemma capacity_abort_counterexample :
  let r := run strptime_canonical sample_config few_inodes_env
               (initial_world ∅) in
  outcome_of r = Exited 2
  /\ (∅ : gmap string node) !! "/b"%string = None
  /\ w_fs (world_of r) !! "/b"%string = Some Dir
  /\ w_fs (world_of r) <> w_fs (initial_world ∅).
Proof.
  assert (w_fs (world_of (run strptime_canonical sample_config few_inodes_env
                              (initial_world ∅))) !! "/b"%string = Some Dir)
    as H by (vm_compute; reflexivity).
  cbv zeta. split; [vm_compute; reflexivity |]. split; [reflexivity |].
  split; [exact H |]. intros Heq. rewrite Heq in H. discriminate.
Qed.

(** ** C1: the pointer after the first snapshot *)

Lemma digit_cases n :
  exists k, (k < 10)%nat /\ digit n = ascii_of_nat (48 + k).
Proof.
  unfold digit. exists (Z.to_nat (n mod 10)). split; [| done].
  pose proof (Z.mod_pos_bound n 10). lia.
Qed.

Lemma strftime_head now :
  exists c rest, strftime now = String c rest /\ c <> "/"%char /\ c <> "l"%char.
Proof.
  unfold strftime, pad4. 
  destruct (digit_cases (Datetime.year now / 1000)) as (k & Hk & ->).
  eexists _, _. split; [reflexivity |].
  do 10 (destruct k as [|k]; [by split |]). lia.
Qed.

Lemma string_app_inv_l (p x y : string) : (p ++ x = p ++ y)%string -> x = y.
Proof. induction p as [|c p IH]; simpl; [done |]. intros [= H]. by apply IH. Qed.

(** the directory of the new snapshot is not the pointer *)
Lemma backup_dst_not_latest d now :
  path_join d (strftime now) <> path_join d "latest".
Proof.
  destruct (strftime_head now) as (c & rest & -> & Hc & Hl).
  unfold path_join.
  assert (starts_with_slash (String c rest) = false) as ->.
  { simpl. destruct c as [[] [] [] [] [] [] [] []]; try done. }
  cbn [starts_with_slash].
  destruct (String.eqb d "" || ends_with_slash d).
  - intros [= ?]%string_app_inv_l. done.
  - intros H%string_app_inv_l. injection H as ? ?. done.
Qed.

Lemma find_snapshots_world strptime self w :
  world_of (_find_snapshots strptime self w) = w.
Proof.
  unfold _find_snapshots, os_listdir. rewrite bind_reply.
  destruct (is_dst_remote self).
  - rewrite !bind_reply. cbn. done.
  - rewrite bind_reply. cbn [get_fs outcome_of world_of events_of].
    destruct (resolve (w_fs w) (destination self)) as [[| |] |]; cbn; done.
Qed.

Lemma smart_remove_few self E snaps w :
  (length snaps <= 1)%nat ->
  _smart_remove self E snaps w = mk_reply (Ret tt) w [ELog INFO MsgOnlyOneSnapshot].
Proof.
  intros H. unfold _smart_remove.
  by destruct (Nat.leb_spec (length snaps) 1); [| lia].
Qed.

Lemma not_there_not_exists (fs : gmap string node) p :
  fs !! p = None -> exists_ fs p = false.
Proof.
  intros H. unfold exists_, resolve, MAXSYMLINKS. cbn [resolve_fuel].
  rewrite H. apply bool_decide_eq_false. by intros [? ?].
Qed.

Lemma post_bind {A B} (m : M A) (k : A -> M B) w
    (Q : B -> world -> list event -> Prop) :
  post m w (fun a w' t => post (k a) w' (fun b w'' t' => Q b w'' (t ++ t'))) ->
  post (m ≫= k) w Q.
Proof.
  unfold post. intros H b. rewrite bind_reply.
  destruct (outcome_of (m w)) as [a | e | c] eqn:Ho; [| done..].
  cbn [outcome_of world_of events_of]. intros Hb. by apply (H a).
Qed.

Lemma post_reply {A} (m : M A) w o w' t (Q : A -> world -> list event -> Prop) :
  m w = mk_reply o w' t ->
  (forall a, o = Ret a -> Q a w' t) ->
  post m w Q.
Proof. unfold post. intros -> H a. apply H. Qed.

Lemma post_weaken {A} (m : M A) w (Q Q' : A -> world -> list event -> Prop) :
  post m w Q -> (forall a w' t, Q a w' t -> Q' a w' t) -> post m w Q'.
Proof. unfold post. auto. Qed.

Lemma post_os_remove p w :
  post (os_remove p) w
       (fun _ w' t => w' = mk_world (delete p (w_fs w)) (w_check_inodes w)
                                    (w_locked w) /\ t = []).
Proof.
  unfold os_remove. intros a. rewrite bind_reply.
  cbn [get_fs outcome_of world_of events_of].
  by destruct (w_fs w !! p) as [[| |] |].
Qed.

Lemma post_os_mkdir p w :
  post (os_mkdir p) w
       (fun _ w' t => w' = mk_world (<[p := Dir]> (w_fs w)) (w_check_inodes w)
                                    (w_locked w) /\ t = []).
Proof.
  unfold os_mkdir. intros a. rewrite bind_reply.
  cbn [get_fs outcome_of world_of events_of].
  destruct (lexists (w_fs w) p); [done |].
  by destruct (parent_ok (w_fs w) p).
Qed.

Lemma post_os_symlink target p w :
  post (os_symlink target p) w
       (fun _ w' t => w_fs w !! p = None
                      /\ w' = mk_world (<[p := Symlink target]> (w_fs w))
                                       (w_check_inodes w) (w_locked w)
                      /\ t = []).
Proof.
  unfold os_symlink. intros a. rewrite bind_reply.
  cbn [get_fs outcome_of world_of events_of].
  unfold lexists. case_bool_decide as Hx; [done |].
  destruct (parent_ok (w_fs w) p); [| done]. intros _.
  split; [| done]. destruct (w_fs w !! p); [| done]. by destruct Hx.
Qed.

Lemma post_get_file_stat_local self latest w :
  is_dst_remote self = false ->
  post (_get_file_stat self latest) w (fun _ w' t => w' = w /\ t = []).
Proof.
  intros Hl st. rewrite get_file_stat_local by done.
  by destruct (w_fs w !! latest) as [[| |] |].
Qed.

(** C1 fails on the code: for a local destination on which no snapshot was
    found, a [_take_snapshot] that returns has invoked rsync and leaves no
    entry at the pointer path. The remote branch of the same step makes the
    link without any condition. *)
Theorem local_first_snapshot_has_no_pointer
    (strptime : string -> option datetime) (self : config) (E : env)
    (w : world) :
  is_dst_remote self = false ->
  outcome_of (_find_snapshots strptime self w) = Ret [] ->
  outcome_of (_take_snapshot strptime self E w) = Ret tt ->
  w_fs (world_of (_take_snapshot strptime self E w))
    !! path_join (_dst_path self) "latest" = None
  /\ rsync_invoked (events_of (_take_snapshot strptime self E w)) = true.
Proof.
  intros Hl Hfind Hret.
  pose proof (backup_dst_not_latest (_dst_path self) (env_now_snapshot E)) as Hne.
  set (latest := path_join (_dst_path self) "latest") in *.
  set (backup_dst := path_join (_dst_path self) (strftime (env_now_snapshot E)))
    in *.
  cut (post (_take_snapshot strptime self E) w
         (fun _ w' t => w_fs w' !! latest = None /\ rsync_invoked t = true)).
  { intros Hp. exact (Hp tt Hret). }
  clear Hret. unfold _take_snapshot. fold latest backup_dst.
  apply post_bind. intros snaps Hs. rewrite Hfind in Hs. injection Hs as <-.
  rewrite find_snapshots_world.
  apply post_bind.
  eapply post_weaken; [by apply post_get_file_stat_local |].
  intros st _ _ [-> ->].
  assert (pointer_branch [] st = NoSnapshots) as ->.
  { unfold pointer_branch. by cbn. }
  rewrite Hl.
  (* the stale pointer goes *)
  apply post_bind, post_bind.
  eapply post_reply; [reflexivity |]. intros fs [= <-].
  assert (post (if lexists (w_fs w) latest then os_remove latest else mret tt) w
            (fun _ w' t => w_fs w' !! latest = None /\ t = [])) as Hrm.
  { unfold lexists. case_bool_decide as Hx.
    - eapply post_weaken; [apply post_os_remove |].
      intros _ w' t [-> ->]. split; [| done]. apply lookup_delete_eq.
    - eapply post_reply; [reflexivity |]. intros _ _. split; [| done].
      destruct (w_fs w !! latest); [| done]. by destruct Hx. }
  eapply post_weaken; [exact Hrm |]. clear Hrm.
  intros _ w1 t1 [Hw1 ->].
  (* the directory of the snapshot *)
  apply post_bind, post_bind.
  eapply post_reply; [reflexivity |]. intros fs1 [= <-].
  assert (post (if negb (exists_ (w_fs w1) backup_dst)
                then os_mkdir backup_dst else mret tt) w1
            (fun _ w' t => w_fs w' !! latest = None /\ t = [])) as Hmk.
  { destruct (negb (exists_ (w_fs w1) backup_dst)).
    - eapply post_weaken; [apply post_os_mkdir |].
      intros _ w' t [-> ->]. split; [| done]. cbn [w_fs].
      by rewrite lookup_insert_ne.
    - eapply post_reply; [reflexivity |]. by intros _ _. }
  eapply post_weaken; [exact Hmk |]. clear Hmk.
  intros _ w2 t2 [Hw2 ->].
  (* rsync *)
  apply post_bind. eapply post_reply; [apply run_rsync_reply |]. intros _ _.
  (* the pointer is looked for and not found, so no link is made *)
  apply post_bind, post_bind.
  eapply post_reply; [reflexivity |]. intros fs2 [= <-].
  rewrite (not_there_not_exists _ _ Hw2).
  eapply post_reply; [reflexivity |]. intros _ _.
  eapply post_reply; [apply smart_remove_few; simpl; lia |]. intros _ _.
  split; [done |].
  rewrite !rsync_invoked_app. cbn. by rewrite !orb_true_r.
Qed.

Lemma local_first_snapshot_has_no_pointer_witness :
  w_fs (world_of (_take_snapshot strptime_canonical sample_config sample_env
                                 (initial_world empty_dest_fs)))
    !! "/b/latest"%string = None
  /\ rsync_invoked
       (events_of (_take_snapshot strptime_canonical sample_config sample_env
                                  (initial_world empty_dest_fs))) = true.
Proof.
  apply (local_first_snapshot_has_no_pointer strptime_canonical sample_config
           sample_env (initial_world empty_dest_fs)).
  - reflexivity.
  - vm_compute. reflexivity.
  - vm_compute. reflexivity.
Defined.

(** The first run into an empty local destination, and the run after it: the
    first makes the snapshot directory and no pointer; the second finds a
    snapshot without pointer, makes an empty directory with the pointer on
    it and ends with status 2. *)
Example first_two_local_runs :
  let r1 := run strptime_canonical sample_config sample_env
                (initial_world empty_dest_fs) in
  let r2 := run strptime_canonical sample_config later_env
                (initial_world (w_fs (world_of r1))) in
  outcome_of r1 = Ret tt
  /\ map_to_list (w_fs (world_of r1))
     = [("/b/2024-01-07_12:30:05_GMT", Dir); ("/b", Dir)]%string
  /\ outcome_of r2 = Exited 2
  /\ log_of (events_of r2)
     = [(INFO, MsgStart "/b"); (ERROR, MsgLatestMissing)]%string
  /\ w_fs (world_of r2) !! "/b/latest"%string
     = Some (Symlink "/b/2024-01-07_13:30:05_GMT").
Proof. vm_compute. repeat split; reflexivity. Qed.

(** The same first run with the destination on another host: the pointer is
    made. *)
Example first_remote_run :
  let r := run strptime_canonical sample_remote_config sample_env
               (initial_world empty_dest_fs) in
  outcome_of r = Ret tt
  /\ w_fs (world_of r) !! "/b/latest"%string
     = Some (Symlink "/b/2024-01-07_12:30:05_GMT")
  /\ w_fs (world_of r) !! "/b/2024-01-07_12:30:05_GMT"%string = Some Dir.
Proof. vm_compute. repeat split; reflexivity. Qed.

(** ** C4: a pointer that does not resolve *)

Lemma pointer_branch_cases (snaps : list snapshot) (st : file_stat) :
  snaps <> [] ->
  pointer_branch snaps st
  = if fstat_exists st then CloneLast else PointerAnomaly.
Proof.
  intros Hs. unfold pointer_branch.
  assert ((0 <? Z.of_nat (length snaps)) = true) as ->.
  { apply Z.ltb_lt. destruct snaps; [done |]. simpl. lia. }
  by destruct (fstat_exists st).
Qed.

(** one step of a sequence whose first part returns *)
Lemma bind_step {A B} (m : M A) (k : A -> M B) w a w' t o wf tf :
  m w = mk_reply (Ret a) w' t ->
  k a w' = mk_reply o wf tf ->
  (m ≫= k) w = mk_reply o wf (t ++ tf).
Proof. intros Hm Hk. by rewrite bind_reply, Hm; cbn; rewrite Hk. Qed.

(** a sequence whose first part leaves *)
Lemma bind_exit {A B} (m : M A) (k : A -> M B) w c w' t :
  m w = mk_reply (Exited c) w' t ->
  (m ≫= k) w = mk_reply (Exited c) w' t.
Proof. intros Hm. by rewrite bind_reply, Hm. Qed.

Lemma reply_eta {A} (r : reply A) :
  r = mk_reply (outcome_of r) (world_of r) (events_of r).
Proof. by destruct r. Qed.

Lemma find_snapshots_local_events strptime self w :
  is_dst_remote self = false -> events_of (_find_snapshots strptime self w) = [].
Proof.
  intros Hl. unfold _find_snapshots, os_listdir. rewrite Hl, !bind_reply.
  cbn [get_fs outcome_of world_of events_of].
  by destruct (resolve (w_fs w) (destination self)) as [[| |] |].
Qed.

Lemma find_snapshots_local_reply strptime self w snaps :
  is_dst_remote self = false ->
  outcome_of (_find_snapshots strptime self w) = Ret snaps ->
  _find_snapshots strptime self w = mk_reply (Ret snaps) w [].
Proof.
  intros Hl Hf. rewrite (reply_eta (_find_snapshots strptime self w)).
  by rewrite Hf, find_snapshots_world, find_snapshots_local_events.
Qed.

(** C4 fails on the code where the pointer is a broken link: for a local
    destination with snapshots whose pointer is a symbolic link to a path
    that is not there, [_take_snapshot] takes the branch that clones, the
    copy fails, and the run ends with status 2 leaving the destination as it
    was: no fresh directory, the pointer still broken. *)
Theorem broken_pointer_is_not_healed (strptime : string -> option datetime)
    (self : config) (E : env) (w : world) (snaps : list snapshot)
    (target : string) :
  is_dst_remote self = false ->
  outcome_of (_find_snapshots strptime self w) = Ret snaps ->
  snaps <> [] ->
  w_fs w !! path_join (_dst_path self) "latest" = Some (Symlink target) ->
  w_fs w !! path_join (_dst_path self) target = None ->
  outcome_of (_take_snapshot strptime self E w) = Exited 2
  /\ world_of (_take_snapshot strptime self E w) = w
  /\ log_of (events_of (_take_snapshot strptime self E w))
     = [(INFO, MsgCopyingLast); (ERROR, MsgCloneFailed)]
  /\ rsync_invoked (events_of (_take_snapshot strptime self E w)) = false.
Proof.
  intros Hl Hfind Hs Hlink Hmiss.
  assert (_take_snapshot strptime self E w
          = mk_reply (Exited 2) w
              [ELog INFO MsgCopyingLast;
               ECmd ["cp"; "-arl"; path_join (_dst_path self) target;
                     path_join (_dst_path self)
                               (strftime (env_now_snapshot E))];
               ELog ERROR MsgCloneFailed]) as ->; [| done].
  unfold _take_snapshot.
  eapply (bind_step _ _ _ _ _ []);
    [by apply find_snapshots_local_reply |].
  eapply (bind_step _ _ _ _ _ []);
    [by rewrite get_file_stat_local, Hlink |].
  rewrite pointer_branch_cases by done. cbn [fstat_exists fstat_target].
  apply bind_exit.
  eapply (bind_step _ _ _ _ _ [_]); [reflexivity |].
  unfold _dst_cmd, is_dst_remote in *. destruct (dst_remote self); [done |].
  cbn [app].
  eapply (bind_step _ _ _ _ _ [_]).
  { unfold _run. eapply (bind_step _ _ _ _ _ [_]); [reflexivity |].
    eapply (bind_step _ _ _ _ _ []); [reflexivity |].
    unfold sh_cp_arl. rewrite Hmiss. cbn [fst snd].
    eapply (bind_step _ _ _ _ _ []); [reflexivity |]. reflexivity. }
  cbn [returncode]. by destruct w.
Qed.

Lemma broken_pointer_is_not_healed_witness :
  outcome_of (_take_snapshot strptime_canonical sample_config sample_env
                             (initial_world broken_pointer_fs)) = Exited 2
  /\ world_of (_take_snapshot strptime_canonical sample_config sample_env
                              (initial_world broken_pointer_fs))
     = initial_world broken_pointer_fs.
Proof.
  destruct (broken_pointer_is_not_healed strptime_canonical sample_config
              sample_env (initial_world broken_pointer_fs)
              [(dt 2024 1 6 3 0 0, "/b/2024-01-06_03:00:00_GMT"%string)]
              "/b/2023-12-31_03:00:00_GMT") as (Ho & Hw & _).
  - reflexivity.
  - vm_compute. reflexivity.
  - discriminate.
  - vm_compute. reflexivity.
  - vm_compute. reflexivity.
  - split; [exact Ho | exact Hw].
Defined.

(** The part of C4 that holds: with snapshots and no entry at the pointer
    path, a local run logs the anomaly, makes the directory of the new
    snapshot and the pointer to it, and ends with status 2 without invoking
    rsync and without deleting anything. *)
Lemma missing_pointer_is_healed (strptime : string -> option datetime)
    (self : config) (E : env) (w : world) (snaps : list snapshot) :
  let latest := path_join (_dst_path self) "latest" in
  let backup_dst := path_join (_dst_path self) (strftime (env_now_snapshot E)) in
  is_dst_remote self = false ->
  outcome_of (_find_snapshots strptime self w) = Ret snaps ->
  snaps <> [] ->
  w_fs w !! latest = None ->
  w_fs w !! backup_dst = None ->
  parent_ok (w_fs w) backup_dst = true ->
  parent_ok (<[backup_dst := Dir]> (w_fs w)) latest = true ->
  outcome_of (_take_snapshot strptime self E w) = Exited 2
  /\ w_fs (world_of (_take_snapshot strptime self E w))
     = <[latest := Symlink backup_dst]> (<[backup_dst := Dir]> (w_fs w))
  /\ log_of (events_of (_take_snapshot strptime self E w))
     = [(ERROR, MsgLatestMissing)]
  /\ rsync_invoked (events_of (_take_snapshot strptime self E w)) = false
  /\ deleted_paths (events_of (_take_snapshot strptime self E w)) = [].
Proof.
  intros latest backup_dst Hl Hfind Hs Hlatest Hfresh Hp1 Hp2.
  pose proof (backup_dst_not_latest (_dst_path self) (env_now_snapshot E)) as Hne.
  fold latest backup_dst in Hne.
  assert (_take_snapshot strptime self E w
          = mk_reply (Exited 2)
              (mk_world (<[latest := Symlink backup_dst]>
                           (<[backup_dst := Dir]> (w_fs w)))
                        (w_check_inodes w) (w_locked w))
              [ELog ERROR MsgLatestMissing]) as ->; [| done].
  unfold _take_snapshot. fold latest backup_dst.
  eapply (bind_step _ _ _ _ _ []);
    [by apply find_snapshots_local_reply |].
  eapply (bind_step _ _ _ _ _ []);
    [by rewrite get_file_stat_local, Hlatest |].
  rewrite pointer_branch_cases by done. cbn [fstat_exists fstat_islink].
  rewrite Hl. apply bind_exit.
  eapply (bind_step _ _ _ _ _ [_]); [reflexivity |].
  eapply (bind_step _ _ _ _ _ []).
  { eapply (bind_step _ _ _ _ _ []).
    - unfold os_mkdir. eapply (bind_step _ _ _ _ _ []); [reflexivity |].
      assert (lexists (w_fs w) backup_dst = false) as ->.
      { unfold lexists. rewrite Hfresh. apply bool_decide_eq_false.
        by intros [? ?]. }
      rewrite Hp1. reflexivity.
    - unfold os_symlink. eapply (bind_step _ _ _ _ _ []); [reflexivity |].
      cbn [w_fs].
      assert (lexists (<[backup_dst := Dir]> (w_fs w)) latest = false) as ->.
      { unfold lexists. rewrite lookup_insert_ne, Hlatest by done.
        apply bool_decide_eq_false. by intros [? ?]. }
      rewrite Hp2. reflexivity. }
  reflexivity.
Qed.

(** A local destination with a broken pointer: this run and the next one
    both end with status 2 at the failed copy, and the store stays as it
    was. With no pointer at all the first run repairs and the next one
    clones. *)
Example broken_pointer_runs :
  let r1 := run strptime_canonical sample_config sample_env
                (initial_world broken_pointer_fs) in
  let r2 := run strptime_canonical sample_config later_env
                (initial_world (w_fs (world_of r1))) in
  let m1 := run strptime_canonical sample_config sample_env
                (initial_world missing_pointer_fs) in
  let m2 := run strptime_canonical sample_config later_env
                (initial_world (w_fs (world_of m1))) in
  outcome_of r1 = Exited 2
  /\ map_to_list (w_fs (world_of r1)) = map_to_list broken_pointer_fs
  /\ log_of (events_of r1)
     = [(INFO, MsgStart "/b"); (INFO, MsgCopyingLast); (ERROR, MsgCloneFailed)]
  /\ outcome_of r2 = Exited 2
  /\ map_to_list (w_fs (world_of r2)) = map_to_list broken_pointer_fs
  /\ outcome_of m1 = Exited 2
  /\ log_of (events_of m1) = [(INFO, MsgStart "/b"); (ERROR, MsgLatestMissing)]
  /\ w_fs (world_of m1) !! "/b/latest"%string
     = Some (Symlink "/b/2024-01-07_12:30:05_GMT")
  /\ outcome_of m2 = Ret tt
  /\ w_fs (world_of m2) !! "/b/latest"%string
     = Some (Symlink "/b/2024-01-07_13:30:05_GMT").
Proof. vm_compute. repeat split; reflexivity. Qed.

(** The same broken pointer on a remote destination: the same end. *)
Example broken_pointer_remote_run :
  let r := run strptime_canonical sample_remote_config sample_env
               (initial_world broken_pointer_fs) in
  outcome_of r = Exited 2
  /\ map_to_list (w_fs (world_of r)) = map_to_list broken_pointer_fs
  /\ log_of (events_of r)
     = [(INFO, MsgStart "backup@host:/b"); (INFO, MsgCopyingLast);
        (ERROR, MsgCloneFailed)].
Proof. vm_compute. repeat split; reflexivity. Qed.

(** * Further properties of the code *)

(** ** Reading the configuration *)

Example read_sample_config :
  _read_config "/root/.config" sample_files (__init__ None)
  = ([], Ret sample_attrs).
Proof. reflexivity. Qed.

Lemma conf_bind_Ret {A B} (m : Conf A) (k : A -> Conf B) b :
  (m ≫= k).2 = Ret b ->
  exists a, m.2 = Ret a /\ (k a).2 = Ret b /\ (m ≫= k).1 = m.1 ++ (k a).1.
Proof.
  unfold mbind, Conf_bind. destruct m as [l [a | e | c]]; simpl; try discriminate.
  intros H. exists a. auto.
Qed.

Lemma conf_lift_Ret {A} (r : result A) a :
  (conf_lift r).2 = Ret a -> r = Ok a /\ (conf_lift r).1 = [].
Proof. destruct r; simpl; [intros [= ->]; auto | discriminate]. Qed.

Lemma load_conf_Ret disk configfile paths v :
  (load_conf disk configfile paths).2 = Ret v ->
  (load_conf disk configfile paths).1 = [].
Proof.
  induction paths as [| f rest IH]; simpl; [reflexivity |].
  destruct (disk f); simpl; try discriminate; auto.
Qed.

Lemma listify_not_str v s : listify v <> YStr s.
Proof. destruct v; discriminate. Qed.

Lemma listify_truthy v : truthy v = true -> truthy (listify v) = true.
Proof. destruct v; simpl; auto. Qed.

Ltac conf_step H :=
  let a := fresh "a" in
  let Ha := fresh "Ha" in
  let Hl := fresh "Hl" in
  apply conf_bind_Ret in H as (a & Ha & H & Hl).

Lemma update_smart_remove_mapping sr keys m m' :
  update_smart_remove sr keys m = Ok m' -> keys <> [] -> is_mapping sr = true.
Proof.
  destruct keys as [| key rest]; [congruence |].
  destruct sr; simpl; try discriminate; auto.
Qed.

Lemma update_smart_remove_lookup sr keys m m' key :
  update_smart_remove sr keys m = Ok m' ->
  m' !! key = m !! key
  \/ exists v, m' !! key = Some v /\ truthy v = true
               /\ yaml_get sr key YNull = Ok v.
Proof.
  revert m. induction keys as [| k rest IH]; simpl; intros m H.
  - injection H as <-. auto.
  - destruct (yaml_get sr k YNull) as [v | e] eqn:Hv; simpl in H; [| discriminate].
    apply IH in H as [H | H]; [| auto].
    destruct (truthy v) eqn:Ht; [| auto].
    destruct (decide (k = key)) as [-> | Hne].
    + right. exists v. rewrite H, lookup_insert_eq. auto.
    + left. rewrite H, lookup_insert_ne by done. reflexivity.
Qed.

Lemma update_smart_remove_dict pairs keys m :
  exists m', update_smart_remove (YDict pairs) keys m = Ok m'.
Proof.
  revert m. induction keys as [| key rest IH]; intros m; simpl; eauto.
Qed.

Lemma update_smart_remove_not_mapping v m :
  is_mapping v = false ->
  update_smart_remove v SMART_REMOVE_KEYS m = Err AttributeError.
Proof. destruct v; simpl; try reflexivity. discriminate. Qed.

#[local] Arguments update_smart_remove : simpl never.

Lemma load_conf_first_present disk configfile paths :
  load_conf disk configfile paths
  = match first_present disk paths with
    | None | Some Absent => ([], Ret YNull)
    | Some (Unreadable strerror) =>
        ([MsgCannotAccess configfile strerror], Exited 1)
    | Some (Malformed text) => ([MsgYamlError text], Exited 1)
    | Some (Document v) => ([], Ret v)
    end.
Proof.
  unfold first_present.
  induction paths as [| f rest IH]; [reflexivity |].
  cbn [load_conf fmap list_fmap]. rewrite filter_cons.
  destruct (disk f) eqn:Hf; cbn [is_absent].
  - rewrite decide_False by discriminate. exact IH.
  - rewrite decide_True by reflexivity. reflexivity.
  - rewrite decide_True by reflexivity. reflexivity.
  - rewrite decide_True by reflexivity. reflexivity.
Qed.

Lemma first_present_not_absent disk paths :
  first_present disk paths <> Some Absent.
Proof.
  unfold first_present. intros H.
  apply head_Some_elem_of, list_elem_of_filter in H as [H _]. discriminate.
Qed.

Lemma yaml_null_cases v : v = YNull \/ v <> YNull.
Proof. destruct v; auto; right; discriminate. Qed.

Lemma conf_bind_pure {A B} (a : A) (k : A -> Conf B) :
  ((([], Ret a) : Conf A) ≫= k) = k a.
Proof. unfold mbind, Conf_bind. simpl. destruct (k a); reflexivity. Qed.

Lemma conf_bind_not_exit {A B} (m : Conf A) (k : A -> Conf B) code :
  m.2 <> Exited code -> (forall a, (k a).2 <> Exited code) ->
  (m ≫= k).2 <> Exited code.
Proof.
  intros Hm Hk. unfold mbind, Conf_bind.
  destruct m as [l [a | e | c]]; simpl in *; [apply Hk | discriminate | congruence].
Qed.

Lemma conf_lift_not_exit {A} (r : result A) code :
  (conf_lift r).2 <> Exited code.
Proof. destruct r; discriminate. Qed.

(** the paths that [_read_config] is to go through, after the check of the
    file of [--config] *)
Lemma read_config_candidates xdg_conf_dir disk self :
  (match attr_configfile self with
   | Some f =>
       if String.eqb f "" then mret (CONF_FILES xdg_conf_dir)
       else
         match open_error (disk f) with
         | Some strerror =>
             conf_error (MsgCannotAccess (attr_configfile self) strerror);;
             conf_exit 1
         | None => mret [f]
         end
   | None => mret (CONF_FILES xdg_conf_dir)
   end : Conf (list string))
  = match explicit_file self with
    | Some f =>
        match open_error (disk f) with
        | Some strerror =>
            ([MsgCannotAccess (attr_configfile self) strerror], Exited 1)
        | None => ([], Ret (candidates xdg_conf_dir self))
        end
    | None => ([], Ret (candidates xdg_conf_dir self))
    end.
Proof.
  unfold candidates, explicit_file.
  destruct (attr_configfile self) as [f |]; [| reflexivity].
  destruct (String.eqb f ""); [reflexivity |].
  destruct (open_error (disk f)); reflexivity.
Qed.

(** what [_read_config] does once [conf_dict] holds a value other than
    [None]: it never leaves with status 2 *)
Lemma read_config_body_not_2 xdg_conf_dir disk self v :
  first_present disk (candidates xdg_conf_dir self) = Some (Document v) ->
  v <> YNull ->
  (_read_config xdg_conf_dir disk self).2 <> Exited 2.
Proof.
  intros Hfirst Hv. unfold _read_config. rewrite read_config_candidates.
  destruct (explicit_file self) as [f |];
    [destruct (open_error (disk f)); [discriminate |] |];
    rewrite conf_bind_pure, load_conf_first_present, Hfirst, conf_bind_pure.
  all: destruct v as [| b | n | s | items | pairs | truth];
    try (apply conf_bind_not_exit; [apply conf_lift_not_exit | discriminate]);
    [congruence |].
  all: apply conf_bind_not_exit; [apply conf_lift_not_exit | intros source].
  all: apply conf_bind_not_exit; [apply conf_lift_not_exit | intros destination].
  all: destruct (negb (truthy source && truthy destination)); [discriminate |].
  all: destruct destination; try discriminate.
  all: repeat (apply conf_bind_not_exit; [apply conf_lift_not_exit | intros ?]).
  all: discriminate.
Qed.

(** X2: [_read_config] leaves with status 2 exactly when the first of its
    candidate files that is there is an empty document (one that loads as
    [None]), or when no file was named and neither common location is
    there. A later candidate is not tried after an empty one. *)
Theorem read_config_exit_2_iff (xdg_conf_dir : string)
    (disk : string -> conf_file) (self : attrs) :
  (_read_config xdg_conf_dir disk self).2 = Exited 2
  <-> first_present disk (candidates xdg_conf_dir self)
      = Some (Document YNull)
      \/ (explicit_file self = None
          /\ first_present disk (CONF_FILES xdg_conf_dir) = None).
Proof.
  pose proof (read_config_body_not_2 xdg_conf_dir disk self) as Hbody.
  revert Hbody. unfold _read_config. rewrite read_config_candidates.
  unfold candidates.
  destruct (explicit_file self) as [f |] eqn:Hexp.
  - (* the file of --config *)
    assert (first_present disk [f]
            = if is_absent (disk f) then None else Some (disk f)) as ->.
    { unfold first_present. cbn [fmap list_fmap]. rewrite filter_cons, filter_nil.
      destruct (is_absent (disk f)); reflexivity. }
    destruct (disk f) as [| strerror | text | v] eqn:Hfile;
      cbn [open_error is_absent]; intros Hbody.
    + split; [discriminate |]. intros [? | [? _]]; discriminate.
    + split; [discriminate |]. intros [? | [? _]]; discriminate.
    + rewrite conf_bind_pure, load_conf_first_present.
      unfold first_present. cbn [fmap list_fmap].
      rewrite filter_cons, filter_nil, Hfile. simpl.
      split; [discriminate |]. intros [? | [? _]]; discriminate.
    + destruct (yaml_null_cases v) as [-> | Hv].
      * rewrite conf_bind_pure, load_conf_first_present.
        unfold first_present. cbn [fmap list_fmap].
        rewrite filter_cons, filter_nil, Hfile. simpl. split; auto.
      * split; [intros H; exfalso; exact (Hbody v eq_refl Hv H) |].
        intros [[= ->] | [? _]]; [congruence | discriminate].
  - (* the common locations *)
    rewrite conf_bind_pure, load_conf_first_present.
    destruct (first_present disk (CONF_FILES xdg_conf_dir))
      as [[| strerror | text | v] |] eqn:Hfp; intros Hbody.
    + exfalso. eapply first_present_not_absent, Hfp.
    + simpl. split; [discriminate |]. intros [? | [_ ?]]; discriminate.
    + simpl. split; [discriminate |]. intros [? | [_ ?]]; discriminate.
    + destruct (yaml_null_cases v) as [-> | Hv].
      * rewrite conf_bind_pure. simpl. split; auto.
      * split; [intros H; exfalso; exact (Hbody v eq_refl Hv H) |].
        intros [[= ->] | [_ ?]]; [congruence | discriminate].
    + rewrite conf_bind_pure. simpl. split; auto.
Qed.

Lemma first_present_single disk f :
  first_present disk [f] = if is_absent (disk f) then None else Some (disk f).
Proof.
  unfold first_present. cbn [fmap list_fmap]. rewrite filter_cons, filter_nil.
  destruct (is_absent (disk f)); reflexivity.
Qed.

(** the start of [_read_config] when the first file that is there loads *)
Lemma read_config_loaded xdg_conf_dir disk self v :
  first_present disk (candidates xdg_conf_dir self) = Some (Document v) ->
  _read_config xdg_conf_dir disk self
  = match v with
    | YNull =>
        conf_error (MsgNoConfigFile (CONF_FILES xdg_conf_dir));;
        conf_exit 2
    | _ =>
        source ← conf_lift (yaml_get v "source" YNull);
        destination ← conf_lift (yaml_get v "destination" YNull);
        if negb (truthy source && truthy destination) then
          conf_error MsgNoSourceOrDestination;;
          conf_exit 1
        else
          match destination with
          | YStr _ =>
              exclude ← conf_lift (yaml_get v "exclude" (YList []));
              sr ← conf_lift (yaml_get v "smart_remove" (YDict []));
              smart_remove ←
                conf_lift (update_smart_remove sr SMART_REMOVE_KEYS
                                               (attr_smart_remove self));
              sr ← conf_lift (yaml_get v "free_space" (YDict []));
              v1 ← conf_lift (yaml_get sr "min_space" YNull);
              v2 ← conf_lift (yaml_get sr "min_inodes" YNull);
              v3 ← conf_lift (yaml_get v "rsh_command" YNull);
              mret (mk_attrs (listify source) destination (listify exclude)
                             (if truthy v1 then v1 else attr_min_space self)
                             (if truthy v2 then v2 else attr_min_inodes self)
                             smart_remove
                             (if truthy v3 then v3 else attr_rsh_command self)
                             (attr_configfile self))
          | _ =>
              conf_error MsgDestinationNotString;;
              conf_exit 1
          end
    end.
Proof.
  intros Hfirst. unfold _read_config. rewrite read_config_candidates.
  assert (match explicit_file self with
          | Some f => open_error (disk f) = None
          | None => True
          end) as Hopen.
  { unfold candidates in Hfirst. destruct (explicit_file self) as [f |]; [| done].
    rewrite first_present_single in Hfirst.
    destruct (disk f); simpl in *; congruence. }
  destruct (explicit_file self) as [f |]; [rewrite Hopen |];
    rewrite conf_bind_pure, load_conf_first_present, Hfirst, conf_bind_pure;
    reflexivity.
Qed.

Lemma conf_bind_lift_Ok {A B} (a : A) (k : A -> Conf B) :
  (conf_lift (Ok a) ≫= k) = k a.
Proof. apply conf_bind_pure. Qed.

Lemma update_smart_remove_exact sr keys m m' key :
  update_smart_remove (YDict sr) keys m = Ok m' ->
  m' !! key
  = if bool_decide (key ∈ keys)
    then match file_value sr key with
         | Some v => Some v
         | None => m !! key
         end
    else m !! key.
Proof.
  revert m. induction keys as [| k rest IH]; intros m H.
  - cbn in H. injection H as <-. reflexivity.
  - cbn [update_smart_remove yaml_get rbind] in H.
    rewrite (IH _ H). clear IH H.
    assert (forall v, (if truthy v then <[k := v]> m else m) !! key
                      = if decide (k = key)
                        then (if truthy v then Some v else m !! key)
                        else m !! key) as Hins.
    { intros v. destruct (decide (k = key)) as [-> | Hne];
        destruct (truthy v); rewrite ?lookup_insert_eq, ?lookup_insert_ne;
        done. }
    rewrite Hins. clear Hins. unfold file_value.
    destruct (decide (k = key)) as [-> | Hne].
    + rewrite (bool_decide_eq_true_2 (key ∈ key :: rest)) by left.
      destruct (dict_get sr key) as [v |]; cbn [default truthy];
        destruct (bool_decide (key ∈ rest)); try done;
        cbv [id]; try (by destruct (truthy v)).
    + destruct (bool_decide_reflect (key ∈ rest)) as [Hin | Hin].
      * by rewrite bool_decide_eq_true_2 by (by right).
      * rewrite bool_decide_eq_false_2; [done |].
        intros [? | ?]%elem_of_cons; congruence.
Qed.

Lemma setting_file_value section key old :
  (if truthy (default YNull (dict_get section key))
   then default YNull (dict_get section key) else old)
  = default old (file_value section key).
Proof.
  unfold file_value. destruct (dict_get section key) as [v |]; [| done].
  cbn. by destruct (truthy v).
Qed.

(** X1: when [_read_config] returns, nothing was logged, the destination is a
    non-empty string, the sources are a non-empty value that is not a bare
    string, the excludes are not a bare string either. The document read is
    the mapping of the first candidate file that is there, with mappings as
    its [smart_remove] and [free_space] sections if it has them, and every
    attribute is determined by it: the sources and the excludes are those
    of the file, a bare string wrapped in a list; [min_space], [min_inodes],
    [rsh_command] and the four keys of [smart_remove] hold the value of the
    file where the file has one that counts as true, and the value held
    before otherwise, so that 0, an empty value or null in the file leaves
    the default. *)
Theorem read_config_returns_well_formed (xdg_conf_dir : string)
    (disk : string -> conf_file) (self a : attrs) :
  (_read_config xdg_conf_dir disk self).2 = Ret a ->
  (_read_config xdg_conf_dir disk self).1 = []
  /\ (exists s, attr_destination a = YStr s /\ s <> "")
  /\ truthy (attr_sources a) = true
  /\ (forall s, attr_sources a <> YStr s)
  /\ (forall s, attr_exclude a <> YStr s)
  /\ exists doc sr fs,
       first_present disk (candidates xdg_conf_dir self)
       = Some (Document (YDict doc))
       /\ default (YDict []) (dict_get doc "smart_remove") = YDict sr
       /\ default (YDict []) (dict_get doc "free_space") = YDict fs
       /\ attr_destination a = default YNull (dict_get doc "destination")
       /\ attr_sources a = listify (default YNull (dict_get doc "source"))
       /\ attr_exclude a
          = listify (default (YList []) (dict_get doc "exclude"))
       /\ attr_min_space a
          = default (attr_min_space self) (file_value fs "min_space")
       /\ attr_min_inodes a
          = default (attr_min_inodes self) (file_value fs "min_inodes")
       /\ attr_rsh_command a
          = default (attr_rsh_command self) (file_value doc "rsh_command")
       /\ (forall key,
             attr_smart_remove a !! key
             = if bool_decide (key ∈ SMART_REMOVE_KEYS)
               then match file_value sr key with
                    | Some v => Some v
                    | None => attr_smart_remove self !! key
                    end
               else attr_smart_remove self !! key)
       /\ attr_configfile a = attr_configfile self.
Proof.
  intros H.
  assert (exists v, first_present disk (candidates xdg_conf_dir self)
                    = Some (Document v)) as [v Hfirst].
  { unfold _read_config in H. rewrite read_config_candidates in H.
    assert (((([], Ret (candidates xdg_conf_dir self)) : Conf (list string))
             ≫= (fun conf_files =>
                   load_conf disk (attr_configfile self) conf_files
                   ≫= (fun conf_dict : yaml =>
                         match conf_dict with
                         | YNull =>
                             conf_error (MsgNoConfigFile (CONF_FILES xdg_conf_dir));;
                             conf_exit 2
                         | _ => ([], Ret a)
                         end))).2 = Ret a) as H'.
    { destruct (explicit_file self) as [f |];
        [destruct (open_error (disk f)); [discriminate H |] |];
        rewrite conf_bind_pure in H |- *;
        apply conf_bind_Ret in H as (cd & Hl & Hk & _);
        unfold mbind at 1, Conf_bind at 1; rewrite Hl;
        destruct cd; try reflexivity; discriminate Hk. }
    rewrite conf_bind_pure, load_conf_first_present in H'.
    destruct (first_present disk (candidates xdg_conf_dir self))
      as [[| | | v] |]; try discriminate H'. by exists v. }
  rewrite (read_config_loaded _ _ _ _ Hfirst) in H |- *.
  destruct v as [| b | n | s | items | pairs | truth]; try discriminate H.
  revert H.
  cbv [mbind Conf_bind conf_lift yaml_get mret Conf_ret fst snd conf_error conf_exit].
  set (source := default YNull (dict_get pairs "source")).
  set (destination := default YNull (dict_get pairs "destination")).
  destruct (truthy source) eqn:Hsource; [| discriminate].
  destruct (truthy destination) eqn:Hdest; [| discriminate].
  cbv [andb negb].
  destruct destination as [| | | d | | |] eqn:Hd; try discriminate.
  simpl in Hdest.
  destruct (default (YDict []) (dict_get pairs "smart_remove"))
    as [| | | | | spairs |] eqn:Hsp;
    try (rewrite update_smart_remove_not_mapping by reflexivity; discriminate).
  destruct (update_smart_remove _ SMART_REMOVE_KEYS (attr_smart_remove self))
    as [smart_remove | e] eqn:Hsr; [| discriminate].
  destruct (default (YDict []) (dict_get pairs "free_space"))
    as [| | | | | fpairs |] eqn:Hfs; try discriminate.
  intros [= <-]. cbn [attr_destination attr_sources attr_exclude attr_min_space
                      attr_min_inodes attr_smart_remove attr_rsh_command
                      attr_configfile app].
  split; [reflexivity |].
  split.
  { exists d. split; [reflexivity |]. intros ->. discriminate. }
  split; [apply listify_truthy, Hsource |].
  split; [intros s; apply listify_not_str |].
  split; [intros s; apply listify_not_str |].
  exists pairs, spairs, fpairs.
  split; [done |]. split; [done |]. split; [done |]. split; [done |].
  split; [done |]. split; [done |].
  split; [apply setting_file_value |].
  split; [apply setting_file_value |].
  split; [apply setting_file_value |].
  split; [| done].
  intros key. apply (update_smart_remove_exact _ _ _ _ key Hsr).
Qed.

Lemma read_config_returns_well_formed_witness :
  (_read_config "/root/.config" sample_files (__init__ None)).1 = []
  /\ exists s, attr_destination sample_attrs = YStr s /\ s <> "".
Proof.
  destruct (read_config_returns_well_formed "/root/.config" sample_files
              (__init__ None) sample_attrs) as (Hlog & Hdest & _).
  - reflexivity.
  - split; [exact Hlog | exact Hdest].
Defined.

(** X3: a value where the program expects a mapping ends [_read_config] with
    an [AttributeError] that nothing catches, and nothing is logged: a
    document whose top level is a list or a scalar, or, in a document with
    its source and destination in order, a [smart_remove] or [free_space]
    key whose value is not a mapping (a key left empty loads as [None]). *)
Theorem read_config_expects_mappings (xdg_conf_dir : string)
    (disk : string -> conf_file) (self : attrs) (v : yaml) :
  first_present disk (candidates xdg_conf_dir self) = Some (Document v) ->
  (v <> YNull /\ is_mapping v = false)
  \/ (exists pairs s section w,
        v = YDict pairs
        /\ truthy (default YNull (dict_get pairs "source")) = true
        /\ dict_get pairs "destination" = Some (YStr s) /\ s <> ""
        /\ (section = "smart_remove" \/ section = "free_space")
        /\ dict_get pairs section = Some w /\ is_mapping w = false) ->
  _read_config xdg_conf_dir disk self = ([], Raised AttributeError).
Proof.
  intros Hfirst Hcase. rewrite (read_config_loaded _ _ _ _ Hfirst).
  destruct Hcase as [[Hnull Hmap] | (pairs & s & section & w & -> & Hsrc & Hdst
                                      & Hs & Hsection & Hw & Hmap)].
  - destruct v; try reflexivity; [congruence | discriminate].
  - cbn [yaml_get]. rewrite !conf_bind_lift_Ok, Hsrc, Hdst.
    cbn [default from_option id truthy].
    assert (String.eqb s "" = false) as -> by (by apply String.eqb_neq).
    cbn [negb andb]. rewrite ?conf_bind_lift_Ok.
    destruct Hsection as [-> | ->].
    + rewrite Hw. cbn [default from_option id].
      rewrite (update_smart_remove_not_mapping _ _ Hmap).
      reflexivity.
    + destruct (default (YDict []) (dict_get pairs "smart_remove"))
        as [| | | | | spairs |] eqn:Hsr; try reflexivity.
      destruct (update_smart_remove_dict spairs SMART_REMOVE_KEYS
                  (attr_smart_remove self)) as [m' ->].
      rewrite !conf_bind_lift_Ok, Hw.
      cbn [default from_option id].
      destruct w; try reflexivity. discriminate.
Qed.

Lemma read_config_expects_mappings_witness :
  _read_config "/root/.config" empty_section_files (__init__ (Some "/tmp/ptm.yaml"))
  = ([], Raised AttributeError).
Proof.
  apply (read_config_expects_mappings "/root/.config" empty_section_files
           (__init__ (Some "/tmp/ptm.yaml")) empty_section_document).
  - reflexivity.
  - right. exists [ (YStr "source", YStr "/home");
                    (YStr "destination", YStr "/b");
                    (YStr "smart_remove", YNull) ],
             "/b", "smart_remove", YNull.
    repeat split; try reflexivity; [discriminate | auto].
Defined.

(** X4: when a file is named with [--config], [_read_config] depends on
    that file alone: the common locations are neither consulted first nor
    fallen back to, whatever they hold. *)
Theorem read_config_explicit_file_only (xdg_conf_dir : string)
    (disk disk' : string -> conf_file) (self : attrs) (f : string) :
  explicit_file self = Some f ->
  disk f = disk' f ->
  _read_config xdg_conf_dir disk self = _read_config xdg_conf_dir disk' self.
Proof.
  intros Hexp Hf. unfold _read_config. rewrite !read_config_candidates.
  unfold candidates. rewrite Hexp, <- Hf.
  destruct (open_error (disk f)); [reflexivity |].
  rewrite !conf_bind_pure, !load_conf_first_present, !first_present_single, <- Hf.
  reflexivity.
Qed.

Lemma read_config_explicit_file_only_witness :
  _read_config "/root/.config" empty_section_files (__init__ (Some "/tmp/ptm.yaml"))
  = _read_config "/root/.config"
                 (fun fname => if String.eqb fname "/tmp/ptm.yaml"
                               then Document empty_section_document
                               else Unreadable "Permission denied")
                 (__init__ (Some "/tmp/ptm.yaml")).
Proof.
  apply (read_config_explicit_file_only "/root/.config" empty_section_files _
           (__init__ (Some "/tmp/ptm.yaml")) "/tmp/ptm.yaml"); reflexivity.
Defined.

(** ** The destination pattern *)

Example remote_pat_examples :
  REMOTE_PAT "backup@nas.local:/srv/backups" = Some (Some "backup", "nas.local", "/srv/backups")
  /\ REMOTE_PAT "nas:/srv" = Some (None, "nas", "/srv")
  /\ REMOTE_PAT "/srv/backups" = None
  /\ REMOTE_PAT "/srv/a:b" = None
  /\ REMOTE_PAT "snapshots:2024" = Some (None, "snapshots", "2024")
  /\ REMOTE_PAT "a@b@c:/x" = None
  /\ REMOTE_PAT "nas:" = None.
Proof. repeat split; reflexivity. Qed.

Lemma append_cons c (a b : string) :
  (String c a ++ b)%string = String c (a ++ b)%string.
Proof. reflexivity. Qed.

Lemma append_empty_r (a : string) : (a ++ "")%string = a.
Proof. induction a as [| c a IH]; [done |]. by rewrite append_cons, IH. Qed.

Lemma span_app p s : ((span p s).1 ++ (span p s).2)%string = s.
Proof.
  induction s as [| c s IH]; [reflexivity |]. simpl.
  destruct (p c); simpl; [| reflexivity].
  by rewrite append_cons, IH.
Qed.

Lemma span_all p s : all_chars p (span p s).1 = true.
Proof.
  induction s as [| c s IH]; [reflexivity |]. simpl.
  destruct (p c) eqn:Hc; simpl; [by rewrite Hc | reflexivity].
Qed.

Lemma span_rest p s c r : (span p s).2 = String c r -> p c = false.
Proof.
  induction s as [| d s IH]; simpl; [discriminate |].
  destruct (p d) eqn:Hd; simpl; [exact IH |]. by intros [= <- <-].
Qed.

(** a run of the class followed by a character outside it is the span *)
Lemma span_unique p a c r :
  all_chars p a = true -> p c = false ->
  span p (a ++ String c r) = (a, String c r).
Proof.
  intros Ha Hc. induction a as [| d a IH].
  - simpl. by rewrite Hc.
  - simpl in Ha. apply andb_true_iff in Ha as [Hd Ha].
    rewrite append_cons. simpl. by rewrite Hd, (IH Ha).
Qed.

Lemma span_unique_end p a : all_chars p a = true -> span p a = (a, "").
Proof.
  induction a as [| d a IH]; simpl; [reflexivity |].
  intros [-> Ha]%andb_true_iff. by rewrite (IH Ha).
Qed.

Lemma string_eqb_empty s : String.eqb s "" = false <-> s <> "".
Proof. apply String.eqb_neq. Qed.

Lemma all_chars_weaken (p q : ascii -> bool) s :
  (forall c, p c = true -> q c = true) ->
  all_chars p s = true -> all_chars q s = true.
Proof.
  intros Hpq. induction s as [| c s IH]; simpl; [done |].
  intros [Hc Hs]%andb_true_iff. by rewrite (Hpq _ Hc), IH.
Qed.

Lemma host_char_user_char c : host_char c = true -> user_char c = true.
Proof.
  unfold host_char, user_char. destruct (is_alnum c); [done |].
  destruct (Ascii.eqb c "."); [done |]. simpl.
  intros ->. by rewrite !orb_true_r.
Qed.

Lemma match_path_spec s path :
  match_path s = Some path
  <-> exists tail, s = (path ++ tail)%string /\ (tail = "" \/ tail = newline)
                   /\ path <> "" /\ all_chars dot_char path = true.
Proof.
  unfold match_path. split.
  - pose proof (span_app dot_char s) as Happ.
    pose proof (span_all dot_char s) as Hall.
    destruct (span dot_char s) as [a b]. simpl in *.
    destruct (String.eqb a "") eqn:Ha; [discriminate |].
    destruct (String.eqb b "" || String.eqb b newline) eqn:Hb; [| discriminate].
    intros [= <-]. exists b. split; [done |].
    apply orb_true_iff in Hb as [Hb | Hb]; apply String.eqb_eq in Hb.
    + split; [by left |]. split; [by apply string_eqb_empty | done].
    + split; [by right |]. split; [by apply string_eqb_empty | done].
  - intros (tail & -> & Htail & Hne & Hall).
    destruct Htail as [-> | ->].
    + rewrite append_empty_r, (span_unique_end _ _ Hall). simpl.
      apply string_eqb_empty in Hne. by rewrite Hne.
    + unfold newline. rewrite (span_unique _ _ _ _ Hall) by reflexivity.
      simpl. apply string_eqb_empty in Hne. by rewrite Hne.
Qed.

Lemma match_host_path_spec s host path :
  match_host_path s = Some (host, path)
  <-> exists rest, s = (host ++ ":" ++ rest)%string
                   /\ host <> "" /\ all_chars host_char host = true
                   /\ match_path rest = Some path.
Proof.
  unfold match_host_path. split.
  - pose proof (span_app host_char s) as Happ.
    pose proof (span_all host_char s) as Hall.
    destruct (span host_char s) as [a b]. simpl in *.
    destruct (String.eqb a "") eqn:Ha; [discriminate |].
    destruct b as [| c rest]; [discriminate |].
    destruct (Ascii.eqb_spec c ":") as [-> | Hc].
    2: { destruct c as [[] [] [] [] [] [] [] []]; try discriminate.
         by destruct Hc. }
    destruct (match_path rest) as [p |] eqn:Hp; [| discriminate].
    simpl. intros [= <- <-]. exists rest.
    split; [done |]. split; [by apply string_eqb_empty | done].
  - intros (rest & -> & Hne & Hall & Hp).
    change (":" ++ rest)%string with (String ":" rest).
    rewrite (span_unique _ _ _ _ Hall) by reflexivity. simpl.
    apply string_eqb_empty in Hne. by rewrite Hne, Hp.
Qed.

(** a text of the form is matched, with its parts as the groups *)
Lemma remote_form_matches (s : string) (user : option string)
    (host path : string) :
  remote_form s user host path -> REMOTE_PAT s = Some (user, host, path).
Proof.
  unfold REMOTE_PAT, remote_form.
  intros (tail & -> & Htail & Huser & Hh & Hhall & Hp & Hpall).
  assert (match_host_path (host ++ ":" ++ path ++ tail)%string
          = Some (host, path)) as Hhp.
  { apply match_host_path_spec. exists (path ++ tail)%string.
    split; [done |]. split; [done |]. split; [done |].
    apply match_path_spec. exists tail. auto. }
  destruct user as [u |].
  - destruct Huser as [Hu Huall].
    rewrite string_app_assoc.
    change ("@" ++ host ++ ":" ++ path ++ tail)%string
      with (String "@" (host ++ ":" ++ path ++ tail)%string).
    rewrite (span_unique _ _ _ _ Huall) by reflexivity. simpl.
    apply string_eqb_empty in Hu. by rewrite Hu, Hhp.
  - change ("" ++ host ++ ":" ++ path ++ tail)%string
      with (host ++ ":" ++ path ++ tail)%string.
    rewrite Hhp. simpl.
    change (":" ++ path ++ tail)%string
      with (String ":" (path ++ tail)%string).
    rewrite (span_unique user_char host ":" _) by
      (first [by eapply all_chars_weaken; [apply host_char_user_char |]
             | reflexivity]).
    simpl. apply string_eqb_empty in Hh. by rewrite Hh.
Qed.

(** X5: [REMOTE_PAT] matches a destination, with the groups [user], [host]
    and [path], exactly when the destination has the form
    [user@host:path] or [host:path] (and at most a final newline) with the
    user and the host drawn from their classes and a path of at least one
    character; the groups of a match are unambiguous. *)
Theorem remote_pat_matches_iff (s : string) (user : option string)
    (host path : string) :
  REMOTE_PAT s = Some (user, host, path) <-> remote_form s user host path.
Proof.
  unfold REMOTE_PAT, remote_form. split.
  - pose proof (span_app user_char s) as Happ.
    pose proof (span_all user_char s) as Hall.
    destruct (span user_char s) as [u r]. simpl in *.
    assert ((fun hp : string * string => (None : option string, hp.1, hp.2))
              <$> match_host_path s = Some (user, host, path) ->
            exists tail,
              s = (match user with Some u => u ++ "@" | None => "" end
                   ++ host ++ ":" ++ path ++ tail)%string
              /\ (tail = "" \/ tail = newline)
              /\ match user with
                 | Some u => u <> "" /\ all_chars user_char u = true
                 | None => True
                 end
              /\ host <> "" /\ all_chars host_char host = true
              /\ path <> "" /\ all_chars dot_char path = true) as Hnone.
    { destruct (match_host_path s) as [[h p] |] eqn:Hhp; [| discriminate].
      simpl. intros [= <- <- <-].
      apply match_host_path_spec in Hhp as (rest & -> & Hh & Hhall & Hp).
      apply match_path_spec in Hp as (tail & -> & Htail & Hpne & Hpall).
      exists tail. auto 10. }
    destruct (String.eqb u "") eqn:Hu; [exact Hnone |].
    destruct r as [| c rest]; [exact Hnone |].
    destruct (Ascii.eqb_spec c "@") as [-> | Hc].
    2: { destruct c as [[] [] [] [] [] [] [] []]; try exact Hnone.
         by destruct Hc. }
    destruct (match_host_path rest) as [[h p] |] eqn:Hhp; [| exact Hnone].
    simpl. intros [= <- <- <-].
    apply match_host_path_spec in Hhp as (rest' & -> & Hh & Hhall & Hp).
    apply match_path_spec in Hp as (tail & -> & Htail & Hpne & Hpall).
    exists tail. split.
    { rewrite <- Happ. rewrite string_app_assoc. reflexivity. }
    split; [done |]. split; [| done].
    split; [by apply string_eqb_empty | done].
  - apply remote_form_matches.
Qed.

Lemma span_head_outside p c s : p c = false -> span p (String c s) = ("", String c s).
Proof. intros Hc. simpl. by rewrite Hc. Qed.

(** X6: a destination that starts with a slash is never taken for a remote
    one, whatever colons and at signs follow: [_dst_path] is the destination
    itself and no [ssh] command is built. *)
Theorem absolute_destination_is_local (getuser rest : string)
    (sources exclude : list string) (min_space min_inodes : Z)
    (smart_remove : smart_remove_cfg) (rsh_command : option string) :
  let self := configured getuser sources (String "/" rest) exclude min_space
                         min_inodes smart_remove rsh_command in
  is_dst_remote self = false
  /\ _dst_path self = destination self
  /\ _dst_cmd self = [].
Proof.
  assert (REMOTE_PAT (String "/" rest) = None) as H.
  { unfold REMOTE_PAT, match_host_path.
    rewrite !span_head_outside by reflexivity. reflexivity. }
  unfold configured, resolve_destination, is_dst_remote, _dst_cmd.
  rewrite H. simpl. auto.
Qed.

(** X7: for a destination [user@host:path] or [host:path] whose parts are
    well formed, the object is remote, its commands go through
    [ssh user@host], rsync is given [user@host], and [_dst_path] is the
    path; without a user in the destination the name of the current user
    stands in. *)
Theorem remote_destination_parts (getuser : string) (user : option string)
    (host path : string) (sources exclude : list string)
    (min_space min_inodes : Z) (smart_remove : smart_remove_cfg)
    (rsh_command : option string) :
  match user with
  | Some u => u <> "" /\ all_chars user_char u = true
  | None => True
  end ->
  host <> "" -> all_chars host_char host = true ->
  path <> "" -> all_chars dot_char path = true ->
  let destination :=
    (match user with Some u => u ++ "@" | None => "" end
     ++ host ++ ":" ++ path)%string in
  let login := (default getuser user ++ "@" ++ host)%string in
  let self := configured getuser sources destination exclude min_space
                         min_inodes smart_remove rsh_command in
  is_dst_remote self = true
  /\ _dst_cmd self = ["ssh"; login]
  /\ _dst_rsync_partial self = login
  /\ _dst_path self = path.
Proof.
  intros Huser Hh Hhall Hp Hpall destination login self.
  assert (REMOTE_PAT destination = Some (user, host, path)) as H.
  { apply remote_form_matches. exists "". rewrite append_empty_r. auto 10. }
  subst self. unfold configured, resolve_destination, is_dst_remote, _dst_cmd,
    _dst_rsync_partial.
  rewrite H. cbn [fst snd dst_remote _dst_path].
  assert (match user with
          | Some u => if String.eqb u "" then getuser else u
          | None => getuser
          end = default getuser user) as ->.
  { destruct user as [u |]; [| reflexivity]. destruct Huser as [Hu _].
    apply string_eqb_empty in Hu. by rewrite Hu. }
  auto.
Qed.

Lemma remote_destination_parts_witness :
  let self := configured "root" ["/home"] "nas.local:/srv/backups" [] 1024 100000
                         default_smart_remove None in
  is_dst_remote self = true
  /\ _dst_cmd self = ["ssh"; "root@nas.local"]
  /\ _dst_rsync_partial self = "root@nas.local"
  /\ _dst_path self = "/srv/backups".
Proof.
  apply (remote_destination_parts "root" None "nas.local" "/srv/backups"
           ["/home"] [] 1024 100000 default_smart_remove None);
    first [exact I | discriminate | reflexivity].
Defined.

(** ** The other rules of the retention plan *)

Lemma daily_spec_succ o n snaps :
  daily_spec o (S n) snaps
  = latest_of (filter (fun s : snapshot => Datetime.toordinal s.1 = o) snaps)
    ++ daily_spec (o - 1) n snaps.
Proof.
  unfold daily_spec. rewrite <-cons_seq. cbn [flat_map]. f_equal.
  - f_equal. apply list_filter_iff. intros s. lia.
  - rewrite <-seq_shift, flat_map_concat_map, map_map, <-flat_map_concat_map.
    apply flat_map_ext. intros j. f_equal. apply list_filter_iff. intros s. lia.
Qed.

Lemma daily_loop_spec n snaps today keep :
  Datetime.date_valid (Datetime.year today) (Datetime.month today)
                      (Datetime.day today) ->
  at_midnight today ->
  Forall (fun s : snapshot => Datetime.valid s.1 = true) snaps ->
  1 <= Datetime.toordinal today - Z.of_nat n ->
  Datetime.toordinal today + 1 <= Datetime._MAXORDINAL ->
  exists today',
    daily_loop n snaps today keep
    = Ok (today', keep ++ daily_spec (Datetime.toordinal today) n snaps)
    /\ Datetime.toordinal today' = Datetime.toordinal today - Z.of_nat n
    /\ at_midnight today'
    /\ Datetime.date_valid (Datetime.year today') (Datetime.month today')
                           (Datetime.day today').
Proof.
  revert today keep. induction n as [|n IH]; intros today keep Vd Md Hall Hlo Hhi.
  - exists today. simpl. unfold daily_spec. simpl. rewrite app_nil_r.
    repeat split; try done; try apply Md; try apply Vd. lia.
  - cbn [daily_loop].
    destruct (add_days_Ok today 1) as (hi & -> & Ohi & Vhi & _ & Hh & Hm & Hs & Hu);
      [lia |].
    destruct (add_days_Ok today (-1))
      as (d' & -> & Od' & Vd' & _ & Hh' & Hm' & Hs' & Hu'); [lia |].
    cbn [rbind].
    assert (at_midnight hi) as Mhi.
    { unfold at_midnight in *. rewrite Hh, Hm, Hs, Hu. done. }
    assert (at_midnight d') as Md'.
    { unfold at_midnight in *. rewrite Hh', Hm', Hs', Hu'. done. }
    destruct (IH d' (keep ++ _keep_last snaps today hi)) as (t' & -> & Ot & Mt & Vt);
      [done | done | done | lia | lia |].
    exists t'. split; [| split; [lia | done]].
    rewrite (keep_last_days snaps today hi Vd Vhi Md Mhi Hall).
    rewrite daily_spec_succ, Od', Ohi, <-app_assoc.
    assert (filter (fun s : snapshot =>
                      Datetime.toordinal today <= Datetime.toordinal s.1
                      < Datetime.toordinal today + 1) snaps
            = filter (fun s : snapshot =>
                        Datetime.toordinal s.1 = Datetime.toordinal today) snaps)
      as -> by (apply list_filter_iff; intros s; lia).
    reflexivity.
Qed.

(** X8: when keep_one_per_day is positive, the daily rule keeps, for each of
    the last keep_one_per_day days that end with today, the latest snapshot
    of that day, an empty day adding nothing; and it leaves the variable
    [today] keep_one_per_day days in the past, which is the day from which
    the weekly rule then counts its weeks. *)
Theorem daily_rule_days (cfg : smart_remove_cfg) (snaps : list snapshot)
    (today : datetime) (keep : list string) :
  Datetime.date_valid (Datetime.year today) (Datetime.month today)
                      (Datetime.day today) ->
  at_midnight today ->
  Forall (fun s : snapshot => Datetime.valid s.1 = true) snaps ->
  0 < keep_one_per_day cfg ->
  1 <= Datetime.toordinal today - keep_one_per_day cfg ->
  Datetime.toordinal today + 1 <= Datetime._MAXORDINAL ->
  exists today',
    daily_rule cfg snaps today keep
    = Ok (today', keep ++ daily_spec (Datetime.toordinal today)
                            (Z.to_nat (keep_one_per_day cfg)) snaps)
    /\ Datetime.toordinal today'
       = Datetime.toordinal today - keep_one_per_day cfg
    /\ at_midnight today'.
Proof.
  intros Vd Md Hall Hk Hlo Hhi. unfold daily_rule.
  destruct (Z.ltb_spec 0 (keep_one_per_day cfg)); [| lia].
  destruct (daily_loop_spec (Z.to_nat (keep_one_per_day cfg)) snaps today keep)
    as (today' & -> & Ot & Mt & _); try done; [lia |].
  exists today'. split; [done |]. split; [lia | done].
Qed.

Lemma daily_rule_days_witness :
  exists today',
    daily_rule default_smart_remove sample_snapshots (dt 2024 1 7 0 0 0) []
    = Ok (today', ["/b/2024-01-06_03:00:00_GMT"]%string)
    /\ Datetime.toordinal today' = 738885.
Proof.
  destruct (daily_rule_days default_smart_remove sample_snapshots
              (dt 2024 1 7 0 0 0) []) as (today' & H & Ho & _).
  - unfold Datetime.date_valid. vm_compute. repeat split; discriminate.
  - repeat split; reflexivity.
  - repeat constructor.
  - reflexivity.
  - vm_compute. discriminate.
  - vm_compute. discriminate.
  - exists today'. split; [rewrite H; vm_compute; reflexivity | exact Ho].
Defined.

(** the stages of [keep_snapshots] *)
Lemma keep_snapshots_stages cfg now snaps keep :
  keep_snapshots cfg now snaps = Ok keep ->
  exists today newest k1 daily k3 k4,
    midnight now = Ok today
    /\ last (sort_snapshots snaps) = Some newest
    /\ keep_all_rule cfg now (sort_snapshots snaps) [newest.2] = Ok k1
    /\ daily_rule cfg (sort_snapshots snaps) today k1 = Ok daily
    /\ weekly_rule cfg (sort_snapshots snaps) daily.1 daily.2 = Ok k3
    /\ monthly_rule cfg now (sort_snapshots snaps) k3 = Ok k4
    /\ yearly_rule now (sort_snapshots snaps) k4 = Ok keep.
Proof.
  unfold keep_snapshots.
  intros (today & Ht & (newest & Hnew & H)%rbind_Ok)%rbind_Ok.
  destruct (last (sort_snapshots snaps)) as [s|] eqn:Hlast; [| done].
  injection Hnew as <-.
  apply rbind_Ok in H as (k1 & H1 & H).
  apply rbind_Ok in H as (daily & H2 & H). cbn zeta in H.
  apply rbind_Ok in H as (k3 & H3 & H).
  apply rbind_Ok in H as (k4 & H4 & H5).
  exists today, s, k1, daily, k3, k4. auto 10.
Qed.

Lemma daily_rule_extends cfg snaps today keep r :
  daily_rule cfg snaps today keep = Ok r -> exists ext, r.2 = keep ++ ext.
Proof.
  unfold daily_rule. destruct (0 <? keep_one_per_day cfg).
  - apply daily_loop_extends.
  - intros [= <-]. exists []. by rewrite app_nil_r.
Qed.

Lemma weekly_rule_extends cfg snaps today keep r :
  weekly_rule cfg snaps today keep = Ok r -> exists ext, r = keep ++ ext.
Proof.
  unfold weekly_rule. destruct (0 <? keep_one_per_week cfg).
  - intros (d & _ & H)%rbind_Ok. by eapply weekly_loop_extends.
  - intros [= <-]. exists []. by rewrite app_nil_r.
Qed.

Lemma monthly_rule_extends cfg now snaps keep r :
  monthly_rule cfg now snaps keep = Ok r -> exists ext, r = keep ++ ext.
Proof.
  unfold monthly_rule. destruct (0 <? keep_one_per_month cfg).
  - intros (d1 & _ & (d2 & _ & H)%rbind_Ok)%rbind_Ok.
    by eapply monthly_loop_extends.
  - intros [= <-]. exists []. by rewrite app_nil_r.
Qed.

Lemma yearly_rule_extends now snaps keep r :
  yearly_rule now snaps keep = Ok r -> exists ext, r = keep ++ ext.
Proof.
  unfold yearly_rule. intros (oldest & _ & H)%rbind_Ok.
  by eapply yearly_loop_extends.
Qed.

(** what the rule that keeps everything recent adds *)
Lemma keep_all_elem_of snaps lo hi s :
  s ∈ snaps -> Datetime.leb lo s.1 = true -> Datetime.leb s.1 hi = true ->
  s.2 ∈ _keep_all snaps lo hi.
Proof.
  intros Hs Hlo Hhi. unfold _keep_all. apply list_elem_of_fmap.
  exists s. split; [done |]. apply list_elem_of_filter. split; [| done].
  by rewrite Hlo, Hhi.
Qed.

(** X9: with keep_all positive, a snapshot whose timestamp lies between
    now minus keep_all days and now, both ends included, is in the keep list
    and so never in the deletion list, whatever the other rules say. *)
Theorem recent_snapshots_are_kept (cfg : smart_remove_cfg) (now lo : datetime)
    (snaps : list snapshot) (s : snapshot) :
  0 < keep_all cfg ->
  Datetime.minus_days now (keep_all cfg) = Ok lo ->
  s ∈ snaps ->
  Datetime.leb lo s.1 = true -> Datetime.leb s.1 now = true ->
  (forall keep, keep_snapshots cfg now snaps = Ok keep -> s.2 ∈ keep)
  /\ (forall dels, deletion_list cfg now snaps = Ok dels -> s.2 ∉ dels).
Proof.
  intros Hk Hlo Hs Hge Hle.
  assert (forall keep, keep_snapshots cfg now snaps = Ok keep -> s.2 ∈ keep)
    as Hkeep.
  { intros keep (today & newest & k1 & daily & k3 & k4 & _ & _ & H1 & H2 & H3
                 & H4 & H5)%keep_snapshots_stages.
    apply yearly_rule_extends in H5 as [e5 ->].
    apply monthly_rule_extends in H4 as [e4 ->].
    apply weekly_rule_extends in H3 as [e3 ->].
    apply daily_rule_extends in H2 as [e2 ->].
    unfold keep_all_rule in H1.
    destruct (Z.ltb_spec 0 (keep_all cfg)); [| lia].
    rewrite Hlo in H1. cbn [rbind] in H1. injection H1 as <-.
    rewrite !elem_of_app. do 4 left. right.
    apply keep_all_elem_of; [by apply sort_snapshots_elem_of | done..]. }
  split; [exact Hkeep |].
  intros dels Hd Hin.
  destruct (deletion_list_spec _ _ _ _ _ Hd Hin) as (_ & _ & keep & Hkp & Hn).
  by apply Hn, Hkeep.
Qed.

Lemma recent_snapshots_are_kept_witness :
  "/b/2024-01-06_03:00:00_GMT"%string ∉ ["/b/2023-11-02_03:00:00_GMT"%string].
Proof.
  destruct (recent_snapshots_are_kept default_smart_remove
              (mk_datetime 2024 1 6 20 0 0 0) (mk_datetime 2024 1 5 20 0 0 0)
              sample_snapshots
              (dt 2024 1 6 3 0 0, "/b/2024-01-06_03:00:00_GMT"%string))
    as [_ H].
  - reflexivity.
  - vm_compute. reflexivity.
  - unfold sample_snapshots. do 2 right. left.
  - vm_compute. reflexivity.
  - vm_compute. reflexivity.
  - apply H. vm_compute. reflexivity.
Defined.

(** the first instant of a year is the first instant of its January *)
Lemma year_start y :
  1 <= y -> mk_datetime y 1 1 0 0 0 0 = month_start (12 * (y - 1)).
Proof.
  intros Hy. unfold month_start. f_equal; Z.div_mod_to_equations; lia.
Qed.

(** between the first instants of two consecutive years [_keep_last] picks
    the latest snapshot of the year *)
Lemma keep_last_year snaps y :
  1 <= y ->
  Forall (fun s : snapshot => Datetime.valid s.1 = true) snaps ->
  _keep_last snaps (mk_datetime y 1 1 0 0 0 0) (mk_datetime (y + 1) 1 1 0 0 0 0)
  = latest_of (filter (fun s : snapshot => Datetime.year s.1 = y) snaps).
Proof.
  intros Hy Hall. rewrite !year_start by lia. unfold _keep_last, latest_of.
  match goal with
  | |- context [filter ?P snaps] =>
      match goal with
      | |- _ = match last (sort_snapshots (filter ?Q snaps)) with _ => _ end =>
          assert (filter P snaps = filter Q snaps) as ->; [| done]
      end
  end.
  apply filter_iff_Forall.
  eapply Forall_impl; [exact Hall |]. intros s Vs. simpl in Vs.
  pose proof (valid_date_valid _ Vs) as (_ & Hm & _).
  rewrite (leb_month_start _ s.1), (ltb_month_start _ s.1) by (done || lia).
  rewrite andb_true_iff, Z.leb_le, Z.ltb_lt. unfold month_index. lia.
Qed.

Lemma new_date_Ok y m d t :
  Datetime.new_date y m d = Ok t ->
  t = mk_datetime y m d 0 0 0 0 /\ 1 <= y <= 9999.
Proof.
  unfold Datetime.new_date, Datetime.new.
  destruct (Datetime.valid_fields y m d 0 0 0 0) eqn:V; [| discriminate].
  intros [= <-]. split; [done |].
  unfold Datetime.valid_fields, Datetime.MINYEAR, Datetime.MAXYEAR in V.
  rewrite !andb_true_iff, !Z.leb_le in V. lia.
Qed.

(** what the loop over the years adds *)
Lemma yearly_loop_keeps n snaps i keep r y p :
  Forall (fun s : snapshot => Datetime.valid s.1 = true) snaps ->
  yearly_loop n snaps i keep = Ok r ->
  i <= y < i + Z.of_nat n ->
  p ∈ latest_of (filter (fun s : snapshot => Datetime.year s.1 = y) snaps) ->
  p ∈ r.
Proof.
  intros Hall. revert i keep. induction n as [| n IH]; intros i keep H Hy Hp;
    [lia |].
  cbn [yearly_loop] in H.
  apply rbind_Ok in H as (lo & Hlo & (hi & Hhi & H)%rbind_Ok).
  apply new_date_Ok in Hlo as [-> Hi]. apply new_date_Ok in Hhi as [-> _].
  destruct (decide (y = i)) as [-> | Hne].
  - apply yearly_loop_extends in H as [ext ->].
    rewrite keep_last_year by (done || lia).
    rewrite !elem_of_app. left. by right.
  - eapply IH; [exact H | lia | done].
Qed.

Lemma cmp_fields_year a b :
  Datetime.cmp a b <> Gt -> Datetime.year a <= Datetime.year b.
Proof.
  unfold Datetime.cmp, Datetime.fields. cbn [Datetime.cmp_fields].
  destruct (Z.compare_spec (Datetime.year a) (Datetime.year b)); [lia | lia |].
  intros Hgt. by destruct Hgt.
Qed.

Lemma snap_le_year (a b : snapshot) :
  snap_le a b -> Datetime.year a.1 <= Datetime.year b.1.
Proof.
  unfold snap_le, snap_leb, snap_cmp. intros H. apply cmp_fields_year.
  destruct (Datetime.cmp a.1 b.1); [done | done | discriminate].
Qed.

(** the first element of the sorted list is a least one *)
Lemma sort_head_min l o x :
  head (sort_snapshots l) = Some o -> x ∈ l -> snap_le o x.
Proof.
  intros Hh Hx. rewrite <-sort_snapshots_elem_of in Hx.
  pose proof (sort_snapshots_sorted l) as Hs.
  destruct (sort_snapshots l) as [| o' l']; [discriminate |].
  injection Hh as ->. apply StronglySorted_inv in Hs as [_ Hall].
  apply elem_of_cons in Hx as [-> | Hx].
  - destruct (total snap_le o o); done.
  - rewrite Forall_forall in Hall. by apply Hall.
Qed.

(** X10: whatever the configuration, the last snapshot of every calendar
    year up to the current one (the greatest in the order of the pairs of
    timestamp and path among the snapshots of its year) is in the keep list
    and never in the deletion list. *)
Theorem last_snapshot_of_a_year_is_kept (cfg : smart_remove_cfg)
    (now : datetime) (snaps : list snapshot) (s : snapshot) :
  Forall (fun s : snapshot => Datetime.valid s.1 = true) snaps ->
  s ∈ snaps ->
  Datetime.year s.1 <= Datetime.year now ->
  (forall x, x ∈ snaps -> Datetime.year x.1 = Datetime.year s.1 -> snap_le x s) ->
  (forall keep, keep_snapshots cfg now snaps = Ok keep -> s.2 ∈ keep)
  /\ (forall dels, deletion_list cfg now snaps = Ok dels -> s.2 ∉ dels).
Proof.
  intros Hall Hs Hyear Hmax.
  assert (forall keep, keep_snapshots cfg now snaps = Ok keep -> s.2 ∈ keep)
    as Hkeep.
  { intros keep (today & newest & k1 & daily & k3 & k4 & _ & _ & _ & _ & _
                 & _ & H5)%keep_snapshots_stages.
    unfold yearly_rule in H5. apply rbind_Ok in H5 as (oldest & Hold & H5).
    destruct (head (sort_snapshots snaps)) as [o |] eqn:Hhead; [| discriminate].
    injection Hold as <-.
    assert (Forall (fun s : snapshot => Datetime.valid s.1 = true)
                   (sort_snapshots snaps)) as Hall'.
    { rewrite Forall_forall in Hall |- *. intros x Hx.
      rewrite sort_snapshots_elem_of in Hx. by apply Hall. }
    eapply (yearly_loop_keeps _ _ _ _ _ (Datetime.year s.1) _ Hall' H5).
    - pose proof (snap_le_year _ _ (sort_head_min _ _ _ Hhead Hs)). lia.
    - assert (latest_of (filter (fun x : snapshot =>
                                   Datetime.year x.1 = Datetime.year s.1)
                                (sort_snapshots snaps)) = [s.2]) as ->;
        [| by left].
      unfold latest_of. erewrite greatest_is_last; [reflexivity | |].
      + apply list_elem_of_filter. split; [done |].
        by apply sort_snapshots_elem_of.
      + intros x [Hx Hin]%list_elem_of_filter.
        rewrite sort_snapshots_elem_of in Hin. by apply Hmax. }
  split; [exact Hkeep |].
  intros dels Hd Hin.
  destruct (deletion_list_spec _ _ _ _ _ Hd Hin) as (_ & _ & keep & Hkp & Hn).
  by apply Hn, Hkeep.
Qed.

Lemma last_snapshot_of_a_year_is_kept_witness :
  "/b/2022-03-01_03:00:00_GMT"%string ∉ ["/b/2023-11-02_03:00:00_GMT"%string].
Proof.
  destruct (last_snapshot_of_a_year_is_kept default_smart_remove
              (mk_datetime 2024 1 6 20 0 0 0) sample_snapshots
              (dt 2022 3 1 3 0 0, "/b/2022-03-01_03:00:00_GMT"%string))
    as [_ H].
  - repeat constructor.
  - unfold sample_snapshots. right. left.
  - vm_compute. discriminate.
  - intros x Hx Hy. unfold sample_snapshots in Hx.
    repeat (apply elem_of_cons in Hx as [-> | Hx]); try discriminate Hy;
      [vm_compute; reflexivity | by apply elem_of_nil in Hx].
  - apply H. vm_compute. reflexivity.
Defined.

(** X11: [_keep_last] returns at most one path: nothing when no snapshot
    has its timestamp in the window from [min_date], included, to
    [max_date], excluded, and otherwise the path of the snapshot of the
    window that is greatest in the order of the pairs of timestamp and
    path. *)
Theorem keep_last_picks_the_greatest (snaps : list snapshot)
    (min_date max_date : datetime) :
  ((forall x, x ∈ snaps ->
      Datetime.leb min_date x.1 && Datetime.ltb x.1 max_date = false)
   /\ _keep_last snaps min_date max_date = [])
  \/ (exists s,
        s ∈ snaps
        /\ Datetime.leb min_date s.1 = true /\ Datetime.ltb s.1 max_date = true
        /\ _keep_last snaps min_date max_date = [s.2]
        /\ forall x, x ∈ snaps ->
                     Datetime.leb min_date x.1 = true ->
                     Datetime.ltb x.1 max_date = true -> snap_le x s).
Proof.
  unfold _keep_last.
  set (window := filter (fun s : snapshot =>
                           Datetime.leb min_date s.1
                           && Datetime.ltb s.1 max_date = true) snaps).
  destruct window as [| s0 l] eqn:Hw.
  - left. split; [| reflexivity]. intros x Hx.
    destruct (Datetime.leb min_date x.1 && Datetime.ltb x.1 max_date) eqn:Hc;
      [| reflexivity].
    assert (x ∈ window) as Hin by (by apply list_elem_of_filter).
    rewrite Hw in Hin. by apply elem_of_nil in Hin.
  - right. rewrite <-Hw.
    destruct (sort_last_is_Some window) as [s Hs]; [by rewrite Hw |].
    rewrite Hs. exists s.
    pose proof (sort_last_elem_of _ _ Hs) as [Hc Hin]%list_elem_of_filter.
    apply andb_true_iff in Hc as [Hlo Hhi].
    split; [done |]. split; [done |]. split; [done |]. split; [done |].
    intros x Hx Hxlo Hxhi. eapply sort_last_max; [exact Hs |].
    apply list_elem_of_filter. split; [| done]. by rewrite Hxlo, Hxhi.
Qed.

Lemma yearly_loop_Ok n snaps i keep :
  1 <= i -> i + Z.of_nat n <= 9999 ->
  exists r, yearly_loop n snaps i keep = Ok r.
Proof.
  revert i keep. induction n as [| n IH]; intros i keep Hi Hn; [by eexists |].
  cbn [yearly_loop]. rewrite !new_date_first by lia. cbn [rbind].
  apply IH; lia.
Qed.

Lemma toordinal_bounds t :
  Datetime.valid t = true -> Datetime.year t <= 9998 ->
  1 <= Datetime.toordinal t <= Datetime._MAXORDINAL - 365.
Proof.
  intros V Hy. pose proof (valid_date_valid t V) as Vd.
  split; [by apply ymd2ord_pos |].
  assert (Datetime.toordinal t < Datetime._ymd2ord 9999 1 1) as Hlt.
  { apply ymd2ord_lt; [done | | lia].
    unfold Datetime.date_valid. vm_compute. repeat split; discriminate. }
  change (Datetime._ymd2ord 9999 1 1) with 3651695 in Hlt.
  change Datetime._MAXORDINAL with 3652059. lia.
Qed.

(** X12: the retention plan is computed without an exception whenever the
    current time is a valid timestamp before year 9999, the snapshots carry
    valid timestamps, and the configured counts reach back no further than
    the first day of year 1: keep_all days, the days of the daily rule
    followed by the weeks of the weekly rule and one more week, and the
    months of the monthly rule. *)
Theorem retention_plan_is_computed (cfg : smart_remove_cfg) (now : datetime)
    (snaps : list snapshot) :
  Datetime.valid now = true ->
  Datetime.year now <= 9998 ->
  Forall (fun s : snapshot => Datetime.valid s.1 = true) snaps ->
  snaps <> [] ->
  keep_all cfg < Datetime.toordinal now ->
  rounds (keep_one_per_day cfg) + 7 * rounds (keep_one_per_week cfg) + 7
    < Datetime.toordinal now ->
  keep_one_per_month cfg <= month_index now ->
  (exists keep, keep_snapshots cfg now snaps = Ok keep)
  /\ (exists dels, deletion_list cfg now snaps = Ok dels).
Proof.
  intros V Hy Hall Hne Hka Hdw Hm.
  assert (exists keep, keep_snapshots cfg now snaps = Ok keep) as [keep Hkeep].
  { pose proof (toordinal_bounds now V Hy) as Ho.
    pose proof (valid_date_valid now V) as (Hy1 & Hmo & _).
    unfold rounds in Hdw. unfold keep_snapshots.
    destruct (midnight_Ok now V) as (today & -> & Mt & Ot & Vt). cbn [rbind].
    destruct (sort_last_is_Some snaps Hne) as [newest ->]. cbn [rbind].
    assert (Forall (fun s : snapshot => Datetime.valid s.1 = true)
                   (sort_snapshots snaps)) as Hall'.
    { rewrite Forall_forall in Hall |- *. intros x Hx.
      rewrite sort_snapshots_elem_of in Hx. by apply Hall. }
    (* everything recent *)
    assert (exists k1, keep_all_rule cfg now (sort_snapshots snaps) [newest.2]
                       = Ok k1) as [k1 ->].
    { unfold keep_all_rule. destruct (Z.ltb_spec 0 (keep_all cfg)); [| by eexists].
      unfold Datetime.minus_days, Datetime.timedelta_days.
      change Datetime._MAXORDINAL with 3652059 in Ho.
      destruct (Z.leb_spec (-999999999) (keep_all cfg)); [| lia].
      destruct (Z.leb_spec (keep_all cfg) 999999999); [| lia].
      cbn [andb rbind].
      destruct (add_days_Ok now (- keep_all cfg)) as (lo & -> & _);
        [change Datetime._MAXORDINAL with 3652059; lia |].
      by eexists. }
    cbn [rbind].
    (* the days *)
    assert (exists daily,
               daily_rule cfg (sort_snapshots snaps) today k1 = Ok daily
               /\ Datetime.toordinal daily.1
                  = Datetime.toordinal now - Z.max (keep_one_per_day cfg) 0
               /\ at_midnight daily.1
               /\ Datetime.date_valid (Datetime.year daily.1)
                    (Datetime.month daily.1) (Datetime.day daily.1))
      as (daily & -> & Od & Md & Vd).
    { unfold daily_rule. destruct (Z.ltb_spec 0 (keep_one_per_day cfg)).
      - destruct (daily_loop_spec (Z.to_nat (keep_one_per_day cfg))
                    (sort_snapshots snaps) today k1)
          as (today' & -> & Ot' & Mt' & Vt'); try done; [lia | lia |].
        eexists. split; [reflexivity |]. simpl. split; [lia | done].
      - eexists. split; [reflexivity |]. simpl. split; [lia | done]. }
    cbn [rbind].
    pose proof (weekday_range daily.1) as Hw.
    (* the weeks *)
    assert (exists k3, weekly_rule cfg (sort_snapshots snaps) daily.1 daily.2
                       = Ok k3) as [k3 ->].
    { unfold weekly_rule. destruct (Z.ltb_spec 0 (keep_one_per_week cfg));
        [| by eexists].
      unfold Datetime.minus_days, Datetime.timedelta_days.
      destruct (Z.leb_spec (-999999999) (Datetime.weekday daily.1 + 1)); [| lia].
      destruct (Z.leb_spec (Datetime.weekday daily.1 + 1) 999999999); [| lia].
      cbn [andb rbind].
      destruct (add_days_Ok daily.1 (- (Datetime.weekday daily.1 + 1)))
        as (d & -> & Odd & Vdd & _ & Hh & Hmi & Hs & Hu); [lia |].
      cbn [rbind].
      assert (at_midnight d) as Mdd.
      { unfold at_midnight in *. rewrite Hh, Hmi, Hs, Hu. done. }
      rewrite weekly_loop_spec by (try done; lia). by eexists. }
    cbn [rbind].
    (* the months *)
    assert (exists k4, monthly_rule cfg now (sort_snapshots snaps) k3 = Ok k4)
      as [k4 ->].
    { unfold monthly_rule. destruct (Z.ltb_spec 0 (keep_one_per_month cfg));
        [| by eexists].
      rewrite new_date_first by lia. cbn [rbind].
      rewrite <-(month_start_index now Hmo).
      assert (0 <= month_index now) as Hi by (unfold month_index; lia).
      assert (month_index now + 1 < MONTHS) as Hhi
        by (unfold month_index, MONTHS; lia).
      destruct (month_start_fields (month_index now)) as [Hsy Hsm]; [lia |].
      destruct (inc_month_Ok (month_start (month_index now))) as [_ ->];
        [lia | done | rewrite month_index_start; lia |].
      cbn [rbind]. rewrite month_index_start by done.
      rewrite monthly_loop_spec by (done || lia). by eexists. }
    cbn [rbind].
    (* the years *)
    unfold yearly_rule.
    destruct (head (sort_snapshots snaps)) as [oldest |] eqn:Hhead.
    2: { apply head_None in Hhead. apply (f_equal length) in Hhead.
         rewrite sort_snapshots_length in Hhead. by destruct snaps. }
    cbn [rbind].
    assert (Datetime.valid oldest.1 = true) as Vo.
    { rewrite Forall_forall in Hall'. apply Hall'.
      destruct (sort_snapshots snaps); [discriminate |].
      injection Hhead as ->. by left. }
    pose proof (valid_date_valid _ Vo) as (Hoy & _).
    assert (Datetime.year oldest.1 <= 9999) as Hoy'.
    { unfold Datetime.valid, Datetime.valid_fields, Datetime.MAXYEAR in Vo.
      rewrite !andb_true_iff, !Z.leb_le in Vo. lia. }
    apply yearly_loop_Ok; lia. }
  split; [by exists keep |].
  unfold deletion_list, del_snapshots. rewrite Hkeep.
  destruct (length snaps <=? 1)%nat; by eexists.
Qed.

Lemma retention_plan_is_computed_witness :
  exists dels,
    deletion_list default_smart_remove (mk_datetime 2024 1 7 12 31 0 17)
                  sample_snapshots = Ok dels.
Proof.
  apply (retention_plan_is_computed default_smart_remove
           (mk_datetime 2024 1 7 12 31 0 17) sample_snapshots).
  - reflexivity.
  - vm_compute. discriminate.
  - repeat constructor.
  - discriminate.
  - vm_compute. reflexivity.
  - vm_compute. reflexivity.
  - vm_compute. discriminate.
Defined.

(** ** The run as a whole *)

(** X13: an exception raised while rsync is started or run (the program is
    missing, say) is caught in [_run_rsync], which logs one error record and
    returns. Once the steps before the call have returned, [_take_snapshot]
    ends as the pointer update followed by retention ends from the world
    those steps left, with the three records of [_run_rsync] in between;
    [_take_snapshot] and [run] end as they do after status 0, the record of
    how rsync ended apart. *)
Theorem rsync_exception_is_not_fatal (strptime : string -> option datetime)
    (self : config) (E : env) (e : exn) (w : world) :
  (forall args w',
      _run_rsync (with_rsync E (RsyncRaises e)) args w'
      = mk_reply (Ret tt) w'
          [ELog INFO (MsgRunningCmd ("rsync" :: args)); ECmd ("rsync" :: args);
           ELog ERROR MsgRsyncException])
  /\ (forall snaps w1 t1,
        before_rsync strptime self E w = mk_reply (Ret snaps) w1 t1 ->
        _take_snapshot strptime self (with_rsync E (RsyncRaises e)) w
        = mk_reply
            (outcome_of ((update_pointer self E;;
                          _smart_remove self E snaps) w1))
            (world_of ((update_pointer self E;;
                        _smart_remove self E snaps) w1))
            (t1
             ++ [ELog INFO (MsgRunningCmd (rsync_command self E));
                 ECmd (rsync_command self E); ELog ERROR MsgRsyncException]
             ++ events_of ((update_pointer self E;;
                            _smart_remove self E snaps) w1)))
  /\ view (_take_snapshot strptime self (with_rsync E (RsyncRaises e)) w)
     = view (_take_snapshot strptime self (with_rsync E (RsyncStatus 0)) w)
  /\ view (run strptime self (with_rsync E (RsyncRaises e)) w)
     = view (run strptime self (with_rsync E (RsyncStatus 0)) w).
Proof.
  split; [| split; [| split]].
  - intros args w'. by rewrite run_rsync_reply.
  - intros snaps w1 t1 Hb.
    exact (take_snapshot_after_rsync strptime self
             (with_rsync E (RsyncRaises e)) w snaps w1 t1 Hb).
  - apply take_snapshot_view.
  - apply run_view.
Qed.

(** X14: the lock brackets the run. When the lock is held by another
    process, [run] logs two records and leaves with status 2 having touched
    nothing; when it is free, the lock is released by the time [run] ends,
    however it ends. *)
Theorem lock_brackets_the_run (strptime : string -> option datetime)
    (self : config) (E : env) (w : world) :
  (env_lock_free E = false ->
   run strptime self E w
   = mk_reply (Exited 2) w [ELog ERROR MsgLockBusy; ELog INFO MsgAborted])
  /\ (env_lock_free E = true ->
      w_locked (world_of (run strptime self E w)) = false).
Proof.
  split; intros Hlock; unfold run, _flock_exclusive; rewrite Hlock.
  - apply bind_exit. reflexivity.
  - rewrite bind_reply. cbn [set_locked outcome_of world_of events_of].
    unfold try_finally, _flock_release, set_locked.
    cbn [outcome_of world_of events_of w_locked]. reflexivity.
Qed.

Lemma rsync_cmds_app t1 t2 :
  rsync_cmds (t1 ++ t2) = rsync_cmds t1 ++ rsync_cmds t2.
Proof. apply filter_app. Qed.

Lemma rsync_free_bind {A B} (m : M A) (k : A -> M B) :
  rsync_free m -> (forall a, rsync_free (k a)) -> rsync_free (m ≫= k).
Proof.
  intros Hm Hk w. rewrite bind_reply.
  destruct (outcome_of (m w)); cbn [events_of];
    rewrite ?rsync_cmds_app, ?Hm, ?Hk; done.
Qed.

Ltac rsync_free_prog :=
  repeat lazymatch goal with
    | |- rsync_free (_ ≫= _) => apply rsync_free_bind; [| intros ?]
    | |- rsync_free (match ?x with _ => _ end) => destruct x
    | |- rsync_free _ => intros ?; reflexivity
    end.

Lemma rsync_free_delete_snapshots self E dels :
  rsync_free (delete_snapshots self E dels).
Proof.
  induction dels as [| p dels IH]; [intros ?; reflexivity |].
  cbn [delete_snapshots]. unfold _run, shutil_rmtree, _dst_cmd, is_dst_remote.
  destruct (dst_remote self) as [u |].
  - apply rsync_free_bind; [intros ?; reflexivity | intros _].
    apply rsync_free_bind; [rsync_free_prog | intros _; exact IH].
  - apply rsync_free_bind; [intros ?; reflexivity | intros _].
    apply rsync_free_bind; [rsync_free_prog | intros _; exact IH].
Qed.

Lemma rsync_free_smart_remove self E snaps :
  rsync_free (_smart_remove self E snaps).
Proof.
  unfold _smart_remove. destruct (length snaps <=? 1)%nat;
    [intros ?; reflexivity |].
  apply rsync_free_bind.
  - unfold lift. destruct (del_snapshots _ _ snaps); intros ?; reflexivity.
  - intros [| p dels]; [intros ?; reflexivity |].
    apply rsync_free_delete_snapshots.
Qed.

Lemma rsync_free_find_snapshots strptime self :
  rsync_free (_find_snapshots strptime self).
Proof.
  unfold _find_snapshots, os_listdir, _dst_cmd, is_dst_remote.
  destruct (dst_remote self); rsync_free_prog.
Qed.

Lemma rsync_free_get_file_stat self latest :
  rsync_free (_get_file_stat self latest).
Proof.
  unfold _get_file_stat, _run, os_readlink, _dst_cmd, is_dst_remote.
  destruct (dst_remote self); rsync_free_prog.
Qed.

(** what is to be shown of a piece of [_take_snapshot]: rsync is invoked at
    most once, with the command [c], and it has been when the piece
    returns *)
Lemma once_bind {A} (c : list string) (m : M A) (k : A -> M unit) w :
  rsync_free m ->
  (forall a w',
      (rsync_cmds (events_of (k a w')) = []
       \/ rsync_cmds (events_of (k a w')) = [ECmd c])
      /\ (outcome_of (k a w') = Ret tt ->
          rsync_cmds (events_of (k a w')) = [ECmd c])) ->
  (rsync_cmds (events_of ((m ≫= k) w)) = []
   \/ rsync_cmds (events_of ((m ≫= k) w)) = [ECmd c])
  /\ (outcome_of ((m ≫= k) w) = Ret tt ->
      rsync_cmds (events_of ((m ≫= k) w)) = [ECmd c]).
Proof.
  intros Hm Hk. rewrite bind_reply.
  destruct (outcome_of (m w)) as [a | e | code];
    cbn [events_of outcome_of]; rewrite ?rsync_cmds_app, Hm.
  - apply Hk.
  - split; [by left | discriminate].
  - split; [by left | discriminate].
Qed.

(** X15: in every run of [_take_snapshot] rsync is invoked at most once,
    and exactly once when [_take_snapshot] returns; its command line is the
    fixed options, then [-e] and the remote shell when one is configured,
    one [--exclude=] per exclude, the sources, and last the directory of the
    new snapshot, behind [user@host:] for a remote destination. *)
Theorem rsync_runs_once_on_the_new_snapshot
    (strptime : string -> option datetime) (self : config) (E : env)
    (w : world) :
  let r := _take_snapshot strptime self E w in
  (rsync_cmds (events_of r) = []
   \/ rsync_cmds (events_of r) = [ECmd (rsync_command self E)])
  /\ (outcome_of r = Ret tt ->
      rsync_cmds (events_of r) = [ECmd (rsync_command self E)]).
Proof.
  cbv zeta. unfold _take_snapshot.
  apply once_bind; [apply rsync_free_find_snapshots |]. intros snaps w1.
  apply once_bind; [apply rsync_free_get_file_stat |]. intros st w2.
  apply once_bind.
  { unfold _run, os_remove, os_mkdir, os_symlink, _dst_cmd, is_dst_remote.
    destruct (dst_remote self); rsync_free_prog. }
  intros _ w3.
  apply once_bind.
  { unfold _run, os_mkdir, _dst_cmd, is_dst_remote.
    destruct (dst_remote self); rsync_free_prog. }
  intros _ w4.
  rewrite bind_reply, run_rsync_reply.
  cbn [outcome_of world_of events_of].
  match goal with
  | |- context [events_of (?rest w4)] =>
      assert (rsync_cmds (events_of (rest w4)) = []) as Hrest
  end.
  { apply (rsync_free_bind (A := unit)); [| intros _; apply rsync_free_smart_remove].
    unfold _run, os_remove, os_symlink, _dst_cmd, is_dst_remote.
    destruct (dst_remote self); rsync_free_prog. }
  rewrite rsync_cmds_app, Hrest, app_nil_r.
  assert (forall l x, is_rsync_cmd x = false ->
                      rsync_cmds [ELog INFO (MsgRunningCmd ("rsync" :: l));
                                  ECmd ("rsync" :: l); x]
                      = [ECmd ("rsync" :: l)]) as Hone.
  { intros l x Hx. unfold rsync_cmds. rewrite !filter_cons, filter_nil.
    cbn [is_rsync_cmd]. rewrite Hx. reflexivity. }
  rewrite Hone.
  - split; [right |]; reflexivity.
  - destruct (env_rsync E) as [status |]; [| reflexivity].
    unfold rsync_report. destruct (status =? 0); [reflexivity |].
    by destruct (RSYNC_EXIT_CODE status).
Qed.

(** X16: when [_find_snapshots] returns, the destination is as it was, and
    the result is sorted by timestamp and then path and holds exactly the
    names of the listing that parse as a timestamp, each with its path below
    the destination; a name that does not parse, [latest] for one, is
    skipped. *)
Theorem find_snapshots_finds_the_timestamped (strptime : string -> option datetime)
    (self : config) (w : world) (snaps : list snapshot) :
  outcome_of (_find_snapshots strptime self w) = Ret snaps ->
  world_of (_find_snapshots strptime self w) = w
  /\ StronglySorted snap_le snaps
  /\ (forall t p,
        (t, p) ∈ snaps
        <-> exists entry,
              entry ∈ listing self (w_fs w)
              /\ strptime entry = Some t
              /\ p = path_join (_dst_path self) entry).
Proof.
  intros Hfind. split; [apply find_snapshots_world |].
  assert (snaps
          = sort_snapshots
              (omap (fun entry : string =>
                       (fun t : datetime => (t, path_join (_dst_path self) entry))
                         <$> strptime entry)
                    (listing self (w_fs w)))) as ->.
  { revert Hfind. unfold _find_snapshots, os_listdir, listing.
    rewrite bind_reply. destruct (is_dst_remote self).
    - rewrite !bind_reply. cbn. by intros [= <-].
    - rewrite bind_reply. cbn [get_fs outcome_of world_of events_of].
      destruct (resolve (w_fs w) (destination self)) as [[| |] |]; cbn;
        try discriminate.
      by intros [= <-]. }
  split; [apply sort_snapshots_sorted |].
  intros t p. rewrite sort_snapshots_elem_of, list_elem_of_omap.
  split.
  - intros (entry & Hin & He). exists entry. split; [done |].
    destruct (strptime entry) as [t' |]; [| discriminate].
    by injection He as -> <-.
  - intros (entry & Hin & Ht & ->). exists entry. split; [done |].
    by rewrite Ht.
Qed.

Lemma find_snapshots_finds_the_timestamped_witness :
  (dt 2024 1 6 3 0 0, "/b/2024-01-06_03:00:00_GMT"%string)
    ∈ [(dt 2024 1 6 3 0 0, "/b/2024-01-06_03:00:00_GMT"%string)]
  <-> exists entry,
        entry ∈ listing sample_config sample_fs
        /\ strptime_canonical entry = Some (dt 2024 1 6 3 0 0)
        /\ "/b/2024-01-06_03:00:00_GMT"%string = path_join "/b" entry.
Proof.
  destruct (find_snapshots_finds_the_timestamped strptime_canonical
              sample_config (initial_world sample_fs)
              [(dt 2024 1 6 3 0 0, "/b/2024-01-06_03:00:00_GMT"%string)])
    as (_ & _ & H).
  - vm_compute. reflexivity.
  - apply H.
Defined.

(** a sequence whose first part raises *)
Lemma bind_raise {A B} (m : M A) (k : A -> M B) w e w' t :
  m w = mk_reply (Raised e) w' t ->
  (m ≫= k) w = mk_reply (Raised e) w' t.
Proof. intros Hm. by rewrite bind_reply, Hm. Qed.

Lemma not_link_exists (fs : gmap string node) p n :
  fs !! p = Some n -> (forall t, n <> Symlink t) ->
  exists_ fs p = true /\ islink fs p = false.
Proof.
  intros Hp Hn. unfold exists_, islink, resolve, MAXSYMLINKS.
  cbn [resolve_fuel]. rewrite Hp.
  destruct n as [| | t]; [| | by destruct (Hn t)];
    (split; [by apply bool_decide_eq_true_2 | reflexivity]).
Qed.

(** what the resolver answers for a remote destination whose pointer path
    holds an entry that is no symbolic link *)
Lemma get_file_stat_remote_no_link self latest w u n :
  dst_remote self = Some u ->
  w_fs w !! latest = Some n -> (forall t, n <> Symlink t) ->
  _get_file_stat self latest w
  = mk_reply (Ret (mk_file_stat true false false None)) w
      [ECmd ["ssh"; u; "readlink"; latest];
       ECmd ["ssh"; u; "[ -e " ++ dquote ++ latest ++ dquote ++ " ]"]%string;
       ECmd ["ssh"; u; "[ -L " ++ dquote ++ latest ++ dquote ++ " ]"]%string].
Proof.
  intros Hu Hp Hn.
  destruct (not_link_exists _ _ _ Hp Hn) as [He Hl].
  unfold _get_file_stat, _dst_cmd, is_dst_remote. rewrite Hu. cbn [app].
  assert (forall cmd eff c,
             eff (w_fs w) = (c, w_fs w) ->
             _run cmd eff w = mk_reply (Ret c) w [ECmd cmd]) as Hrun.
  { intros cmd eff c Heff. unfold _run.
    eapply (bind_step _ _ _ _ _ [_]); [reflexivity |].
    eapply (bind_step _ _ _ _ _ []); [reflexivity |].
    rewrite Heff. cbn [fst snd].
    eapply (bind_step _ _ _ _ _ []); [| reflexivity].
    unfold put_fs. by destruct w. }
  eapply (bind_step _ _ _ _ _ [_]).
  { apply Hrun. unfold sh_readlink. rewrite Hp.
    destruct n as [| | t]; [reflexivity | reflexivity | by destruct (Hn t)]. }
  eapply (bind_step _ _ _ _ _ [_]).
  { apply Hrun. unfold sh_test_e. rewrite He. reflexivity. }
  eapply (bind_step _ _ _ _ _ [_]).
  { apply Hrun. unfold sh_test_L. rewrite Hl. reflexivity. }
  reflexivity.
Qed.

(** X17: for a remote destination the resolver takes an entry at the
    pointer path that is no symbolic link (a directory named [latest], say)
    for an existing pointer without a target. With at least one snapshot
    [_take_snapshot] then enters the branch that clones, logs that it copies
    the last snapshot, and ends with a [TypeError], the copy command being
    built around [None]: the destination is left as it was and rsync is not
    invoked. *)
Theorem remote_pointer_that_is_no_link (strptime : string -> option datetime)
    (self : config) (E : env) (w : world) (snaps : list snapshot) (n : node) :
  is_dst_remote self = true ->
  outcome_of (_find_snapshots strptime self w) = Ret snaps ->
  snaps <> [] ->
  w_fs w !! path_join (_dst_path self) "latest" = Some n ->
  (forall t, n <> Symlink t) ->
  outcome_of (_get_file_stat self (path_join (_dst_path self) "latest") w)
  = Ret (mk_file_stat true false false None)
  /\ outcome_of (_take_snapshot strptime self E w) = Raised TypeError
  /\ world_of (_take_snapshot strptime self E w) = w
  /\ (INFO, MsgCopyingLast)
       ∈ log_of (events_of (_take_snapshot strptime self E w))
  /\ rsync_invoked (events_of (_take_snapshot strptime self E w)) = false.
Proof.
  intros Hr Hfind Hs Hp Hn.
  assert (exists u, dst_remote self = Some u) as [u Hu].
  { unfold is_dst_remote in Hr. destruct (dst_remote self); [by eexists | done]. }
  split; [by erewrite get_file_stat_remote_no_link |].
  assert (_find_snapshots strptime self w
          = mk_reply (Ret snaps) w
              [ECmd ["ssh"; u; "ls"; "-1"; "--color=none"; _dst_path self]])
    as Hfind'.
  { rewrite (reply_eta (_find_snapshots strptime self w)).
    rewrite Hfind, find_snapshots_world. f_equal.
    unfold _find_snapshots, _dst_cmd. rewrite Hr, Hu, !bind_reply. cbn.
    reflexivity. }
  assert (_take_snapshot strptime self E w
          = mk_reply (Raised TypeError) w
              [ECmd ["ssh"; u; "ls"; "-1"; "--color=none"; _dst_path self];
               ECmd ["ssh"; u; "readlink"; path_join (_dst_path self) "latest"];
               ECmd ["ssh"; u;
                     "[ -e " ++ dquote ++ path_join (_dst_path self) "latest"
                     ++ dquote ++ " ]"]%string;
               ECmd ["ssh"; u;
                     "[ -L " ++ dquote ++ path_join (_dst_path self) "latest"
                     ++ dquote ++ " ]"]%string;
               ELog INFO MsgCopyingLast]) as ->.
  { unfold _take_snapshot.
    eapply (bind_step _ _ _ _ _ [_]); [exact Hfind' |].
    eapply (bind_step _ _ _ _ _ [_; _; _]);
      [by eapply get_file_stat_remote_no_link |].
    rewrite pointer_branch_cases by done. cbn [fstat_exists fstat_target].
    apply bind_raise.
    eapply (bind_step _ _ _ _ _ [_]); reflexivity. }
  cbn [outcome_of world_of events_of].
  split; [done |]. split; [done |]. split; [| reflexivity].
  cbn. do 0 right. left.
Qed.

Lemma remote_pointer_that_is_no_link_witness :
  outcome_of (_take_snapshot strptime_canonical sample_remote_config sample_env
                             (initial_world remote_dir_pointer_fs))
  = Raised TypeError.
Proof.
  destruct (remote_pointer_that_is_no_link strptime_canonical
              sample_remote_config sample_env
              (initial_world remote_dir_pointer_fs)
              [(dt 2024 1 6 3 0 0, "/b/2024-01-06_03:00:00_GMT"%string)] Dir)
    as (_ & H & _).
  - reflexivity.
  - vm_compute. reflexivity.
  - discriminate.
  - vm_compute. reflexivity.
  - intros t. discriminate.
  - exact H.
Defined.

(** ** A file system without inode totals *)

Lemma inode_reports_app t1 t2 :
  inode_reports (t1 ++ t2) = inode_reports t1 ++ inode_reports t2.
Proof. apply filter_app. Qed.

Lemma plain_bind {A B} (m : M A) (k : A -> M B) :
  plain m -> (forall a, plain (k a)) -> plain (m ≫= k).
Proof.
  intros Hm Hk w. rewrite bind_reply. destruct (Hm w) as [He Hw].
  destruct (outcome_of (m w)) as [a | e | c];
    cbn [events_of world_of]; [| done..].
  destruct (Hk a (world_of (m w))) as [He' Hw'].
  by rewrite inode_reports_app, He, He', Hw', Hw.
Qed.

Lemma plain_try_except {A} (m h : M A) :
  plain m -> plain h -> plain (try_except m h).
Proof.
  intros Hm Hh w. unfold try_except. destruct (Hm w) as [He Hw].
  destruct (outcome_of (m w)) as [a | e | c]; [done | | done].
  cbn [events_of world_of].
  destruct (Hh (world_of (m w))) as [He' Hw'].
  by rewrite inode_reports_app, He, He', Hw', Hw.
Qed.

Ltac plain_prog :=
  repeat lazymatch goal with
    | |- plain (_ ≫= _) => apply plain_bind; [| intros ?]
    | |- plain (try_except _ _) => apply plain_try_except
    | |- plain (match ?x with _ => _ end) => destruct x
    | |- plain _ => intros ?; split; reflexivity
    end.

Lemma only_adds_plain {A} (m : M A) : only_adds m -> plain m.
Proof. intros H w. destruct (H w) as (He & Hc & _). by rewrite He. Qed.

Lemma plain_delete_snapshots self E dels : plain (delete_snapshots self E dels).
Proof.
  induction dels as [| p dels IH]; [intros ?; split; reflexivity |].
  cbn [delete_snapshots]. unfold _run, shutil_rmtree.
  apply plain_bind; [plain_prog | intros _].
  apply plain_bind; [plain_prog | intros _; exact IH].
Qed.

Lemma plain_smart_remove self E snaps : plain (_smart_remove self E snaps).
Proof.
  unfold _smart_remove. destruct (length snaps <=? 1)%nat; [plain_prog |].
  apply plain_bind.
  - unfold lift. destruct (del_snapshots _ _ snaps); plain_prog.
  - intros [| p dels]; [plain_prog |]. apply plain_delete_snapshots.
Qed.

Lemma plain_take_snapshot strptime self E : plain (_take_snapshot strptime self E).
Proof.
  unfold _take_snapshot.
  apply plain_bind; [unfold _find_snapshots, os_listdir; plain_prog |].
  intros snaps.
  apply plain_bind;
    [unfold _get_file_stat, _run, os_readlink; plain_prog |].
  intros st.
  apply plain_bind;
    [unfold _run, os_remove, os_mkdir, os_symlink; plain_prog |].
  intros _.
  apply plain_bind; [unfold _run, os_mkdir; plain_prog |]. intros _.
  apply plain_bind; [unfold _run_rsync; plain_prog |]. intros _.
  apply plain_bind;
    [unfold _run, os_remove, os_symlink; plain_prog |].
  intros _. apply plain_smart_remove.
Qed.

Lemma plain_unchecked {A} (m : M A) : plain m -> unchecked m.
Proof. intros Hm w Hw. destruct (Hm w) as [He Hw']. by rewrite Hw' in *. Qed.

Lemma unchecked_bind {A B} (m : M A) (k : A -> M B) :
  unchecked m -> (forall a, unchecked (k a)) -> unchecked (m ≫= k).
Proof.
  intros Hm Hk w Hw. rewrite bind_reply. destruct (Hm w Hw) as [He Hw'].
  destruct (outcome_of (m w)) as [a | e | c];
    cbn [events_of world_of]; [| done..].
  destruct (Hk a (world_of (m w)) Hw') as [He' Hw''].
  by rewrite inode_reports_app, He, He'.
Qed.

Lemma unchecked_print_fs_stat stat : unchecked (_print_fs_stat stat).
Proof.
  intros w Hw. unfold _print_fs_stat.
  unfold mbind, M_bind, mret, M_ret, get_check_inodes, logging, raise.
  destruct (blocks stat * bsize stat =? 0); cbn; [done |].
  rewrite Hw. cbn. done.
Qed.

(** X18: when the file system reports zero total inodes, [_check_freespace]
    switches the inode accounting off for the rest of the run: whatever
    statistics are read after the backup, neither report of [run] holds a
    record on the inodes. *)
Theorem no_inode_totals_no_inode_report (strptime : string -> option datetime)
    (self : config) (E : env) (w : world) (stat : fs_stat) :
  env_stat_before E = Some stat ->
  files stat = 0 ->
  inode_reports (events_of (run strptime self E w)) = []
  /\ (forall inodes_free inodes_total,
        (INFO, MsgFreeInodes inodes_free inodes_total)
          ∉ log_of (events_of (run strptime self E w))).
Proof.
  intros Hstat Hfiles.
  assert (inode_reports (events_of (run strptime self E w)) = []) as Hnone.
  { unfold run. rewrite bind_reply.
    assert (plain (_flock_exclusive E)) as Hlock
      by (unfold _flock_exclusive; destruct (env_lock_free E); plain_prog).
    destruct (Hlock w) as [He _].
    destruct (outcome_of (_flock_exclusive E w)) as [[] | e | c];
      cbn [events_of]; [| done..].
    rewrite inode_reports_app, He. cbn [app].
    set (w1 := world_of (_flock_exclusive E w)).
    change (events_of (try_finally ?body _flock_release w1))
      with (events_of (body w1) ++ []).
    rewrite app_nil_r.
    rewrite bind_reply. cbn [logging outcome_of world_of events_of].
    rewrite inode_reports_app.
    change (inode_reports [ELog INFO (MsgStart (destination self))])
      with (@nil event).
    cbn [app]. rewrite bind_reply.
    assert (plain (_create_dest_directory self)) as Hcreate
      by (unfold _create_dest_directory, _run; plain_prog;
          apply only_adds_plain, only_adds_makedirs).
    destruct (Hcreate w1) as [He1 _].
    destruct (outcome_of (_create_dest_directory self w1)) as [[] | e | c];
      cbn [events_of]; rewrite ?inode_reports_app, He1; [| done..].
    cbn [app]. set (w2 := world_of (_create_dest_directory self w1)).
    rewrite bind_reply.
    assert (inode_reports (events_of (_check_freespace self E w2)) = []
            /\ w_check_inodes (world_of (_check_freespace self E w2)) = false)
      as [He2 Hflag].
    { unfold _check_freespace, _get_stat. rewrite Hstat.
      unfold mbind, M_bind, mret, M_ret.
      destruct (is_dst_remote self); cbn -[space_free Qltb Z.eqb Z.ltb];
        rewrite Hfiles; cbn -[space_free Qltb];
        destruct (Qltb (space_free stat) (inject_Z (min_space self)));
        cbn; done. }
    destruct (outcome_of (_check_freespace self E w2)) as [st | e | c];
      cbn [events_of]; rewrite ?inode_reports_app, He2; [| done..].
    cbn [app].
    match goal with
    | |- inode_reports (events_of (?rest _)) = [] =>
        assert (unchecked rest) as Hrest
    end.
    { apply unchecked_bind; [apply plain_unchecked, plain_take_snapshot |].
      intros _.
      apply unchecked_bind; [apply plain_unchecked; plain_prog |]. intros _.
      apply unchecked_bind; [apply unchecked_print_fs_stat |]. intros _.
      apply unchecked_bind; [apply plain_unchecked; plain_prog |]. intros _.
      apply unchecked_bind.
      { apply plain_unchecked. unfold _get_stat.
        destruct (is_dst_remote self), (env_stat_after E); plain_prog. }
      intros st2.
      apply unchecked_bind; [apply unchecked_print_fs_stat |]. intros _.
      apply plain_unchecked. plain_prog. }
    by destruct (Hrest _ Hflag). }
  split; [exact Hnone |].
  intros a b Hin. unfold log_of in Hin.
  apply list_elem_of_omap in Hin as (e & He & Hlog).
  assert (e ∈ inode_reports (events_of (run strptime self E w))) as Hin'.
  { apply list_elem_of_filter. split; [| done].
    destruct e as [l m |]; [| done]. injection Hlog as -> ->. done. }
  rewrite Hnone in Hin'. by apply elem_of_nil in Hin'.
Qed.

Lemma no_inode_totals_no_inode_report_witness :
  inode_reports
    (events_of (run strptime_canonical sample_config no_inodes_env
                    (initial_world sample_fs))) = [].
Proof.
  destruct (no_inode_totals_no_inode_report strptime_canonical sample_config
              no_inodes_env (initial_world sample_fs) no_inodes_stat)
    as [H _].
  - reflexivity.
  - reflexivity.
  - exact H.
Defined.

(** ** The names of the snapshot directories *)

Lemma digit_val_digit n : digit_val (digit n) = Some (n mod 10).
Proof.
  unfold digit, digit_val.
  pose proof (Z.mod_pos_bound n 10 ltac:(lia)) as Hn.
  rewrite nat_ascii_embedding by lia.
  destruct (Nat.leb_spec 48 (48 + Z.to_nat (n mod 10))); [| lia].
  destruct (Nat.leb_spec (48 + Z.to_nat (n mod 10)) 57); [| lia].
  simpl. f_equal. lia.
Qed.

Lemma num2_pad n :
  0 <= n < 100 -> num2 (digit (n / 10)) (digit n) = Some n.
Proof.
  intros Hn. unfold num2. rewrite !digit_val_digit. simpl. f_equal.
  Z.div_mod_to_equations. lia.
Qed.

(** X19: the name that [_take_snapshot] gives to the directory of a run,
    for a valid time of a year from 1000 on, parses back under the format of
    [_find_snapshots] to the time of the run cut to whole seconds: the next
    run finds the directory as a snapshot with that timestamp. *)
Theorem snapshot_name_round_trip (now : datetime) :
  Datetime.valid now = true ->
  1000 <= Datetime.year now ->
  strptime_canonical (strftime now)
  = Some (mk_datetime (Datetime.year now) (Datetime.month now)
                      (Datetime.day now) (Datetime.hour now)
                      (Datetime.minute now) (Datetime.second now) 0).
Proof.
  intros V Hy.
  pose proof V as V'. unfold Datetime.valid, Datetime.valid_fields in V'.
  rewrite !andb_true_iff, !Z.leb_le in V'.
  unfold Datetime.MINYEAR, Datetime.MAXYEAR in V'.
  repeat match goal with H : _ /\ _ |- _ => destruct H end.
  assert (Datetime._days_in_month (Datetime.year now) (Datetime.month now) <= 31)
    as Hd3.
  { unfold Datetime._days_in_month.
    destruct (_ && _); [lia |].
    month_cases (Datetime.month now); simpl; lia. }
  unfold strftime, pad4, pad2. cbv [String.append].
  unfold strptime_canonical.
  assert (num2 (digit (Datetime.year now / 1000)) (digit (Datetime.year now / 100))
          = Some (Datetime.year now / 100)) as ->.
  { replace (Datetime.year now / 1000) with (Datetime.year now / 100 / 10)
      by (Z.div_mod_to_equations; lia).
    apply num2_pad. Z.div_mod_to_equations. lia. }
  assert (num2 (digit (Datetime.year now / 10)) (digit (Datetime.year now))
          = Some (Datetime.year now mod 100)) as ->.
  { unfold num2. rewrite !digit_val_digit. simpl. f_equal.
    Z.div_mod_to_equations. lia. }
  rewrite !num2_pad by lia. cbn [mbind option_bind].
  replace (100 * (Datetime.year now / 100) + Datetime.year now mod 100)
    with (Datetime.year now) by (Z.div_mod_to_equations; lia).
  unfold Datetime.new.
  assert (Datetime.valid_fields (Datetime.year now) (Datetime.month now)
            (Datetime.day now) (Datetime.hour now) (Datetime.minute now)
            (Datetime.second now) 0 = true) as ->; [| reflexivity].
  unfold Datetime.valid, Datetime.valid_fields in V |- *.
  rewrite !andb_true_iff, !Z.leb_le in V |- *. intuition lia.
Qed.

Lemma snapshot_name_round_trip_witness :
  strptime_canonical (strftime (mk_datetime 2024 1 7 12 30 5 123))
  = Some (mk_datetime 2024 1 7 12 30 5 0).
Proof.
  apply (snapshot_name_round_trip (mk_datetime 2024 1 7 12 30 5 123)).
  - reflexivity.
  - vm_compute. discriminate.
Defined.

(** ** A clone that fails *)

Lemma world_bind {A B} (m : M A) (k : A -> M B) :
  (forall w, world_of (m w) = w) -> (forall a w, world_of (k a w) = w) ->
  forall w, world_of ((m ≫= k) w) = w.
Proof.
  intros Hm Hk w. rewrite bind_reply.
  destruct (outcome_of (m w)); cbn [world_of]; rewrite ?Hk; apply Hm.
Qed.

(** a command that leaves the store as it is leaves the world as it is *)
Lemma run_world cmd eff :
  (forall fs, (eff fs).2 = fs) -> forall w, world_of (_run cmd eff w) = w.
Proof.
  intros Heff w. unfold _run.
  erewrite bind_step; [| reflexivity |].
  2: { erewrite bind_step; [| reflexivity |].
       2: { erewrite bind_step; reflexivity. }
       reflexivity. }
  cbn [world_of]. rewrite Heff. by destruct w.
Qed.

(** the resolver leaves the world as it is *)
Lemma get_file_stat_world self latest w :
  world_of (_get_file_stat self latest w) = w.
Proof.
  revert w. unfold _get_file_stat. destruct (is_dst_remote self).
  - apply world_bind.
    { apply run_world. intros fs. unfold sh_readlink.
      by destruct (fs !! latest) as [[| | t] |]. }
    intros res1. apply world_bind; [apply run_world; intros fs; reflexivity |].
    intros res2. apply world_bind; [apply run_world; intros fs; reflexivity |].
    intros res3 w. by destruct (returncode res3 =? 0).
  - apply world_bind; [reflexivity |]. intros fs.
    destruct (islink fs latest); [| reflexivity].
    apply world_bind; [| reflexivity].
    unfold os_readlink. apply world_bind; [reflexivity |].
    intros fs' w'. by destruct (fs' !! latest) as [[| | t] |].
Qed.

(** X20: a clone that fails ends the run before synchronization. With at
    least one snapshot and a pointer that the resolver reports as existing
    with a target, when the hard-link copy of the target ends with a status
    other than 0, [_take_snapshot] logs that the clone failed and leaves
    with status 2: rsync is not invoked, the pointer is not reseated and
    nothing is deleted, the destination being as the copy left it. *)
Theorem failed_clone_aborts (strptime : string -> option datetime)
    (self : config) (E : env) (w : world) (snaps : list snapshot)
    (st : file_stat) (src : string) :
  outcome_of (_find_snapshots strptime self w) = Ret snaps ->
  snaps <> [] ->
  outcome_of (_get_file_stat self (path_join (_dst_path self) "latest") w)
  = Ret st ->
  fstat_exists st = true ->
  fstat_target st = Some src ->
  let backup_dst := path_join (_dst_path self) (strftime (env_now_snapshot E)) in
  let cp := sh_cp_arl (env_cp_status E) src backup_dst (w_fs w) in
  returncode cp.1 <> 0 ->
  let r := _take_snapshot strptime self E w in
  outcome_of r = Exited 2
  /\ w_fs (world_of r) = cp.2
  /\ rsync_cmds (events_of r) = []
  /\ deleted_paths (events_of r) = []
  /\ (ERROR, MsgCloneFailed) ∈ log_of (events_of r).
Proof.
  intros Hfind Hs Hstat Hex Htarget backup_dst cp Hcp r.
  set (latest := path_join (_dst_path self) "latest") in *.
  pose proof (rsync_free_find_snapshots strptime self w) as Hf1.
  pose proof (quiet_find_snapshots strptime self w) as Hf2.
  pose proof (rsync_free_get_file_stat self latest w) as Hg1.
  pose proof (quiet_get_file_stat self latest w) as Hg2.
  assert (r = mk_reply (Exited 2)
                (mk_world cp.2 (w_check_inodes w) (w_locked w))
                (events_of (_find_snapshots strptime self w)
                 ++ events_of (_get_file_stat self latest w)
                 ++ [ELog INFO MsgCopyingLast;
                     ECmd (_dst_cmd self ++ ["cp"; "-arl"; src; backup_dst]);
                     ELog ERROR MsgCloneFailed])) as ->.
  { subst r. unfold _take_snapshot.
    eapply bind_step.
    { rewrite (reply_eta (_find_snapshots strptime self w)).
      rewrite Hfind, find_snapshots_world. reflexivity. }
    fold latest. eapply bind_step.
    { rewrite (reply_eta (_get_file_stat self latest w)).
      rewrite Hstat, get_file_stat_world. reflexivity. }
    rewrite pointer_branch_cases by done. rewrite Hex, Htarget.
    apply bind_exit.
    eapply (bind_step _ _ _ _ _ [_]); [reflexivity |].
    fold backup_dst.
    eapply (bind_step _ _ _ _ _ [_]).
    { unfold _run. eapply (bind_step _ _ _ _ _ [_]); [reflexivity |].
      eapply (bind_step _ _ _ _ _ []); [reflexivity |].
      eapply (bind_step _ _ _ _ _ []); reflexivity. }
    fold cp. destruct (Z.eqb_spec (returncode cp.1) 0) as [Hz | _]; [done |].
    cbn [negb]. reflexivity. }
  cbn [outcome_of world_of events_of w_fs].
  split; [done |]. split; [done |]. split; [| split].
  - rewrite !rsync_cmds_app, Hf1, Hg1. cbn [app].
    unfold rsync_cmds. rewrite !filter_cons, filter_nil.
    unfold _dst_cmd. by destruct (dst_remote self).
  - rewrite !deleted_paths_app, Hf2, Hg2. reflexivity.
  - rewrite !log_of_app, !elem_of_app. do 2 right. cbn. do 1 right. left.
Qed.

Lemma failed_clone_aborts_witness :
  outcome_of (_take_snapshot strptime_canonical sample_config
                             (mk_env true (Some sample_stat) (Some sample_stat)
                                     (mk_datetime 2024 1 7 12 30 5 123)
                                     (mk_datetime 2024 1 7 12 31 0 17)
                                     1 (RsyncStatus 0) (fun _ => 0))
                             (initial_world sample_fs)) = Exited 2.
Proof.
  destruct (failed_clone_aborts strptime_canonical sample_config
              (mk_env true (Some sample_stat) (Some sample_stat)
                      (mk_datetime 2024 1 7 12 30 5 123)
                      (mk_datetime 2024 1 7 12 31 0 17) 1 (RsyncStatus 0) (fun _ => 0))
              (initial_world sample_fs)
              [(dt 2024 1 6 3 0 0, "/b/2024-01-06_03:00:00_GMT"%string)]
              (mk_file_stat true false true (Some "/b/2024-01-06_03:00:00_GMT"))
              "/b/2024-01-06_03:00:00_GMT") as (H & _).
  - vm_compute. reflexivity.
  - discriminate.
  - vm_compute. reflexivity.
  - reflexivity.
  - reflexivity.
  - vm_compute. discriminate.
  - exact H.
Defined.

(** ** The pointer after a run on a destination in order *)

Lemma has_slash_app (a b : string) :
  has_slash (a ++ b)%string = has_slash a || has_slash b.
Proof.
  induction a as [| c a IH]; [reflexivity |].
  rewrite append_cons. simpl. by rewrite IH, orb_assoc.
Qed.

Lemma strip_prefix_app (a b c : string) :
  strip_prefix (a ++ b)%string (a ++ c)%string = strip_prefix b c.
Proof.
  induction a as [| x a IH]; [reflexivity |].
  rewrite !append_cons. simpl. by rewrite Ascii.eqb_refl.
Qed.

Lemma strip_prefix_self (a r : string) :
  strip_prefix a (a ++ r)%string = Some r.
Proof.
  induction a as [| x a IH]; [by destruct r |].
  rewrite append_cons. simpl. by rewrite Ascii.eqb_refl.
Qed.

Lemma path_join_prefix d e :
  starts_with_slash e = false -> path_join d e = (dir_prefix d ++ e)%string.
Proof.
  intros He. unfold path_join, dir_prefix. rewrite He.
  destruct (String.eqb d "" || ends_with_slash d); [reflexivity |].
  by rewrite string_app_assoc.
Qed.

Lemma ends_with_slash_app (a e : string) :
  e <> "" -> ends_with_slash (a ++ e)%string = ends_with_slash e.
Proof.
  intros He. induction a as [| c a IH]; [reflexivity |].
  rewrite append_cons. simpl.
  destruct (a ++ e)%string eqn:Hae; [| exact IH].
  destruct a; [| discriminate]. by destruct He.
Qed.

Lemma no_slash_no_end e : has_slash e = false -> ends_with_slash e = false.
Proof.
  induction e as [| c e IH]; [done |]. simpl.
  intros [Hc He]%orb_false_elim. destruct e; [done | by apply IH].
Qed.

(** two entries of one directory: neither lies below the other *)
Lemma siblings_not_below d e1 e2 :
  e1 <> "" -> has_slash e1 = false -> has_slash e2 = false ->
  is_below (path_join d e1) (path_join d e2) = false.
Proof.
  intros Hne H1 H2. unfold is_below.
  rewrite !path_join_prefix by (by apply no_slash_not_absolute).
  assert (dir_prefix (dir_prefix d ++ e1)
          = (dir_prefix d ++ e1 ++ "/")%string) as ->.
  { unfold dir_prefix at 1.
    assert ((dir_prefix d ++ e1)%string <> "") as Hne'.
    { destruct (dir_prefix d); [done | discriminate]. }
    apply String.eqb_neq in Hne'. rewrite Hne'.
    rewrite ends_with_slash_app, (no_slash_no_end _ H1) by done.
    by rewrite string_app_assoc. }
  rewrite strip_prefix_app.
  destruct (strip_prefix (e1 ++ "/") e2) as [r |] eqn:Hr; [| reflexivity].
  apply strip_prefix_Some in Hr. rewrite Hr in H2.
  rewrite !has_slash_app in H2. cbn in H2. by rewrite orb_true_r in H2.
Qed.

Lemma digit_no_slash n : Ascii.eqb (digit n) "/" = false.
Proof.
  destruct (digit_cases n) as (k & Hk & ->).
  do 10 (destruct k as [| k]; [reflexivity |]). lia.
Qed.

Lemma strftime_no_slash now : has_slash (strftime now) = false.
Proof.
  unfold strftime, pad4, pad2. rewrite !has_slash_app. cbn [has_slash].
  rewrite !digit_no_slash. reflexivity.
Qed.

Lemma strftime_not_empty now : strftime now <> "".
Proof. destruct (strftime_head now) as (c & rest & -> & _). discriminate. Qed.

(** what is neither the removed path nor below it stays *)
Lemma remove_tree_other (fs : gmap string node) p q :
  q <> p -> is_below p q = false -> remove_tree fs p !! q = fs !! q.
Proof.
  intros Hne Hb. unfold remove_tree.
  destruct (fs !! q) as [n |] eqn:Hq.
  - apply map_lookup_filter_Some. split; [done |]. simpl. rewrite Hb.
    apply String.eqb_neq in Hne. by rewrite Hne.
  - apply map_lookup_filter_None. left. done.
Qed.

Lemma rebase_keys (fs : gmap string node) src dst k n :
  (k, n) ∈ rebase fs src dst -> is_below dst k = true.
Proof.
  unfold rebase. intros ([p m] & Hp & He)%list_elem_of_omap. simpl in He.
  destruct (strip_prefix (dir_prefix src) p) as [r |]; [| done].
  destruct (String.eqb r "") eqn:Hr; [done |]. injection He as <- <-.
  unfold is_below. by rewrite strip_prefix_self, Hr.
Qed.

(** what is neither the copy nor below it stays *)
Lemma copy_tree_other (fs : gmap string node) src dst n q :
  q <> dst -> is_below dst q = false -> copy_tree fs src dst n !! q = fs !! q.
Proof.
  intros Hne Hb. unfold copy_tree. rewrite lookup_insert_ne by done.
  rewrite lookup_union_r; [done |].
  apply not_elem_of_list_to_map_1. intros Hin.
  apply list_elem_of_fmap in Hin as ([k m] & -> & Hin). simpl in Hb.
  apply rebase_keys in Hin. congruence.
Qed.

Lemma copy_tree_root (fs : gmap string node) src dst n :
  copy_tree fs src dst n !! dst = Some n.
Proof. unfold copy_tree. apply lookup_insert_eq. Qed.

(** a store that agrees with another on what the other holds resolves the
    paths the other resolves *)
Lemma resolve_fuel_agree (fs fs' : gmap string node) fuel p x :
  (forall q n, fs !! q = Some n -> fs' !! q = Some n) ->
  resolve_fuel fuel fs p = Some x -> resolve_fuel fuel fs' p = Some x.
Proof.
  intros Hag. revert p. induction fuel as [| fuel IH]; intros p; simpl.
  - destruct (fs !! p) as [n |] eqn:Hp; [| done].
    rewrite (Hag _ _ Hp). by destruct n.
  - destruct (fs !! p) as [n |] eqn:Hp; [| done].
    rewrite (Hag _ _ Hp). destruct n; [done | done | apply IH].
Qed.

Lemma exists_agree (fs fs' : gmap string node) p :
  (forall q n, fs !! q = Some n -> fs' !! q = Some n) ->
  exists_ fs p = true -> exists_ fs' p = true.
Proof.
  intros Hag. unfold exists_, resolve.
  intros [x Hx]%bool_decide_eq_true_1. apply bool_decide_eq_true_2.
  exists x. by eapply resolve_fuel_agree.
Qed.

Lemma post_shutil_rmtree p w :
  post (shutil_rmtree p) w
       (fun _ w' t => w_fs w !! p = Some Dir
                      /\ w' = mk_world (remove_tree (w_fs w) p)
                                       (w_check_inodes w) (w_locked w)
                      /\ t = []).
Proof.
  unfold shutil_rmtree. intros a. rewrite bind_reply.
  cbn [get_fs outcome_of world_of events_of].
  by destruct (w_fs w !! p) as [[| |] |].
Qed.

(** what the deletion loop of a local destination leaves alone, when it
    returns: every path that is not below a deleted one and is not itself a
    deleted directory *)
Lemma post_delete_snapshots self E dels w :
  is_dst_remote self = false ->
  post (delete_snapshots self E dels) w
       (fun _ w' _ =>
          forall q,
            (forall p, p ∈ dels ->
                       (q <> p \/ w_fs w !! q <> Some Dir)
                       /\ is_below p q = false) ->
            w_fs w' !! q = w_fs w !! q).
Proof.
  intros Hl. revert w. induction dels as [| p dels IH]; intros w.
  - eapply post_reply; [reflexivity |]. done.
  - cbn [delete_snapshots]. rewrite Hl.
    apply post_bind. eapply post_reply; [reflexivity |]. intros _ _.
    apply post_bind. eapply post_weaken; [apply post_shutil_rmtree |].
    intros _ w1 t1 (Hdir & -> & ->).
    eapply post_weaken; [apply IH |].
    intros u w2 t2 H2 q Hq. cbn [w_fs] in H2.
    destruct (Hq p) as [[Hne | Hnd] Hb]; [by left | |].
    + rewrite H2.
      * by apply remove_tree_other.
      * intros p' Hp'. destruct (Hq p') as [Hor Hb']; [by right |].
        rewrite remove_tree_other by done. done.
    + assert (q <> p) as Hne by (intros ->; done).
      rewrite H2.
      * by apply remove_tree_other.
      * intros p' Hp'. destruct (Hq p') as [Hor Hb']; [by right |].
        rewrite remove_tree_other by done. done.
Qed.

Lemma post_smart_remove self E snaps w :
  is_dst_remote self = false ->
  post (_smart_remove self E snaps) w
       (fun _ w' _ =>
          forall q,
            (forall s, s ∈ snaps ->
                       (q <> s.2 \/ w_fs w !! q <> Some Dir)
                       /\ is_below s.2 q = false) ->
            w_fs w' !! q = w_fs w !! q).
Proof.
  intros Hl. unfold _smart_remove.
  destruct (length snaps <=? 1)%nat.
  { eapply post_reply; [reflexivity |]. done. }
  apply post_bind. unfold lift.
  destruct (del_snapshots (smart_remove self) (env_now_retention E) snaps)
    as [dels | e] eqn:Hd.
  2: { eapply post_reply; [reflexivity |]. done. }
  eapply post_reply; [reflexivity |]. intros ? [= <-].
  assert (post (match dels with
                | [] => logging INFO MsgNoSnapshotToRemove
                | _ :: _ => delete_snapshots self E dels
                end) w
            (fun _ w' _ =>
               forall q,
                 (forall p, p ∈ dels ->
                            (q <> p \/ w_fs w !! q <> Some Dir)
                            /\ is_below p q = false) ->
                 w_fs w' !! q = w_fs w !! q)) as Hp.
  { destruct dels as [| p dels'].
    - eapply post_reply; [reflexivity |]. done.
    - by apply post_delete_snapshots. }
  eapply post_weaken; [exact Hp |].
  intros u w' t H q Hq. apply H. intros p Hp'.
  destruct (del_snapshots_spec _ _ _ _ _ Hd Hp') as [Hin _].
  apply list_elem_of_fmap in Hin as (s & -> & Hs). by apply Hq.
Qed.

Lemma entry_of_name d p name :
  entry_of d p = Some name -> name <> "" /\ has_slash name = false.
Proof.
  unfold entry_of.
  destruct (strip_prefix (dir_prefix d) p) as [r |]; [| done].
  destruct (String.eqb r "" || has_slash r) eqn:Hr; [done |].
  intros [= <-]. apply orb_false_elim in Hr as [Hr Hs].
  split; [by apply String.eqb_neq | done].
Qed.

(** for a local destination every snapshot found is an entry of the
    destination directory, under a name without slash *)
Lemma find_snapshots_local_names strptime self w snaps :
  is_dst_remote self = false ->
  _dst_path self = destination self ->
  outcome_of (_find_snapshots strptime self w) = Ret snaps ->
  forall s, s ∈ snaps ->
    exists name, s.2 = path_join (_dst_path self) name
                 /\ name <> "" /\ has_slash name = false
                 /\ is_Some (w_fs w !! s.2).
Proof.
  intros Hl Hd Hfind s Hs.
  pose proof (find_snapshots_local strptime self w snaps Hl Hd Hfind s Hs) as Hin.
  revert Hfind. unfold _find_snapshots, os_listdir. rewrite Hl, Hd.
  rewrite !bind_reply. cbn [get_fs outcome_of world_of events_of].
  destruct (resolve (w_fs w) (destination self)) as [[| |] |]; try done.
  cbn. intros [= <-]. rewrite sort_snapshots_elem_of in Hs.
  apply list_elem_of_omap in Hs as (entry & He & Hf).
  destruct (strptime entry) as [t |]; [| done]. injection Hf as <-.
  unfold entries in He. apply list_elem_of_omap in He as ([p n] & Hp & He).
  simpl in He. destruct (entry_of_name _ _ _ He) as [Hne Hns].
  exists entry. simpl in *. done.
Qed.

(** X21: on a local destination in order, a run that returns has moved the
    pointer to the new snapshot. When snapshots were found, the pointer is a
    symbolic link that resolves and whose target, read from the
    destination, is a directory, and nothing lies at or below the path of
    the new snapshot, then after a [_take_snapshot] that returns the
    pointer is a symbolic link to the directory of the new snapshot and that
    directory is there, retention having spared both. *)
Theorem healthy_run_reseats_the_pointer (strptime : string -> option datetime)
    (self : config) (E : env) (w : world) (snaps : list snapshot)
    (target : string) :
  is_dst_remote self = false ->
  _dst_path self = destination self ->
  outcome_of (_find_snapshots strptime self w) = Ret snaps ->
  snaps <> [] ->
  let latest := path_join (_dst_path self) "latest" in
  let backup_dst := path_join (_dst_path self) (strftime (env_now_snapshot E)) in
  w_fs w !! latest = Some (Symlink target) ->
  exists_ (w_fs w) latest = true ->
  w_fs w !! path_join (_dst_path self) target = Some Dir ->
  (forall q, q = backup_dst \/ is_below backup_dst q = true ->
             w_fs w !! q = None) ->
  outcome_of (_take_snapshot strptime self E w) = Ret tt ->
  w_fs (world_of (_take_snapshot strptime self E w)) !! latest
  = Some (Symlink backup_dst)
  /\ w_fs (world_of (_take_snapshot strptime self E w)) !! backup_dst
     = Some Dir.
Proof.
  intros Hl Hd Hfind Hs latest backup_dst Hlatest Hex Hsrc Hfree Hret.
  pose proof (backup_dst_not_latest (_dst_path self) (env_now_snapshot E)) as Hne.
  fold latest backup_dst in Hne.
  pose proof (find_snapshots_local_names strptime self w snaps Hl Hd Hfind)
    as Hnames.
  cut (post (_take_snapshot strptime self E) w
         (fun _ w' t => w_fs w' !! latest = Some (Symlink backup_dst)
                        /\ w_fs w' !! backup_dst = Some Dir)).
  { intros Hp. exact (Hp tt Hret). }
  clear Hret. unfold _take_snapshot. fold latest backup_dst.
  apply post_bind. intros snaps' Hs'. rewrite Hfind in Hs'. injection Hs' as <-.
  rewrite find_snapshots_world.
  apply post_bind.
  eapply post_reply; [by rewrite get_file_stat_local, Hlatest |].
  intros st [= <-].
  rewrite pointer_branch_cases by done. cbn [fstat_exists fstat_target].
  (* the clone *)
  set (src := path_join (_dst_path self) target) in *.
  set (fs1 := copy_tree (w_fs w) src backup_dst Dir).
  unfold _dst_cmd, is_dst_remote in *.
  destruct (dst_remote self) as [u |] eqn:Hu; [done |]. cbn [app].
  assert (forall q n, w_fs w !! q = Some n -> fs1 !! q = Some n) as Hag.
  { intros q n Hq. subst fs1. rewrite copy_tree_other; [done | |].
    - intros ->. rewrite (Hfree backup_dst) in Hq by (by left). done.
    - destruct (is_below backup_dst q) eqn:Hb; [| done].
      rewrite (Hfree q) in Hq by (by right). done. }
  apply post_bind. apply post_bind.
  eapply post_reply; [reflexivity |]. intros _ _.
  apply post_bind.
  assert (post (_run ["cp"; "-arl"; src; backup_dst]
                     (sh_cp_arl (env_cp_status E) src backup_dst)) w
            (fun res w' t =>
               returncode res <> 0
               \/ w' = mk_world fs1 (w_check_inodes w) (w_locked w))) as Hcp.
  { unfold _run. apply post_bind. eapply post_reply; [reflexivity |].
    intros _ _. apply post_bind. eapply post_reply; [reflexivity |].
    intros fs [= <-]. apply post_bind.
    eapply post_reply; [reflexivity |]. intros _ _.
    eapply post_reply; [reflexivity |]. intros res [= <-].
    unfold sh_cp_arl. rewrite Hsrc.
    destruct (negb (env_cp_status E =? 0)) eqn:Hst.
    { left. cbn. by destruct (Z.eqb_spec (env_cp_status E) 0). }
    assert (isdir (w_fs w) backup_dst = false) as ->.
    { unfold isdir, resolve, MAXSYMLINKS. cbn [resolve_fuel].
      by rewrite (Hfree backup_dst) by (by left). }
    assert (lexists (w_fs w) backup_dst = false) as ->.
    { unfold lexists. apply bool_decide_eq_false.
      rewrite (Hfree backup_dst) by (by left). by intros [? ?]. }
    destruct (parent_ok (w_fs w) backup_dst); [by right | left; by cbn]. }
  eapply post_weaken; [exact Hcp |]. clear Hcp.
  intros res w1 t1 Hres.
  destruct (Z.eqb_spec (returncode res) 0) as [Hz | Hnz]; cbn [negb].
  2: { apply post_bind. eapply post_reply; [reflexivity |]. intros _ _.
       eapply post_reply; [reflexivity |]. done. }
  destruct Hres as [? | ->]; [done |].
  eapply post_reply; [reflexivity |]. intros _ _.
  (* the directory is there already *)
  apply post_bind, post_bind.
  eapply post_reply; [reflexivity |]. intros fs [= <-]. cbn [w_fs].
  assert (exists_ fs1 backup_dst = true) as ->.
  { unfold exists_, resolve, MAXSYMLINKS. cbn [resolve_fuel].
    subst fs1. rewrite copy_tree_root. by apply bool_decide_eq_true_2. }
  cbn [negb]. eapply post_reply; [reflexivity |]. intros _ _.
  (* rsync *)
  apply post_bind. eapply post_reply; [apply run_rsync_reply |]. intros _ _.
  (* the pointer is reseated *)
  apply post_bind, post_bind.
  eapply post_reply; [reflexivity |]. intros fs [= <-]. cbn [w_fs].
  rewrite (exists_agree _ fs1 _ Hag Hex).
  apply post_bind. eapply post_weaken; [apply post_os_remove |].
  intros u1 w2 t2 [-> ->].
  eapply post_weaken; [apply post_os_symlink |].
  intros u2 w3 t3 (_ & -> & ->). cbn [w_fs].
  set (fs3 := <[latest := Symlink backup_dst]> (delete latest fs1)).
  (* retention *)
  eapply post_weaken;
    [apply post_smart_remove; unfold is_dst_remote; by rewrite Hu |].
  intros u3 w4 t4 Hkeep. cbn [w_fs] in Hkeep.
  assert (fs3 !! latest = Some (Symlink backup_dst)) as H3l
    by (subst fs3; apply lookup_insert_eq).
  assert (fs3 !! backup_dst = Some Dir) as H3b.
  { subst fs3. rewrite lookup_insert_ne by done.
    rewrite lookup_delete_ne by done. subst fs1. apply copy_tree_root. }
  split.
  - rewrite Hkeep; [done |]. intros s Hs'.
    destruct (Hnames s Hs') as (name & -> & Hn1 & Hn2 & _).
    split; [right; rewrite H3l; discriminate |].
    by apply siblings_not_below.
  - rewrite Hkeep; [done |]. intros s Hs'.
    destruct (Hnames s Hs') as (name & Hname & Hn1 & Hn2 & [n Hin]).
    split.
    + left. intros Heq. rewrite <-Heq in Hin.
      rewrite (Hfree backup_dst) in Hin by (by left). done.
    + rewrite Hname. apply siblings_not_below; [done | done |].
      apply strftime_no_slash.
Qed.

Lemma healthy_run_reseats_the_pointer_witness :
  w_fs (world_of (_take_snapshot strptime_canonical sample_config sample_env
                                 (initial_world sample_fs)))
    !! path_join (_dst_path sample_config) "latest"
  = Some (Symlink (path_join (_dst_path sample_config)
                             (strftime (env_now_snapshot sample_env))))
  /\ w_fs (world_of (_take_snapshot strptime_canonical sample_config sample_env
                                    (initial_world sample_fs)))
       !! path_join (_dst_path sample_config)
                    (strftime (env_now_snapshot sample_env))
     = Some Dir.
Proof.
  apply (healthy_run_reseats_the_pointer strptime_canonical sample_config
           sample_env (initial_world sample_fs)
           [(dt 2024 1 6 3 0 0, "/b/2024-01-06_03:00:00_GMT"%string)]
           "/b/2024-01-06_03:00:00_GMT").
  - reflexivity.
  - reflexivity.
  - (vm_compute; reflexivity).
  - discriminate.
  - (vm_compute; reflexivity).
  - (vm_compute; reflexivity).
  - (vm_compute; reflexivity).
  - intros q Hq. cbn [initial_world w_fs].
    destruct (sample_fs !! q) as [n |] eqn:Hin; [| reflexivity]. exfalso.
    apply elem_of_map_to_list in Hin.
    assert (map_to_list sample_fs
            = [("/b/2024-01-06_03:00:00_GMT"%string, Dir);
               ("/b/latest"%string, Symlink "/b/2024-01-06_03:00:00_GMT");
               ("/b"%string, Dir)]) as Hl by (vm_compute; reflexivity).
    rewrite Hl in Hin. clear Hl.
    repeat (apply elem_of_cons in Hin as [[= -> ->] | Hin]);
      [| | | by apply elem_of_nil in Hin];
      (destruct Hq as [Hq | Hq];
       [apply String.eqb_eq in Hq |]; vm_compute in Hq; discriminate Hq).
  - (vm_compute; reflexivity).
Defined.

(** ** The pointer after the first run on a remote destination *)

Lemma split_last_slash_no_slash e :
  has_slash e = false -> (split_last_slash e).1 = "".
Proof.
  induction e as [| c e IH]; [done |]. simpl.
  intros [Hc He]%orb_false_elim. rewrite He, Hc.
  by destruct (split_last_slash e).
Qed.

Lemma split_last_slash_app a e :
  has_slash e = false ->
  (split_last_slash (a ++ e)%string).1 = (split_last_slash a).1.
Proof.
  intros He. induction a as [| c a IH].
  - by apply split_last_slash_no_slash.
  - rewrite append_cons. simpl. rewrite has_slash_app, He, orb_false_r.
    destruct (split_last_slash (a ++ e)) as [h t].
    destruct (split_last_slash a) as [h' t']. simpl in IH. subst h'.
    destruct (has_slash a); [done |]. by destruct (Ascii.eqb c "/").
Qed.

(** the entries of one directory have one parent *)
Lemma dirname_sibling d e1 e2 :
  has_slash e1 = false -> has_slash e2 = false ->
  dirname (path_join d e1) = dirname (path_join d e2).
Proof.
  intros H1 H2. unfold dirname.
  rewrite !path_join_prefix by (by apply no_slash_not_absolute).
  by rewrite !split_last_slash_app.
Qed.

Lemma sh_rm_store (fs : gmap string node) p :
  fs !! p <> Some Dir -> (sh_rm p fs).2 = delete p fs.
Proof.
  intros Hp. unfold sh_rm. destruct (fs !! p) as [[| | t] |] eqn:E;
    try done. simpl. symmetry. by apply delete_id.
Qed.

Lemma mkdir_p_fuel_isdir fuel p (fs : gmap string node) :
  isdir fs p = true -> mkdir_p_fuel fuel p fs = (true, fs).
Proof. intros H. destruct fuel; cbn [mkdir_p_fuel]; by rewrite H. Qed.

Lemma sh_mkdir_p_store (fs : gmap string node) p :
  fs !! p = None -> fs !! dirname p = Some Dir ->
  (sh_mkdir_p p fs).2 = <[p := Dir]> fs.
Proof.
  intros Hp Hd. unfold sh_mkdir_p.
  destruct (absent_not_dir _ _ Hp) as [Hi Hl].
  destruct (plain_dir_isdir _ _ Hd) as [Hid _].
  assert (mkdir_p_fuel (String.length p) p fs = (true, <[p := Dir]> fs))
    as ->; [| done].
  destruct p as [| c p]; cbn [String.length mkdir_p_fuel]; rewrite Hi, Hl.
  - reflexivity.
  - destruct (String.eqb _ "" || all_slashes _); [done |].
    by rewrite mkdir_p_fuel_isdir.
Qed.

Lemma sh_ln_s_store (fs : gmap string node) target p :
  fs !! p = None -> fs !! dirname p = Some Dir ->
  (sh_ln_s target p fs).2 = <[p := Symlink target]> fs.
Proof.
  intros Hp Hd. unfold sh_ln_s.
  destruct (absent_not_dir _ _ Hp) as [-> ->].
  destruct (plain_dir_isdir _ _ Hd) as [Hi He].
  unfold parent_ok. by rewrite Hi, !orb_true_r.
Qed.

Lemma get_file_stat_remote_returns self latest w :
  is_dst_remote self = true ->
  exists st, outcome_of (_get_file_stat self latest w) = Ret st.
Proof.
  intros Hr. unfold _get_file_stat. rewrite Hr.
  rewrite bind_reply, run_reply. cbn [outcome_of world_of events_of].
  rewrite bind_reply, run_reply. cbn [outcome_of world_of events_of].
  rewrite bind_reply, run_reply. cbn [outcome_of world_of events_of].
  destruct (returncode _ =? 0); by eexists.
Qed.

(** X22: for a remote destination the first run sets the pointer. When no
    snapshot was found, the entry at the pointer path is not a directory,
    nothing is at the path of the new snapshot and the directory that holds
    both is a directory of the store, [_take_snapshot] returns, and after
    it the directory of the new snapshot is there and the pointer is a
    symbolic link to it. *)
Theorem remote_first_snapshot_sets_the_pointer
    (strptime : string -> option datetime) (self : config) (E : env)
    (w : world) :
  is_dst_remote self = true ->
  outcome_of (_find_snapshots strptime self w) = Ret [] ->
  let latest := path_join (_dst_path self) "latest" in
  let backup_dst := path_join (_dst_path self) (strftime (env_now_snapshot E)) in
  w_fs w !! latest <> Some Dir ->
  w_fs w !! backup_dst = None ->
  w_fs w !! dirname latest = Some Dir ->
  outcome_of (_take_snapshot strptime self E w) = Ret tt
  /\ w_fs (world_of (_take_snapshot strptime self E w)) !! latest
     = Some (Symlink backup_dst)
  /\ w_fs (world_of (_take_snapshot strptime self E w)) !! backup_dst
     = Some Dir.
Proof.
  intros Hr Hfind latest backup_dst Hlatest Hfree Hparent.
  pose proof (backup_dst_not_latest (_dst_path self) (env_now_snapshot E)) as Hne.
  fold latest backup_dst in Hne.
  assert (dirname backup_dst = dirname latest) as Hdir.
  { apply dirname_sibling; [apply strftime_no_slash | reflexivity]. }
  assert (dirname latest <> latest) as Hpl by (intros Heq; congruence).
  assert (dirname latest <> backup_dst) as Hpb by (intros Heq; congruence).
  set (fs1 := delete latest (w_fs w)).
  set (fs2 := <[backup_dst := Dir]> fs1).
  set (fs4 := <[latest := Symlink backup_dst]> (delete latest fs2)).
  assert (exists t,
             _take_snapshot strptime self E w
             = mk_reply (Ret tt)
                        (mk_world fs4 (w_check_inodes w) (w_locked w)) t)
    as [t ->].
  { unfold _take_snapshot. fold latest backup_dst.
    eexists. eapply bind_step.
    { rewrite (reply_eta (_find_snapshots strptime self w)).
      rewrite Hfind, find_snapshots_world. reflexivity. }
    destruct (get_file_stat_remote_returns self latest w Hr) as [st Hst].
    eapply bind_step.
    { rewrite (reply_eta (_get_file_stat self latest w)).
      rewrite Hst, get_file_stat_world. reflexivity. }
    assert (forall s0, pointer_branch [] s0 = NoSnapshots) as ->
      by (intros s0; unfold pointer_branch; by cbn).
    rewrite Hr.
    eapply bind_step.
    { eapply bind_step; [apply run_reply | reflexivity]. }
    cbn [w_fs w_check_inodes w_locked].
    rewrite (sh_rm_store _ _ Hlatest). fold fs1.
    eapply bind_step.
    { eapply bind_step; [apply run_reply | reflexivity]. }
    cbn [w_fs w_check_inodes w_locked].
    rewrite sh_mkdir_p_store.
    2: { subst fs1. by rewrite lookup_delete_ne. }
    2: { subst fs1. rewrite Hdir. by rewrite lookup_delete_ne. }
    fold fs2.
    eapply bind_step; [apply run_rsync_reply |].
    eapply bind_step.
    { eapply bind_step; [apply run_reply |].
      eapply bind_step; [apply run_reply | reflexivity]. }
    cbn [w_fs w_check_inodes w_locked].
    rewrite (sh_rm_store fs2 latest).
    2: { subst fs2 fs1. rewrite lookup_insert_ne by done.
         by rewrite lookup_delete_eq. }
    rewrite sh_ln_s_store.
    2: { apply lookup_delete_eq. }
    2: { rewrite lookup_delete_ne by done. subst fs2 fs1.
         rewrite lookup_insert_ne by done. by rewrite lookup_delete_ne. }
    fold fs4. apply smart_remove_few. simpl. lia. }
  cbn [outcome_of world_of w_fs]. split; [done |]. split.
  - subst fs4. apply lookup_insert_eq.
  - subst fs4 fs2. rewrite lookup_insert_ne by done.
    rewrite lookup_delete_ne by done. apply lookup_insert_eq.
Qed.

Lemma remote_first_snapshot_sets_the_pointer_witness :
  outcome_of (_take_snapshot strptime_canonical sample_remote_config sample_env
                             (initial_world empty_dest_fs)) = Ret tt
  /\ w_fs (world_of (_take_snapshot strptime_canonical sample_remote_config
                                    sample_env (initial_world empty_dest_fs)))
       !! path_join (_dst_path sample_remote_config) "latest"
     = Some (Symlink (path_join (_dst_path sample_remote_config)
                                (strftime (env_now_snapshot sample_env))))
  /\ w_fs (world_of (_take_snapshot strptime_canonical sample_remote_config
                                    sample_env (initial_world empty_dest_fs)))
       !! path_join (_dst_path sample_remote_config)
                    (strftime (env_now_snapshot sample_env))
     = Some Dir.
Proof.
  apply (remote_first_snapshot_sets_the_pointer strptime_canonical
           sample_remote_config sample_env (initial_world empty_dest_fs)).
  - reflexivity.
  - vm_compute. reflexivity.
  - vm_compute. discriminate.
  - vm_compute. reflexivity.
  - vm_compute. reflexivity.
Defined.

(** ** The store after retention *)







